(** * TipJar: tip-pool distribution, bill rounding, OCR text parsing

    A shallow embedding of the server side of the TipJar application:

    - the [POST /api/distributions/calculate] route of [registerRoutes]
      (server/routes.ts),
    - [analyzeImage] (server/api/gemini.ts),
    - [extractPartnerHours] (the OCR text parser of the Vercel function),
    - the Allocator and the Bill Rounder ([calculatePayout],
      [roundAndCalculateBills]), whose source lives in client/src/lib and is
      modelled from the specification.

    JavaScript numbers are IEEE-754 binary64 values: they are embedded as
    Rocq's primitive [float]s, so a concrete run of the model computes the
    very number the JavaScript code computes. *)

From Stdlib Require Import ZArith List Bool String Ascii Lia DecimalString FinFun.
From Stdlib Require Import QArith Qround Qabs Qpower Lqa.
From Stdlib Require Import Floats.
Import ListNotations.

Local Open Scope Z_scope.

(* ================================================================== *)
(** * JavaScript values and exceptions *)
(* ================================================================== *)

(** The global [isFinite] on a number: neither NaN nor an infinity. *)
Definition isFinite (x : float) : bool := PrimFloat.is_finite x.

(** The global [isNaN] on a number. *)
Definition isNaN (x : float) : bool := PrimFloat.is_nan x.

(** A thrown value: an [Error] object with its message, or anything else. *)
Inductive Thrown : Type :=
| ErrorObj (message : string)
| OtherThrown.

(** A computation that either returns or throws. *)
Inductive Exc (A : Type) : Type :=
| Return (a : A)
| Throw (e : Thrown).
Arguments Return {A} a.
Arguments Throw {A} e.

Definition bindExc {A B : Type} (c : Exc A) (k : A -> Exc B) : Exc B :=
  match c with
  | Return a => k a
  | Throw e => Throw e
  end.

Notation "x <- c ;; k" := (bindExc c (fun x => k))
  (at level 61, c at next level, right associativity).

(** [Array.prototype.map] with a callback that may throw: elements are
    visited in index order and the first exception aborts the whole map. *)
Fixpoint mapExc {A B : Type} (f : A -> Exc B) (l : list A) : Exc (list B) :=
  match l with
  | [] => Return []
  | a :: l' =>
      b <- f a ;;
      bs <- mapExc f l' ;;
      Return (b :: bs)
  end.

(* ================================================================== *)
(** * The calculate-distribution route (server/routes.ts) *)
(* ================================================================== *)

(** One entry of [req.body.partnerHours]. *)
Record PartnerHours : Type := mkPartnerHours {
  ph_name : string;
  ph_hours : float
}.

(** The destructured request body.  [partnerHours] is [None] when the
    field is not an array ([Array.isArray] is false). *)
Record RequestBody : Type := mkRequestBody {
  partnerHours : option (list PartnerHours);
  totalAmount : float;
  totalHours : float;
  hourlyRate : float
}.

Section Routes.

(** The result types of [roundAndCalculateBills]; the route only copies
    them into the answer. *)
Context {Rounded Breakdown : Type}.

(** [calculatePayout] (client/src/lib/utils). *)
Variable calculatePayout : float -> float -> float.

(** [roundAndCalculateBills] (client/src/lib/billCalc). *)
Variable roundAndCalculateBills : float -> Exc (Rounded * Breakdown).

(** [partnerHoursSchema.parse] (@shared/schema): [true] when parsing
    succeeds, [false] when it throws. *)
Variable partnerHoursSchema : list PartnerHours -> bool.

(** The object literal returned by the [map] callback. *)
Record PartnerPayout : Type := mkPartnerPayout {
  pp_name : string;
  pp_hours : float;
  pp_payout : float;
  pp_rounded : Rounded;
  pp_billBreakdown : Breakdown
}.

(** Values stored in the fields of the JSON answers of the route. *)
Inductive JSValue : Type :=
| VNum (x : float)
| VStr (s : string)
| VPayouts (l : list PartnerPayout).

(** A JavaScript object literal: its own properties, in insertion
    order. *)
Definition JSObject : Type := list (string * JSValue).

Fixpoint getField (key : string) (o : JSObject) : option JSValue :=
  match o with
  | [] => None
  | (k, v) :: o' => if String.eqb k key then Some v else getField key o'
  end.

(** [res.status(status).json(body)]. *)
Record Response : Type := mkResponse {
  status : Z;
  body : JSObject
}.

Definition errorResponse (code : Z) (message : string) : Response :=
  mkResponse code [("error"%string, VStr message)].

(** The [map] callback of the route, lines 127-143. *)
Definition partnerPayoutOf (rate : float) (partner : PartnerHours)
  : Exc PartnerPayout :=
  let payout := calculatePayout (ph_hours partner) rate in
  if negb (isFinite payout) || (payout <? 0)%float then
    Throw (ErrorObj
      ("Invalid payout calculation for partner " ++ ph_name partner)%string)
  else
    rb <- roundAndCalculateBills payout ;;
    Return (mkPartnerPayout (ph_name partner) (ph_hours partner) payout
              (fst rb) (snd rb)).

(** The object [distributionData], lines 145-150. *)
Definition distributionData (req : RequestBody)
  (partnerPayouts : list PartnerPayout) : JSObject :=
  [ ("totalAmount"%string, VNum (totalAmount req));
    ("totalHours"%string, VNum (totalHours req));
    ("hourlyRate"%string, VNum (hourlyRate req));
    ("partnerPayouts"%string, VPayouts partnerPayouts) ].

(** The message sent by the [catch] of the route, lines 153-157. *)
Definition catchMessage (e : Thrown) : string :=
  match e with
  | ErrorObj message => message
  | OtherThrown => "Failed to calculate distribution"
  end.

(** The handler of [POST /api/distributions/calculate], lines 98-158. *)
Definition calculateDistribution (req : RequestBody) : Response :=
  match partnerHours req with
  | None | Some [] =>
      errorResponse 400 "Partner hours data is missing or empty"
  | Some hoursList =>
      if (totalAmount req <=? 0)%float || negb (isFinite (totalAmount req))
      then errorResponse 400 "Total amount must be a positive number"
      else if (totalHours req <=? 0)%float || negb (isFinite (totalHours req))
      then errorResponse 400 "Total hours must be a positive number"
      else if (hourlyRate req <=? 0)%float || negb (isFinite (hourlyRate req))
      then errorResponse 400 "Hourly rate must be a positive number"
      else if negb (partnerHoursSchema hoursList)
      then errorResponse 400 "Invalid partner hours data"
      else
        match mapExc (partnerPayoutOf (hourlyRate req)) hoursList with
        | Return partnerPayouts =>
            mkResponse 200 (distributionData req partnerPayouts)
        | Throw e => errorResponse 500 (catchMessage e)
        end
  end.

(** The answer carries a Distribution: status 200. *)
Definition producesDistribution (r : Response) : Prop := status r = 200.

(** The two input-validation conditions of the specification, read on
    the answers of the route: [EmptyInput] is the 400 answer for a missing
    or empty partner list, [InvalidInput] any of the other 400 answers. *)
Definition EmptyInput (r : Response) : Prop :=
  r = errorResponse 400 "Partner hours data is missing or empty".

Definition InvalidInput (r : Response) : Prop :=
  r = errorResponse 400 "Total amount must be a positive number" \/
  r = errorResponse 400 "Total hours must be a positive number" \/
  r = errorResponse 400 "Hourly rate must be a positive number" \/
  r = errorResponse 400 "Invalid partner hours data".

End Routes.

(** The numeric guard of lines 107-117: [x <= 0 || !isFinite(x)]. *)
Definition notPositiveFinite (x : float) : bool :=
  (x <=? 0)%float || negb (isFinite x).

Arguments PartnerPayout : clear implicits.
Arguments JSValue : clear implicits.
Arguments JSObject : clear implicits.
Arguments Response : clear implicits.

(* ================================================================== *)
(** * The Allocator and the Bill Rounder (client/src/lib) *)
(* ================================================================== *)

(** Modelled from the spec: [calculatePayout] of client/src/lib/utils is
    not among the sources.  Section 4.1: "For each partner:
    payout = hours * hourlyRate" (a binary64 product). *)
Definition calculatePayout (hours rate : float) : float :=
  (hours * rate)%float.

(** Modelled from the spec: [partnerHoursSchema] of @shared/schema is not
    among the sources.  Section 3: a PartnerHours has a non-empty
    name and hours that are finite and greater than zero. *)
Definition validPartnerHours (p : PartnerHours) : bool :=
  negb (String.eqb (ph_name p) EmptyString) &&
  (0 <? ph_hours p)%float && isFinite (ph_hours p).

Definition partnerHoursSchema (l : list PartnerHours) : bool :=
  forallb validPartnerHours l.

(** The rational number a binary64 value stands for (zero for NaN and the
    infinities, which have none). *)
Definition exactValue (x : float) : Q :=
  match Prim2SF x with
  | S754_finite s m e =>
      (inject_Z (if s then Zneg m else Zpos m) * (2 ^ e))%Q
  | _ => 0%Q
  end.

(** Modelled from the spec: section 4.2, step 1.  "Round the exact payout
    to the nearest cent (standard half-up rounding) to get a rounded
    cent-integer amount". *)
Definition roundToCents (v : Q) : Z := Qfloor (100 * v + (1 # 2))%Q.

(** Modelled from the spec: the canonical denomination set of section 4.2,
    in cents, largest first. *)
Definition denominations : list Z := [2000; 1000; 500; 100; 25; 10; 5; 1].

Definition smallestDenomination : Z := 1.

(** A bill breakdown: denomination (in cents) and count, largest first. *)
Definition BillBreakdown : Type := list (Z * Z).

(** Modelled from the spec: section 4.2, steps 2 and 3.  Walk the
    denominations from largest to smallest; take
    [count = floor (remaining / denomination)], subtract
    [count * denomination], record the count if it is not zero; stop when
    [remaining] reaches zero.  Returns the final [remaining] with the
    breakdown. *)
Fixpoint decompose (remaining : Z) (ds : list Z) : Z * BillBreakdown :=
  match ds with
  | [] => (remaining, [])
  | d :: ds' =>
      if remaining =? 0 then (remaining, [])
      else
        let count := remaining / d in
        let '(final, rest) := decompose (remaining - count * d) ds' in
        (final, if count =? 0 then rest else (d, count) :: rest)
  end.

(** Sum of [denomination * count] over a breakdown. *)
Fixpoint reconstruct (b : BillBreakdown) : Z :=
  match b with
  | [] => 0
  | (d, c) :: b' => d * c + reconstruct b'
  end.

(** Modelled from the spec: [roundAndCalculateBills] of
    client/src/lib/billCalc is not among the sources.  Section
    4.2: fails with NegativePayout on a negative payout, with
    NonFiniteInput on NaN or an infinity; otherwise rounds to cents and
    decomposes greedily.  [rounded] is the payable amount in cents. *)
Definition roundAndCalculateBills (payout : float) : Exc (Z * BillBreakdown) :=
  if (payout <? 0)%float then Throw (ErrorObj "NegativePayout")
  else if negb (isFinite payout) then Throw (ErrorObj "NonFiniteInput")
  else
    let rounded := roundToCents (exactValue payout) in
    Return (rounded, snd (decompose rounded denominations)).

(** The route, with the Allocator, the Bill Rounder and the schema of the
    specification plugged in. *)
Definition calculate (req : RequestBody) : Response Z BillBreakdown :=
  calculateDistribution calculatePayout roundAndCalculateBills
    partnerHoursSchema req.

(** [sum(rounded)] over the partners of a Distribution, in cents. *)
Definition sumRounded (l : list (PartnerPayout Z BillBreakdown)) : Z :=
  fold_right (fun p acc => pp_rounded p + acc) 0 l.

(** The exact sum of the payouts, in cents. *)
Definition exactSumCents {R B : Type} (l : list (PartnerPayout R B)) : Q :=
  fold_right (fun p acc => (100 * exactValue (pp_payout p) + acc)%Q) 0%Q l.

(* ================================================================== *)
(** * The OCR text parser: [extractPartnerHours] *)
(* ================================================================== *)

(** The regular expression of the parser has members outside ASCII (the
    minus sign U+2212, the Unicode white space of [\s]), so the text is
    embedded as JavaScript has it: a sequence of UTF-16 code units. *)
Definition CodeUnit : Type := N.
Definition JSString : Type := list CodeUnit.

(** The code units of an ASCII literal. *)
Definition ofAscii (s : string) : JSString :=
  map N_of_ascii (list_ascii_of_string s).

(** LineTerminator: LF, CR, LS, PS. *)
Definition isLineTerminator (c : CodeUnit) : bool :=
  ((c =? 10) || (c =? 13) || (c =? 8232) || (c =? 8233))%N.

(** WhiteSpace or LineTerminator: what [String.prototype.trim] strips and
    what [\s] matches. *)
Definition isSpace (c : CodeUnit) : bool :=
  ((c =? 9) || (c =? 11) || (c =? 12) || (c =? 32) || (c =? 160) ||
   (c =? 5760) || ((8192 <=? c) && (c <=? 8202)) || (c =? 8239) ||
   (c =? 8287) || (c =? 12288) || (c =? 65279))%N
  || isLineTerminator c.

(** [\d]. *)
Definition isDigit (c : CodeUnit) : bool := ((48 <=? c) && (c <=? 57))%N.

(** The class [[:−\-]]: colon, minus sign U+2212, hyphen-minus. *)
Definition isSeparator (c : CodeUnit) : bool :=
  ((c =? 58) || (c =? 8722) || (c =? 45))%N.

(** [.] without the [s] flag. *)
Definition isDot (c : CodeUnit) : bool := negb (isLineTerminator c).

Definition isFullStop (c : CodeUnit) : bool := (c =? 46)%N.

Fixpoint dropWhile {A : Type} (f : A -> bool) (l : list A) : list A :=
  match l with
  | [] => []
  | a :: l' => if f a then dropWhile f l' else l
  end.

Fixpoint takeWhile {A : Type} (f : A -> bool) (l : list A) : list A :=
  match l with
  | [] => []
  | a :: l' => if f a then a :: takeWhile f l' else []
  end.

(** [s.trim()]. *)
Definition trim (s : JSString) : JSString :=
  rev (dropWhile isSpace (rev (dropWhile isSpace s))).

(** [text.split('\n')]: never empty, the pieces hold no line feed. *)
Fixpoint splitLines (text : JSString) : list JSString :=
  match text with
  | [] => [[]]
  | c :: text' =>
      if (c =? 10)%N then [] :: splitLines text'
      else
        match splitLines text' with
        | line :: lines => (c :: line) :: lines
        | [] => [[c]]
        end
  end.

(** The tail [\s*(\d+(?:\.\d+)?)] of the pattern, matched right after the
    separator: all the white space (a digit is no white space, so giving
    some back never helps), then the longest run of digits, then a full
    stop with its longest run of digits when there is at least one.
    Returns the second capture group. *)
Definition matchNumber (s : JSString) : option JSString :=
  let s1 := dropWhile isSpace s in
  let int := takeWhile isDigit s1 in
  match int with
  | [] => None
  | _ :: _ =>
      match dropWhile isDigit s1 with
      | c :: s2 =>
          if isFullStop c then
            match takeWhile isDigit s2 with
            | [] => Some int
            | frac => Some (int ++ c :: frac)
            end
          else Some int
      | [] => Some int
      end
  end.

(** The lazy group [(.+?)] followed by the rest of the pattern: [name] is
    what the group holds so far (not empty), [rest] what follows it.  The
    group is tried at its current length first; when the rest of the
    pattern fails there it takes one more [.] character. *)
Fixpoint matchName (name rest : JSString) : option (JSString * JSString) :=
  match rest with
  | [] => None
  | c :: rest' =>
      match (if isSeparator c then matchNumber rest' else None) with
      | Some number => Some (name, number)
      | None => if isDot c then matchName (name ++ [c]) rest' else None
      end
  end.

(** [line.match(/^(.+?)[:−\-]\s*(\d+(?:\.\d+)?)/)]: the two capture
    groups of the match anchored at the start, or [None]. *)
Definition regexMatch (line : JSString) : option (JSString * JSString) :=
  match line with
  | [] => None
  | c :: rest => if isDot c then matchName [c] rest else None
  end.

(** The natural number written by a run of decimal digits. *)
Definition digitsValue (ds : JSString) : Z :=
  fold_left (fun acc d => 10 * acc + (Z.of_N d - 48)) ds 0.

Fixpoint pow10 (k : nat) : positive :=
  match k with
  | O => 1
  | S k' => 10 * pow10 k'
  end.

(** The binary64 value nearest to [n / 10 ^ k] (ties to even), for
    [0 <= n]: the division of the specification of binary64, applied to
    the two integers. *)
Definition nearestDecimal (n : Z) (k : nat) : float :=
  match n with
  | Zpos m =>
      SF2Prim (SFdiv prec emax (S754_finite false m 0)
                 (S754_finite false (pow10 k) 0))
  | _ => 0%float
  end.

(** [parseFloat] on a string of the form [\d+(?:\.\d+)?]. *)
Definition parseFloat (s : JSString) : float :=
  let int := takeWhile isDigit s in
  match dropWhile isDigit s with
  | c :: frac =>
      if isFullStop c then
        let fracDigits := takeWhile isDigit frac in
        nearestDecimal (digitsValue (int ++ fracDigits)) (List.length fracDigits)
      else nearestDecimal (digitsValue int) 0
  | [] => nearestDecimal (digitsValue int) 0
  end.

(** One element of the array the parser returns. *)
Record ParsedPartner : Type := mkParsedPartner {
  name : JSString;
  hours : float
}.

(** The body of the [for] loop, lines 276-288: the array after the
    iteration on [line]. *)
Definition extractStep (partnerHours : list ParsedPartner) (line : JSString)
  : list ParsedPartner :=
  let trimmedLine := trim line in
  match trimmedLine with
  | [] => partnerHours
  | _ :: _ =>
      match regexMatch trimmedLine with
      | Some (group1, group2) =>
          let name := trim group1 in
          let hours := parseFloat group2 in
          match name with
          | [] => partnerHours
          | _ :: _ =>
              if negb (isNaN hours) && (0 <? hours)%float
              then partnerHours ++ [mkParsedPartner name hours]
              else partnerHours
          end
      | None => partnerHours
      end
  end.

(** [extractPartnerHours], lines 271-292. *)
Definition extractPartnerHours (text : JSString) : list ParsedPartner :=
  fold_left extractStep (splitLines text) [].

(** ** The contract of the parser, in the words of the specification *)

(** A number: digits, optionally followed by a full stop and digits. *)
Definition isNumberText (number : JSString) : Prop :=
  exists int,
    int <> [] /\ forallb isDigit int = true /\
    (number = int \/
     exists frac,
       frac <> [] /\ forallb isDigit frac = true /\
       number = int ++ 46%N :: frac).

(** A line of the form "name separator number": a name (at least one
    character, none of them a line terminator), a colon or dash, optional
    white space, a number; whatever follows the number is ignored. *)
Definition LineForm (line name number : JSString) : Prop :=
  exists sep ws rest,
    line = name ++ sep :: ws ++ number ++ rest /\
    name <> [] /\ forallb isDot name = true /\
    isSeparator sep = true /\
    forallb isSpace ws = true /\
    isNumberText number.

(** The reading of a line the pattern settles on: the shortest name, and
    for that name the longest number. *)
Definition FirstForm (line name number : JSString) : Prop :=
  LineForm line name number /\
  forall name' number',
    LineForm line name' number' ->
    (List.length name <= List.length name')%nat /\
    (List.length name' = List.length name ->
     (List.length number' <= List.length number)%nat).

(** Hours the parser keeps: a number greater than zero. *)
Definition positiveHours (h : float) : bool :=
  negb (isNaN h) && (0 <? h)%float.

(** A line yields the entry with its trimmed name and its number when it
    has the form and the number is greater than zero. *)
Definition lineYields (line : JSString) (e : ParsedPartner) : Prop :=
  exists group1 group2,
    FirstForm (trim line) group1 group2 /\
    e = mkParsedPartner (trim group1) (parseFloat group2) /\
    positiveHours (parseFloat group2) = true.

(** A line is skipped when it has not the form, or when its number is not
    greater than zero. *)
Definition lineSkipped (line : JSString) : Prop :=
  (forall name' number', ~ LineForm (trim line) name' number') \/
  (exists group1 group2,
     FirstForm (trim line) group1 group2 /\
     positiveHours (parseFloat group2) = false).

(** The entries of a sequence of lines: one per line that yields one, in
    the order of the lines. *)
Inductive Entries : list JSString -> list ParsedPartner -> Prop :=
| Entries_nil : Entries [] []
| Entries_yield (line : JSString) (lines : list JSString)
    (e : ParsedPartner) (es : list ParsedPartner) :
    lineYields line e -> Entries lines es ->
    Entries (line :: lines) (e :: es)
| Entries_skip (line : JSString) (lines : list JSString)
    (es : list ParsedPartner) :
    lineSkipped line -> Entries lines es ->
    Entries (line :: lines) es.

(** The contract as the specification words it: every line of the form
    yields its entry, and only the lines that have not the form are
    skipped. *)
Inductive EntriesAsWorded : list JSString -> list ParsedPartner -> Prop :=
| Worded_nil : EntriesAsWorded [] []
| Worded_yield (line : JSString) (lines : list JSString)
    (group1 group2 : JSString) (es : list ParsedPartner) :
    LineForm (trim line) group1 group2 ->
    EntriesAsWorded lines es ->
    EntriesAsWorded (line :: lines)
      (mkParsedPartner (trim group1) (parseFloat group2) :: es)
| Worded_skip (line : JSString) (lines : list JSString)
    (es : list ParsedPartner) :
    (forall name' number', ~ LineForm (trim line) name' number') ->
    EntriesAsWorded lines es ->
    EntriesAsWorded (line :: lines) es.

(* ================================================================== *)
(** * [analyzeImage] (server/api/gemini.ts) *)
(* ================================================================== *)

(** What [analyzeImage] resolves to: [{ text, error? }]. *)
Record AnalysisResult : Type := mkAnalysisResult {
  text : option string;
  error : option string
}.

(** [process.env]: a variable is undefined or holds a string. *)
Record ProcessEnv : Type := mkProcessEnv {
  GEMINI_API_KEY : option string;
  NETLIFY_GEMINI_API_KEY : option string
}.

(** The parsed JSON of a successful answer, as far as the function looks
    into it: no (or an empty) [candidates] array, or the first candidate,
    whose [content.parts] is an array of parts with an optional [text];
    [None] when reading the parts throws a TypeError ([content] or [parts]
    missing, a part that is null). *)
Inductive GeminiResponse : Type :=
| NoCandidates
| FirstCandidate (parts : option (list (option string))).

(** The answer of [fetch], as far as the function looks into it. *)
Record FetchResponse : Type := mkFetchResponse {
  ok : bool;
  responseStatus : Z;
  (** [await response.text()] *)
  responseText : Exc string;
  (** [response.headers.forEach(...)] and the logging around it *)
  responseHeaders : Exc unit;
  (** [await response.json()], and reading [data.candidates] *)
  responseJson : Exc GeminiResponse
}.

(** [a || b] on strings that may be undefined: the first truthy operand,
    else the last one. *)
Definition orElse (a : option string) (b : string) : string :=
  match a with
  | Some s => if String.eqb s EmptyString then b else s
  | None => b
  end.

(** Decimal digits of an HTTP status inside a template literal. *)
Definition showStatus (n : Z) : string :=
  NilZero.string_of_int (Z.to_int n).

Definition lineFeed : string := String (ascii_of_nat 10) EmptyString.

(** [.filter(Boolean)] on the texts of the parts: undefined and the empty
    string are dropped. *)
Fixpoint truthyTexts (parts : list (option string)) : list string :=
  match parts with
  | [] => []
  | Some s :: parts' =>
      if String.eqb s EmptyString then truthyTexts parts' else s :: truthyTexts parts'
  | None :: parts' => truthyTexts parts'
  end.

Definition failure (message : string) : AnalysisResult :=
  mkAnalysisResult None (Some message).

(** The API key, line 74:
    [GEMINI_API_KEY || NETLIFY_GEMINI_API_KEY || (empty string)]. *)
Definition apiKeyOf (env : ProcessEnv) : string :=
  orElse (GEMINI_API_KEY env) (orElse (NETLIFY_GEMINI_API_KEY env) EmptyString).

Section Gemini.

(** The environment of the process. *)
Variable env : ProcessEnv.

(** [fetch(url, init)], as a function of what the request is built from,
    the API key and the image: it rejects or resolves to a response. *)
Variable fetch : string -> string -> Exc FetchResponse.

(** The inner [try] of the error branch, lines 173-184:
    [JSON.parse(errorText)], then [errorData.error?.message] with the API
    key redacted.  [None] when the parse throws or there is no message:
    the default message stays. *)
Variable parsedErrorMessage : string -> option string.

(** The branch [if (!response.ok)], lines 161-210. *)
Definition notOkBranch (response : FetchResponse) : Exc AnalysisResult :=
  errorText <- responseText response ;;
  _ <- responseHeaders response ;;
  let errorMessage :=
    match parsedErrorMessage errorText with
    | Some message => message
    | None => "Failed to call Gemini API"%string
    end in
  if responseStatus response =? 400 then
    Return (failure "Bad request to Gemini API. Check your API key permissions and image format.")
  else if responseStatus response =? 403 then
    Return (failure "Authentication error. Your Gemini API key may be invalid or missing Vision API permissions.")
  else if responseStatus response =? 429 then
    Return (failure "Gemini API quota exceeded. Please try again later or check your API key limits.")
  else
    Return (failure ("API Error (" ++ showStatus (responseStatus response)
                       ++ "): " ++ errorMessage)%string).

(** The rest of the [try] block for an OK answer, lines 212-234. *)
Definition okBranch (response : FetchResponse) : Exc AnalysisResult :=
  data <- responseJson response ;;
  match data with
  | NoCandidates =>
      Return (failure "No text extracted from the image. Try a clearer image or manual entry.")
  | FirstCandidate None => Throw (ErrorObj "TypeError")
  | FirstCandidate (Some parts) =>
      let extractedText := String.concat lineFeed (truthyTexts parts) in
      if String.eqb extractedText EmptyString then
        Return (failure "No text extracted from the image. Try a clearer image or manual entry.")
      else Return (mkAnalysisResult (Some extractedText) None)
  end.

(** The body of the [try] block, lines 73-234. *)
Definition analyzeImageBody (imageBase64 : string) : Exc AnalysisResult :=
  let apiKey := apiKeyOf env in
  if String.eqb apiKey EmptyString then
    Return (failure "API key missing. Please configure the Gemini API key.")
  else
    response <- fetch apiKey imageBase64 ;;
    if negb (ok response) then notOkBranch response else okBranch response.

(** [analyzeImage], lines 71-242: the body inside [try], and the [catch]
    that turns whatever was thrown into an error record. *)
Definition analyzeImage (imageBase64 : string) : AnalysisResult :=
  match analyzeImageBody imageBase64 with
  | Return result => result
  | Throw _ =>
      failure "An unexpected error occurred while processing the image."
  end.

End Gemini.

(** A result is either a text that is not empty and no error, or no text
    and an error message that is not empty. *)
Definition wellFormedResult (r : AnalysisResult) : Prop :=
  match text r, error r with
  | Some t, None => t <> EmptyString
  | None, Some e => e <> EmptyString
  | _, _ => False
  end.

(** The failure modes of [analyzeImage]: no API key; [fetch] rejects; the
    status is not OK; reading the body throws; no candidate; a candidate
    without parts; no text in the parts. *)
Inductive FailureMode (env : ProcessEnv)
  (fetch : string -> string -> Exc FetchResponse)
  (imageBase64 : string) : Prop :=
| MissingKey :
    apiKeyOf env = EmptyString -> FailureMode env fetch imageBase64
| FetchRejects (e : Thrown) :
    fetch (apiKeyOf env) imageBase64 = Throw e -> FailureMode env fetch imageBase64
| StatusNotOk (response : FetchResponse) :
    fetch (apiKeyOf env) imageBase64 = Return response -> ok response = false ->
    FailureMode env fetch imageBase64
| JsonThrows (response : FetchResponse) (e : Thrown) :
    fetch (apiKeyOf env) imageBase64 = Return response -> responseJson response = Throw e ->
    FailureMode env fetch imageBase64
| EmptyCandidates (response : FetchResponse) :
    fetch (apiKeyOf env) imageBase64 = Return response ->
    responseJson response = Return NoCandidates ->
    FailureMode env fetch imageBase64
| MissingParts (response : FetchResponse) :
    fetch (apiKeyOf env) imageBase64 = Return response ->
    responseJson response = Return (FirstCandidate None) ->
    FailureMode env fetch imageBase64
| EmptyText (response : FetchResponse) (parts : list (option string)) :
    fetch (apiKeyOf env) imageBase64 = Return response ->
    responseJson response = Return (FirstCandidate (Some parts)) ->
    String.concat lineFeed (truthyTexts parts) = EmptyString ->
    FailureMode env fetch imageBase64.

(** An environment with a key, and answers of [fetch]. *)
Definition envWithKey : ProcessEnv := mkProcessEnv (Some "k"%string) None.

Definition envWithoutKey : ProcessEnv := mkProcessEnv None (Some EmptyString).

Definition answerWithText : FetchResponse :=
  mkFetchResponse true 200 (Return EmptyString) (Return tt)
    (Return (FirstCandidate
               (Some [Some "John Smith: 32"%string; None; Some EmptyString;
                      Some "Maria Garcia: 24.5"%string]))).

Definition answerServerError : FetchResponse :=
  mkFetchResponse false 503 (Return "oops"%string) (Return tt)
    (Throw OtherThrown).

(* ================================================================== *)
(** * Vocabulary of the properties *)
(* ================================================================== *)

(** [sum(partner.hours * hourlyRate for partner in partners)], added up
    from the left as JavaScript does. *)
Definition sumHoursTimesRate (l : list PartnerHours) (rate : float) : float :=
  fold_left (fun acc p => (acc + ph_hours p * rate)%float) l 0%float.

(** That sum for the partner list and the hourly rate of a request. *)
Definition sumOfShares (req : RequestBody) : float :=
  match partnerHours req with
  | Some l => sumHoursTimesRate l (hourlyRate req)
  | None => 0%float
  end.

(** Two numbers are equal within the relative tolerance [1e-9], taken on
    the exact values of the binary64 numbers. *)
Definition withinTolerance (x y : float) : Prop :=
  (Qabs (exactValue x - exactValue y) <= (1 # 1000000000) * Qabs (exactValue y))%Q.

(** The discrepancy [totalAmount - sum(rounded)], in cents. *)
Definition discrepancyCents (req : RequestBody)
  (l : list (PartnerPayout Z BillBreakdown)) : Q :=
  (100 * exactValue (totalAmount req) - inject_Z (sumRounded l))%Q.

(** An answer exposes the discrepancy when one of its fields, whatever its
    name, holds that amount. *)
Definition exposesDiscrepancy (req : RequestBody)
  (r : Response Z BillBreakdown) : Prop :=
  exists partnerPayouts key x,
    getField "partnerPayouts" (body r) = Some (VPayouts partnerPayouts) /\
    getField key (body r) = Some (VNum x) /\
    (100 * exactValue x == discrepancyCents req partnerPayouts)%Q.

(** The request with other totals, everything else unchanged. *)
Definition withTotals (req : RequestBody) (amount hours : float) : RequestBody :=
  mkRequestBody (partnerHours req) amount hours (hourlyRate req).

(** A payout the Bill Rounder step must refuse. *)
Definition invalidPayout (payout : float) : Prop :=
  (payout <? 0)%float = true \/ isFinite payout = false.

(** What the specification counts as a numeric defect of a request. *)
Definition invalidNumber (x : float) : Prop :=
  (x <=? 0)%float = true \/ isFinite x = false.

Definition missingOrEmpty (req : RequestBody) : Prop :=
  partnerHours req = None \/ partnerHours req = Some [].

Definition invalidNumbers (req : RequestBody) : Prop :=
  invalidNumber (totalAmount req) \/
  invalidNumber (totalHours req) \/
  exists l p, partnerHours req = Some l /\ In p l /\ invalidNumber (ph_hours p).

(** The first scenario of section 8: 100 to share, A worked 10 hours and B
    30. *)
Definition scenarioA : RequestBody :=
  mkRequestBody
    (Some [mkPartnerHours "A" 10%float; mkPartnerHours "B" 30%float])
    100%float 40%float 2.5%float.

(** The same totals and rate, sent with partner A alone. *)
Definition scenarioPartial : RequestBody :=
  mkRequestBody (Some [mkPartnerHours "A" 10%float])
    100%float 40%float 2.5%float.

(** The partner payouts the route answers for [scenarioPartial]. *)
Definition payoutsPartial : list (PartnerPayout Z BillBreakdown) :=
  [mkPartnerPayout "A" 10%float 25%float 2500 [(2000, 1); (500, 1)]].

(** An empty partner list together with a total amount of zero. *)
Definition scenarioEmptyZero : RequestBody :=
  mkRequestBody (Some []) 0%float 40%float 2.5%float.

(** A total amount of zero with a partner list. *)
Definition scenarioZero : RequestBody :=
  mkRequestBody (Some [mkPartnerHours "A" 10%float])
    0%float 40%float 2.5%float.

(** A partner with no hours. *)
Definition scenarioNoHours : RequestBody :=
  mkRequestBody
    (Some [mkPartnerHours "A" 10%float; mkPartnerHours "B" 0%float])
    100%float 40%float 2.5%float.

(** A payout that overflows binary64. *)
Definition scenarioOverflow : RequestBody :=
  mkRequestBody (Some [mkPartnerHours "A" 0x1p+1000%float])
    100%float 40%float 0x1p+1000%float.

(** 0.115 to share by one partner with 10 hours, the rate being
    [totalAmount / totalHours]: the caller's values agree with each
    other. *)
Definition scenarioHalfCent : RequestBody :=
  mkRequestBody (Some [mkPartnerHours "A" 10%float])
    0x1.d70a3d70a3d71p-4%float 10%float
    (0x1.d70a3d70a3d71p-4 / 10)%float.

(** The partner payouts the route answers for [scenarioHalfCent]. *)
Definition payoutsHalfCent : list (PartnerPayout Z BillBreakdown) :=
  [mkPartnerPayout "A" 10%float 0x1.d70a3d70a3d70p-4%float 11
     [(10, 1); (1, 1)]].

(* ================================================================== *)
(** * [formatOCRResult] and the OCR handlers *)
(* ================================================================== *)

(** [lines.join('\n')]. *)
Fixpoint joinLines (lines : list JSString) : JSString :=
  match lines with
  | [] => []
  | [line] => line
  | line :: lines' => line ++ 10%N :: joinLines lines'
  end.

(** [line.length > 0]. *)
Definition hasLength (line : JSString) : bool :=
  (0 <? List.length line)%nat.

(** [formatOCRResult], lines 294-299 of the Vercel function: the lines
    trimmed, the empty ones dropped, joined again. *)
Definition formatOCRResult (text : JSString) : JSString :=
  joinLines (filter hasLength (map trim (splitLines text))).

(** A string is trimmed when it is empty or neither starts nor ends with
    white space. *)
Definition isTrimmed (s : JSString) : Prop :=
  s = [] \/
  ((exists c t, s = c :: t /\ isSpace c = false) /\
   (exists t c, s = t ++ [c] /\ isSpace c = false)).

(** The JSON bodies the OCR handlers answer: an error object, with
    [suggestManualEntry] and [details] when the handler sets them, or the
    result, [extractedText] and [partnerHours]. *)
Inductive OcrBody (Text Entries : Type) : Type :=
| OcrError (message : string) (suggestManualEntry : option bool)
    (details : option string)
| OcrResult (extractedText : Text) (parsed : Entries).

Arguments OcrError {Text Entries} message suggestManualEntry details.
Arguments OcrResult {Text Entries} extractedText parsed.

Record OcrResponse (Text Entries : Type) : Type := mkOcrResponse {
  ocrStatus : Z;
  ocrBody : OcrBody Text Entries
}.

Arguments mkOcrResponse {Text Entries} ocrStatus ocrBody.
Arguments ocrStatus {Text Entries} o.
Arguments ocrBody {Text Entries} o.

(** An error answer that holds [error] alone. *)
Definition plainError {Text Entries : Type} (code : Z) (message : string) :
  OcrResponse Text Entries :=
  mkOcrResponse code (OcrError message None None).

(** [error instanceof Error ? error.message : 'Unknown error']. *)
Definition errorDetails (e : Thrown) : string :=
  match e with
  | ErrorObj message => message
  | OtherThrown => "Unknown error"
  end.

(** The answer of the [catch] block of both OCR handlers (routes.ts lines
    83-94, Vercel function lines 369-380). *)
Definition processingError {Text Entries : Type} (e : Thrown) :
  OcrResponse Text Entries :=
  mkOcrResponse 500
    (OcrError "Failed to process the image. Please try manual entry instead."
       (Some true) (Some (errorDetails e))).

(** [result.error || "Failed to extract text from image"] with
    [suggestManualEntry], answered with status 500. *)
Definition analysisError {Text Entries : Type} (result : AnalysisResult) :
  OcrResponse Text Entries :=
  mkOcrResponse 500
    (OcrError (orElse (error result) "Failed to extract text from image")
       (Some true) None).

Section OcrRoute.

(** The uploaded image ([req.file.buffer]) and
    [buffer.toString("base64")]. *)
Variable Buffer : Type.
Variable toBase64 : Buffer -> string.

(** routes.ts (line 24) imports [extractPartnerHours] and
    [formatOCRResult] from client/src/lib/formatUtils, a module that is
    not among the sources: the route is embedded for any two such
    functions, of any result types, which may throw. *)
Variables Text Entries : Type.
Variable formatUtils_extractPartnerHours : string -> Exc Entries.
Variable formatUtils_formatOCRResult : string -> Exc Text.

Variable env : ProcessEnv.
Variable fetch : string -> string -> Exc FetchResponse.
Variable parsedErrorMessage : string -> option string.

(** The [try] block of the handler of [POST /api/ocr], routes.ts lines
    43-82, with [analyzeImage] of server/api/gemini.ts; [file] is
    [req.file] as the upload middleware of the route left it. *)
Definition ocrRouteBody (file : option Buffer) :
  Exc (OcrResponse Text Entries) :=
  match file with
  | None => Return (plainError 400 "No image file provided")
  | Some buffer =>
      let imageBase64 := toBase64 buffer in
      let result := analyzeImage env fetch parsedErrorMessage imageBase64 in
      match text result with
      | None => Return (analysisError result)
      | Some t =>
          if String.eqb t EmptyString then Return (analysisError result)
          else
            parsed <- formatUtils_extractPartnerHours t ;;
            formattedText <- formatUtils_formatOCRResult t ;;
            Return (mkOcrResponse 200 (OcrResult formattedText parsed))
      end
  end.

(** The handler of [POST /api/ocr], routes.ts lines 41-95. *)
Definition ocrRoute (file : option Buffer) : OcrResponse Text Entries :=
  match ocrRouteBody file with
  | Return response => response
  | Throw e => processingError e
  end.

End OcrRoute.

Section VercelFunction.

Variable Buffer : Type.
Variable toBase64 : Buffer -> string.

(** The UTF-16 code units of the text [analyzeImage] returns. *)
Variable codeUnits : string -> JSString.

Variable env : ProcessEnv.
Variable fetch : string -> string -> Exc FetchResponse.
Variable parsedErrorMessage : string -> option string.

(** The branch [if (!response.ok)] of the Vercel copy of [analyzeImage],
    lines 197-236: as in gemini.ts, without the logging of the headers. *)
Definition notOkBranchVercel (response : FetchResponse) : Exc AnalysisResult :=
  errorText <- responseText response ;;
  let errorMessage :=
    match parsedErrorMessage errorText with
    | Some message => message
    | None => "Failed to call Gemini API"%string
    end in
  if responseStatus response =? 400 then
    Return (failure "Bad request to Gemini API. Check your API key permissions and image format.")
  else if responseStatus response =? 403 then
    Return (failure "Authentication error. Your Gemini API key may be invalid or missing Vision API permissions.")
  else if responseStatus response =? 429 then
    Return (failure "Gemini API quota exceeded. Please try again later or check your API key limits.")
  else
    Return (failure ("API Error (" ++ showStatus (responseStatus response)
                       ++ "): " ++ errorMessage)%string).

(** The [try] block of the Vercel copy, lines 113-260: the key is read
    from [GEMINI_API_KEY] alone. *)
Definition analyzeImageBodyVercel (imageBase64 : string) : Exc AnalysisResult :=
  let apiKey := orElse (GEMINI_API_KEY env) EmptyString in
  if String.eqb apiKey EmptyString then
    Return (failure "API key missing. Please configure the Gemini API key.")
  else
    response <- fetch apiKey imageBase64 ;;
    if negb (ok response) then notOkBranchVercel response
    else okBranch response.

(** [analyzeImage] of the Vercel function, lines 111-268. *)
Definition analyzeImageVercel (imageBase64 : string) : AnalysisResult :=
  match analyzeImageBodyVercel imageBase64 with
  | Return result => result
  | Throw _ =>
      failure "An unexpected error occurred while processing the image."
  end.

(** A request to the Vercel function: its method, and what the upload
    middleware ([runMiddleware] with multer, lines 310-319 and 328) makes
    of it: it rejects, or it leaves [req.file] set or unset. *)
Record OcrRequest : Type := mkOcrRequest {
  ocrMethod : string;
  upload : Exc (option Buffer)
}.

(** What the handler does once the upload is read, lines 330-368, with
    the function's own [analyzeImage], [extractPartnerHours] and
    [formatOCRResult]. *)
Definition ocrPipeline (file : option Buffer) :
  OcrResponse JSString (list ParsedPartner) :=
  match file with
  | None => plainError 400 "No image file provided"
  | Some buffer =>
      let imageBase64 := toBase64 buffer in
      let result := analyzeImageVercel imageBase64 in
      match text result with
      | None => analysisError result
      | Some t =>
          if String.eqb t EmptyString then analysisError result
          else
            let parsed := extractPartnerHours (codeUnits t) in
            let formattedText := formatOCRResult (codeUnits t) in
            mkOcrResponse 200 (OcrResult formattedText parsed)
      end
  end.

(** The default export of the Vercel function, lines 321-381. *)
Definition ocrHandler (req : OcrRequest) :
  OcrResponse JSString (list ParsedPartner) :=
  if negb (String.eqb (ocrMethod req) "POST") then
    plainError 405 "Method not allowed"
  else
    match upload req with
    | Throw e => processingError e
    | Return file => ocrPipeline file
    end.

End VercelFunction.

(* ================================================================== *)
(** * The partners function (api/partners.js) *)
(* ================================================================== *)

(** A stored partner: [{ name, id }]. *)
Record Partner : Type := mkPartner {
  partnerName : JSString;
  id : Z
}.

(** The module state: the array [partners] and the counter [partnerId]. *)
Record PartnerStore : Type := mkPartnerStore {
  partners : list Partner;
  partnerId : Z
}.

(** The state when the module is loaded, lines 3-4. *)
Definition initialStore : PartnerStore := mkPartnerStore [] 1.

(** [partnerId++] on a JavaScript number that holds an integer: exact up
    to [2^53]; there [2^53 + 1] is rounded back to [2^53] and the counter
    stays. *)
Definition nextId (n : Z) : Z :=
  if n <? 2 ^ 53 then n + 1 else n.

(** [getPartners], lines 7-9. *)
Definition getPartners (st : PartnerStore) : list Partner := partners st.

(** [createPartner], lines 11-16, for [insertPartner = { name }]: the
    partner made, and the state after the call. *)
Definition createPartner (st : PartnerStore) (name : JSString)
  : Partner * PartnerStore :=
  let partner := mkPartner name (partnerId st) in
  (partner, mkPartnerStore (partners st ++ [partner]) (nextId (partnerId st))).

(** A JSON value, as far as the handler tells values apart. *)
Inductive JSONValue : Type :=
| JUndefined
| JNull
| JBool (b : bool)
| JNumber (x : float)
| JString (s : JSString)
| JCompound.

(** [!v] is false: the value is truthy. *)
Definition truthy (v : JSONValue) : bool :=
  match v with
  | JUndefined | JNull => false
  | JBool b => b
  | JNumber x => negb (PrimFloat.is_zero x || PrimFloat.is_nan x)
  | JString s => hasLength s
  | JCompound => true
  end.

(** A request: its method and its body; [None] for a body that is
    undefined or null, else the value of its [name] property. *)
Record PartnersRequest : Type := mkPartnersRequest {
  method : string;
  bodyName : option JSONValue
}.

(** The JSON bodies of the answers. *)
Inductive PartnersBody : Type :=
| PartnerList (l : list Partner)
| OnePartner (p : Partner)
| PartnersError (message : string).

Record PartnersResponse : Type := mkPartnersResponse {
  partnersStatus : Z;
  partnersBody : PartnersBody
}.

(** The test of line 30 passes: [name] is truthy, is a string, and is
    not empty once trimmed.  Returns that string. *)
Definition acceptedName (name : JSONValue) : option JSString :=
  if negb (truthy name) then None
  else
    match name with
    | JString s => if hasLength (trim s) then Some s else None
    | _ => None
    end.

(** The [try] block of the handler, lines 20-38. *)
Definition partnersHandlerBody (st : PartnerStore) (req : PartnersRequest)
  : Exc (PartnersResponse * PartnerStore) :=
  if String.eqb (method req) "GET" then
    Return (mkPartnersResponse 200 (PartnerList (getPartners st)), st)
  else if String.eqb (method req) "POST" then
    match bodyName req with
    | None => Throw (ErrorObj "TypeError")
    | Some name =>
        match acceptedName name with
        | None =>
            Return (mkPartnersResponse 400
                      (PartnersError "Partner name is required"), st)
        | Some s =>
            let '(partner, st') := createPartner st (trim s) in
            Return (mkPartnersResponse 201 (OnePartner partner), st')
        end
    end
  else
    Return (mkPartnersResponse 405 (PartnersError "Method not allowed"), st).

(** The default export, lines 18-45: the [try] block and its [catch].
    Nothing is stored before a statement that can throw, so the state
    reaches the [catch] unchanged. *)
Definition partnersHandler (st : PartnerStore) (req : PartnersRequest)
  : PartnersResponse * PartnerStore :=
  match partnersHandlerBody st req with
  | Return answer => answer
  | Throw _ =>
      (mkPartnersResponse 500
         (PartnersError
            (if String.eqb (method req) "GET"
             then "Failed to retrieve partners"
             else "Failed to create partner")), st)
  end.

(** The state after a sequence of requests, and the answers given. *)
Fixpoint serve (st : PartnerStore) (reqs : list PartnersRequest)
  : list PartnersResponse * PartnerStore :=
  match reqs with
  | [] => ([], st)
  | req :: reqs' =>
      let '(answer, st') := partnersHandler st req in
      let '(answers, st'') := serve st' reqs' in
      (answer :: answers, st'')
  end.

(** A request that creates the partner [s]. *)
Definition postName (s : JSString) : PartnersRequest :=
  mkPartnersRequest "POST" (Some (JString s)).

(** The request that lists the partners. *)
Definition getRequest : PartnersRequest := mkPartnersRequest "GET" None.

(* ================================================================== *)
(** * Vocabulary of the further properties *)
(* ================================================================== *)

(** A text with Windows line ends: a carriage return before every line
    feed. *)
Fixpoint crlf (text : JSString) : JSString :=
  match text with
  | [] => []
  | c :: text' =>
      if (c =? 10)%N then 13%N :: 10%N :: crlf text' else c :: crlf text'
  end.

(** What the parser promises about an entry: a name that is not empty,
    trimmed and free of line terminators, and hours greater than zero. *)
Definition cleanEntry (e : ParsedPartner) : Prop :=
  name e <> [] /\ isTrimmed (name e) /\ forallb isDot (name e) = true /\
  isNaN (hours e) = false /\ (0 <? hours e)%float = true.

(** An environment variable that is undefined or empty. *)
Definition unsetOrEmpty (v : option string) : Prop :=
  v = None \/ v = Some EmptyString.

(** Every guard of lines 103-124 of the calculate route passes. *)
Definition passesValidation (schema : list PartnerHours -> bool)
  (req : RequestBody) : bool :=
  match partnerHours req with
  | Some (p :: l) =>
      negb (notPositiveFinite (totalAmount req)) &&
      negb (notPositiveFinite (totalHours req)) &&
      negb (notPositiveFinite (hourlyRate req)) &&
      schema (p :: l)
  | _ => false
  end.

(** The [map] callback returns for this partner: the payout is finite and
    not negative and the Bill Rounder returns. *)
Definition payoutComputable {Rounded Breakdown : Type}
  (allocate : float -> float -> float)
  (rounder : float -> Exc (Rounded * Breakdown))
  (rate : float) (p : PartnerHours) : bool :=
  isFinite (allocate (ph_hours p) rate) &&
  negb (allocate (ph_hours p) rate <? 0)%float &&
  match rounder (allocate (ph_hours p) rate) with
  | Return _ => true
  | Throw _ => false
  end.

(** The partner list of a request, empty when it is missing. *)
Definition partnersOf (req : RequestBody) : list PartnerHours :=
  match partnerHours req with
  | Some l => l
  | None => []
  end.

(** The partners function accepts the request: a POST whose [name] is a
    string that is not empty once trimmed. *)
Definition acceptedPost (req : PartnersRequest) : option JSString :=
  if String.eqb (method req) "POST" then
    match bodyName req with
    | Some (JString s) => if hasLength (trim s) then Some (trim s) else None
    | _ => None
    end
  else None.

(** The identifiers [1, 2, ..., n]. *)
Definition firstIds (n : nat) : list Z := map Z.of_nat (seq 1 n).

(** Three partners, the second and third with hours whose payout
    overflows binary64. *)
Definition scenarioSecondOverflow : RequestBody :=
  mkRequestBody
    (Some [mkPartnerHours "A" 10%float; mkPartnerHours "B" 0x1p+1000%float;
           mkPartnerHours "C" 0x1p+1000%float])
    100%float 40%float 0x1p+1000%float.

(** What holds of the store after any number of requests, as long as the
    counter is exact: the identifiers are [1, ..., n] in the order of
    creation, the counter is [n + 1], and every name is trimmed and not
    empty. *)
Definition storeInOrder (st : PartnerStore) : Prop :=
  partnerId st = Z.of_nat (List.length (partners st)) + 1 /\
  map id (partners st) = firstIds (List.length (partners st)) /\
  Forall (fun p => partnerName p <> [] /\ isTrimmed (partnerName p))
    (partners st).

(* ================================================================== *)
(** * Binary64 rounding and the sum of the shares *)
(* ================================================================== *)

(** What a shift record of [shr] stands for: the number [M] shifted right
    by the digits that make [P], with the position of the digits shifted
    out (round and sticky bits). *)
Definition shifted (M P : Z) (mrs : shr_record) : Prop :=
  exists rem,
    0 < P /\ 0 <= shr_m mrs /\
    M = P * shr_m mrs + rem /\ 0 <= rem < P /\
    (shr_r mrs = true <-> P <= 2 * rem) /\
    (shr_s mrs = true <-> rem <> 0 /\ 2 * rem <> P).

(** The unit roundoff of binary64, [2^-53]. *)
Definition unitRoundoff : Q := 1 # 9007199254740992.

(** The smallest positive normal binary64 number, [2^-1022]. *)
Definition minNormal : Q := (2 ^ (-1022))%Q.

(** The exact sum of the exact products [hours * rate]. *)
Definition exactShares (l : list PartnerHours) (rate : float) : Q :=
  fold_right (fun p acc => (exactValue (ph_hours p) * exactValue rate + acc)%Q)
    0%Q l.

(** The exact sum of the partner hours. *)
Definition exactHours (l : list PartnerHours) : Q :=
  fold_right (fun p acc => (exactValue (ph_hours p) + acc)%Q) 0%Q l.

(** The bound on the relative error of a binary64 sum of [k] binary64
    products: [4 k 2^-53]. *)
Definition sumError (k : nat) : Q :=
  (4 * inject_Z (Z.of_nat k) * unitRoundoff)%Q.

(** A partner whose hours are positive and finite and whose exact share
    [hours * rate] is in the normal range. *)
Definition normalShare (rate : float) (p : PartnerHours) : Prop :=
  (exists m e, Prim2SF (ph_hours p) = S754_finite false m e) /\
  (minNormal <= exactValue (ph_hours p) * exactValue rate)%Q.

(** A binary64 number that is positive: finite or the infinity. *)
Definition positiveOrInfinity (x : float) : Prop :=
  (exists m e, Prim2SF x = S754_finite false m e) \/
  Prim2SF x = S754_infinity false.

(** The hourly rate is supplied consistently with the total amount and
    the partner hours: [hourlyRate * sum(hours)] is [totalAmount] within
    the relative tolerance [1e-10], on the exact values of the numbers. *)
Definition consistentRate (req : RequestBody) : Prop :=
  (Qabs (exactValue (hourlyRate req) * exactHours (partnersOf req)
         - exactValue (totalAmount req))
   <= (1 # 10000000000) * exactValue (totalAmount req))%Q.

(** No share underflows: every exact product [hours * hourlyRate] is at
    least [2^-1022]. *)
Definition normalShares (req : RequestBody) : Prop :=
  Forall (fun p =>
            (minNormal <= exactValue (ph_hours p) * exactValue (hourlyRate req))%Q)
    (partnersOf req).

(** Section 8, second scenario: 100 for A (1 hour) and B (2 hours), at the
    rate [100 / 3]. *)
Definition scenarioThirds : RequestBody :=
  mkRequestBody
    (Some [mkPartnerHours "A" 1%float; mkPartnerHours "B" 2%float])
    100%float 3%float (100 / 3)%float.

(** Three times the smallest binary64 number to share by two partners
    with half an hour each, at that very rate: the values agree with each
    other, and each share, one and a half times the smallest number, is
    not a binary64 number. *)
Definition scenarioSubnormal : RequestBody :=
  mkRequestBody
    (Some [mkPartnerHours "A" 0.5%float; mkPartnerHours "B" 0.5%float])
    0x3p-1074%float 1%float 0x3p-1074%float.

(** The largest binary64 number to share by two partners with one hour
    each, at the rate [2^1023]: the values agree within [2^-53], and the
    two shares add up to [2^1024]. *)
Definition scenarioLargest : RequestBody :=
  mkRequestBody
    (Some [mkPartnerHours "A" 1%float; mkPartnerHours "B" 1%float])
    0x1.fffffffffffffp+1023%float 2%float 0x1p+1023%float.

(* ================================================================== *)
(** * Facts about binary64 comparisons *)
(* ================================================================== *)

Lemma Prim2SF_zero : Prim2SF 0%float = S754_zero false.
Proof. reflexivity. Qed.

(** [x <= 0] excludes [0 < x]. *)
Lemma leb_zero_not_pos (x : float) :
  (x <=? 0)%float = true -> (0 <? x)%float = false.
Proof.
  rewrite leb_spec, ltb_spec, Prim2SF_zero.
  destruct (Prim2SF x) as [[|] | [|] | | [|] m e]; cbn; congruence.
Qed.

(** [0 <= x] excludes [x < 0]. *)
Lemma nonneg_not_neg (x : float) :
  (0 <=? x)%float = true -> (x <? 0)%float = false.
Proof.
  rewrite leb_spec, ltb_spec, Prim2SF_zero.
  destruct (Prim2SF x) as [[|] | [|] | | [|] m e]; cbn; congruence.
Qed.

(* ================================================================== *)
(** * The calculate-distribution route: validation *)
(* ================================================================== *)

Section RouteFacts.

Context {Rounded Breakdown : Type}.
Variable allocate : float -> float -> float.
Variable rounder : float -> Exc (Rounded * Breakdown).
Variable schema : list PartnerHours -> bool.

Lemma route_missing (req : RequestBody) :
  partnerHours req = None \/ partnerHours req = Some [] ->
  calculateDistribution allocate rounder schema req = errorResponse 400 "Partner hours data is missing or empty".
Proof.
  unfold calculateDistribution.
  intros [E | E]; rewrite E; reflexivity.
Qed.

(** The answer of the route once the partner list is known not to be
    empty: the guards in source order. *)
Lemma route_nonempty (req : RequestBody) (p : PartnerHours)
  (l : list PartnerHours) :
  partnerHours req = Some (p :: l) ->
  calculateDistribution allocate rounder schema req =
  if notPositiveFinite (totalAmount req)
  then errorResponse 400 "Total amount must be a positive number"
  else if notPositiveFinite (totalHours req)
  then errorResponse 400 "Total hours must be a positive number"
  else if notPositiveFinite (hourlyRate req)
  then errorResponse 400 "Hourly rate must be a positive number"
  else if negb (schema (p :: l))
  then errorResponse 400 "Invalid partner hours data"
  else
    match mapExc (partnerPayoutOf allocate rounder (hourlyRate req)) (p :: l) with
    | Return partnerPayouts =>
        mkResponse 200 (distributionData req partnerPayouts)
    | Throw e => errorResponse 500 (catchMessage e)
    end.
Proof.
  unfold calculateDistribution, notPositiveFinite.
  intros E; rewrite E; reflexivity.
Qed.

(** A Distribution is answered only when every guard passed and the
    [map] returned. *)
Lemma route_distribution (req : RequestBody) :
  producesDistribution (calculateDistribution allocate rounder schema req) ->
  exists hoursList partnerPayouts,
    partnerHours req = Some hoursList /\
    hoursList <> [] /\
    notPositiveFinite (totalAmount req) = false /\
    notPositiveFinite (totalHours req) = false /\
    notPositiveFinite (hourlyRate req) = false /\
    schema hoursList = true /\
    mapExc (partnerPayoutOf allocate rounder (hourlyRate req)) hoursList
      = Return partnerPayouts /\
    calculateDistribution allocate rounder schema req = mkResponse 200 (distributionData req partnerPayouts).
Proof.
  unfold producesDistribution.
  destruct (partnerHours req) as [[| p l] |] eqn:E.
  - rewrite route_missing by auto. discriminate.
  - rewrite (route_nonempty req p l E).
    destruct (notPositiveFinite (totalAmount req)); [discriminate |].
    destruct (notPositiveFinite (totalHours req)); [discriminate |].
    destruct (notPositiveFinite (hourlyRate req)); [discriminate |].
    destruct (schema (p :: l)) eqn:Es; [| discriminate].
    cbn [negb].
    destruct (mapExc _ (p :: l)) as [pps | e] eqn:Em; [| discriminate].
    intros _. exists (p :: l), pps.
    repeat split; auto. discriminate.
  - rewrite route_missing by auto. discriminate.
Qed.

(** The entries of a successful [map], one per partner, in order. *)
Lemma mapExc_payouts (rate : float) (l : list PartnerHours)
  (pps : list (PartnerPayout Rounded Breakdown)) :
  mapExc (partnerPayoutOf allocate rounder rate) l = Return pps ->
  Forall2 (fun p pp =>
             pp_name pp = ph_name p /\
             pp_hours pp = ph_hours p /\
             pp_payout pp = allocate (ph_hours p) rate /\
             isFinite (pp_payout pp) = true /\
             (pp_payout pp <? 0)%float = false /\
             rounder (pp_payout pp) = Return (pp_rounded pp, pp_billBreakdown pp))
          l pps.
Proof.
  revert pps. induction l as [| p l IH]; intros pps; cbn.
  - intros [= <-]. constructor.
  - unfold partnerPayoutOf at 1.
    destruct (isFinite (allocate (ph_hours p) rate)) eqn:Ef; cbn;
      [| discriminate].
    destruct (allocate (ph_hours p) rate <? 0)%float eqn:En; cbn;
      [discriminate |].
    destruct (rounder (allocate (ph_hours p) rate)) as [[r b] | e] eqn:Er;
      cbn; [| discriminate].
    destruct (mapExc _ l) as [pps' | e] eqn:Em; cbn; [| discriminate].
    intros [= <-]. constructor; [| apply IH; reflexivity].
    cbn. rewrite Ef, En, Er. repeat split.
Qed.

(** The callback throws on a payout that is negative or not finite,
    whatever the Bill Rounder would do with it. *)
Lemma partnerPayoutOf_invalid (rate : float) (p : PartnerHours) :
  (allocate (ph_hours p) rate <? 0)%float = true \/
  isFinite (allocate (ph_hours p) rate) = false ->
  partnerPayoutOf allocate rounder rate p =
  Throw (ErrorObj ("Invalid payout calculation for partner " ++ ph_name p)).
Proof.
  unfold partnerPayoutOf.
  intros [H | H]; rewrite H; [rewrite orb_true_r | cbn]; reflexivity.
Qed.

(** A throwing callback makes the whole [map] throw. *)
Lemma mapExc_throws {A B : Type} (f : A -> Exc B) (l : list A) :
  Exists (fun a => exists e, f a = Throw e) l ->
  exists e, mapExc f l = Throw e.
Proof.
  induction 1 as [a l [e He] | a l _ [e He]]; cbn.
  - rewrite He. cbn. eauto.
  - destruct (f a); cbn; [rewrite He; cbn |]; eauto.
Qed.

End RouteFacts.

(* ================================================================== *)
(** * The calculate-distribution route: what it answers *)
(* ================================================================== *)

Lemma invalidNumber_guard (x : float) :
  invalidNumber x -> notPositiveFinite x = true.
Proof.
  unfold invalidNumber, notPositiveFinite.
  intros [H | H]; rewrite H; [| rewrite orb_true_r]; reflexivity.
Qed.

Lemma invalidNumber_hours (p : PartnerHours) :
  invalidNumber (ph_hours p) -> validPartnerHours p = false.
Proof.
  unfold invalidNumber, validPartnerHours. intros [H | H].
  - rewrite (leb_zero_not_pos _ H), andb_false_r. reflexivity.
  - rewrite H, andb_false_r. reflexivity.
Qed.

Lemma schema_rejects (l : list PartnerHours) (p : PartnerHours) :
  In p l -> invalidNumber (ph_hours p) -> partnerHoursSchema l = false.
Proof.
  intros Hin Hbad. unfold partnerHoursSchema.
  destruct (forallb validPartnerHours l) eqn:E; [| reflexivity].
  rewrite forallb_forall in E. specialize (E p Hin).
  rewrite (invalidNumber_hours p Hbad) in E. discriminate.
Qed.

(** C1 (amended): the Distribution answered by the calculate-distribution
    operation has exactly the fields [totalAmount], [totalHours],
    [hourlyRate] (copied from the request) and [partnerPayouts], in that
    order; the discrepancy [totalAmount - sum(rounded)] is not among them
    and is left to the caller to derive. *)
Theorem distribution_fields {Rounded Breakdown : Type}
  (allocate : float -> float -> float)
  (rounder : float -> Exc (Rounded * Breakdown))
  (schema : list PartnerHours -> bool) (req : RequestBody) :
  producesDistribution (calculateDistribution allocate rounder schema req) ->
  exists partnerPayouts,
    calculateDistribution allocate rounder schema req =
    mkResponse 200
      [ ("totalAmount"%string, VNum (totalAmount req));
        ("totalHours"%string, VNum (totalHours req));
        ("hourlyRate"%string, VNum (hourlyRate req));
        ("partnerPayouts"%string, VPayouts partnerPayouts) ].
Proof.
  intros H.
  destruct (route_distribution allocate rounder schema req H)
    as (l & pps & _ & _ & _ & _ & _ & _ & _ & E).
  exists pps. exact E.
Qed.

(** The first scenario answers a Distribution with those four fields. *)
Lemma distribution_fields_witness :
  exists partnerPayouts,
    calculate scenarioA =
    mkResponse 200
      [ ("totalAmount"%string, VNum 100%float);
        ("totalHours"%string, VNum 40%float);
        ("hourlyRate"%string, VNum 2.5%float);
        ("partnerPayouts"%string, VPayouts partnerPayouts) ].
Proof.
  apply (distribution_fields calculatePayout roundAndCalculateBills
           partnerHoursSchema scenarioA).
  vm_compute. reflexivity.
Defined.

(** C1 (as stated) fails on the first scenario of the specification: the
    route answers a Distribution, the discrepancy is 0, and no field of the
    answer holds it. *)
Lemma discrepancy_not_exposed :
  producesDistribution (calculate scenarioA) /\
  ~ exposesDiscrepancy scenarioA (calculate scenarioA).
Proof.
  split; [vm_compute; reflexivity |].
  intros (pps & key & x & Hp & Hk & Hx).
  assert (E : body (calculate scenarioA) =
              distributionData scenarioA
                [ mkPartnerPayout "A" 10%float 25%float 2500 [(2000, 1); (500, 1)];
                  mkPartnerPayout "B" 30%float 75%float 7500
                    [(2000, 3); (1000, 1); (500, 1)] ])
    by (vm_compute; reflexivity).
  rewrite E in Hp, Hk. clear E.
  cbn in Hp. injection Hp as <-.
  unfold distributionData in Hk. cbn [getField] in Hk.
  repeat match type of Hk with
         | (if ?b then _ else _) = _ => destruct b
         end;
    try discriminate; injection Hk as <-; vm_compute in Hx; discriminate.
Qed.

(** C2 (amended): the operation accepts any positive finite [hourlyRate],
    [totalAmount] and [totalHours] without comparing them.  For every
    accepted input the payouts are computed from the partner hours and the
    hourly rate the caller sent, and from nothing else: sending any other
    positive finite [totalAmount] and [totalHours] yields the same partner
    payouts.  So [sum(hours * hourlyRate)] equals [totalAmount] only when
    the caller sends consistent values. *)
Theorem payouts_ignore_totals {Rounded Breakdown : Type}
  (allocate : float -> float -> float)
  (rounder : float -> Exc (Rounded * Breakdown))
  (schema : list PartnerHours -> bool)
  (req : RequestBody) (amount hours : float) :
  producesDistribution (calculateDistribution allocate rounder schema req) ->
  notPositiveFinite amount = false ->
  notPositiveFinite hours = false ->
  exists l partnerPayouts,
    partnerHours req = Some l /\
    calculateDistribution allocate rounder schema req =
      mkResponse 200 (distributionData req partnerPayouts) /\
    calculateDistribution allocate rounder schema
      (withTotals req amount hours) =
      mkResponse 200 (distributionData (withTotals req amount hours)
                        partnerPayouts) /\
    Forall2 (fun p pp => pp_payout pp = allocate (ph_hours p) (hourlyRate req))
      l partnerPayouts.
Proof.
  intros H Ha Hh.
  destruct (route_distribution _ _ _ req H)
    as (l & pps & El & Hne & _ & _ & Hr & Hs & Hm & E).
  exists l, pps. repeat split; auto.
  - destruct l as [| p l]; [contradiction |].
    rewrite (route_nonempty _ _ _ (withTotals req amount hours) p l El).
    cbn [totalAmount totalHours hourlyRate withTotals].
    rewrite Ha, Hh, Hr, Hs. cbn [negb]. rewrite Hm. reflexivity.
  - apply mapExc_payouts in Hm.
    eapply Forall2_impl; [| exact Hm]. cbn. intros p pp Hp. apply Hp.
Qed.

(** The first scenario, sent again with the totals 7 and 3. *)
Lemma payouts_ignore_totals_witness :
  exists l partnerPayouts,
    partnerHours scenarioA = Some l /\
    calculate scenarioA =
      mkResponse 200 (distributionData scenarioA partnerPayouts) /\
    calculate (withTotals scenarioA 7%float 3%float) =
      mkResponse 200 (distributionData (withTotals scenarioA 7%float 3%float)
                        partnerPayouts) /\
    Forall2 (fun p pp =>
               pp_payout pp = calculatePayout (ph_hours p) (hourlyRate scenarioA))
      l partnerPayouts.
Proof.
  apply (payouts_ignore_totals calculatePayout roundAndCalculateBills
           partnerHoursSchema scenarioA 7%float 3%float);
    vm_compute; reflexivity.
Defined.

(** C2 (as stated) fails: the request [scenarioPartial] is accepted, all
    its numbers are positive and finite, its hourly rate is even
    [totalAmount / totalHours], and the sum of [hours * hourlyRate] over
    its partners is 25 while [totalAmount] is 100. *)
Lemma sum_differs_from_total :
  producesDistribution (calculate scenarioPartial) /\
  hourlyRate scenarioPartial =
    (totalAmount scenarioPartial / totalHours scenarioPartial)%float /\
  sumOfShares scenarioPartial = 25%float /\
  totalAmount scenarioPartial = 100%float /\
  ~ withinTolerance (sumOfShares scenarioPartial) (totalAmount scenarioPartial).
Proof.
  repeat split; try (vm_compute; reflexivity).
  unfold withinTolerance. vm_compute. intros H. apply H. reflexivity.
Qed.

(** C3: the operation fails with EmptyInput whenever the partner list is
    missing or empty, and with InvalidInput whenever [totalAmount <= 0],
    [totalHours <= 0], some partner has [hours <= 0], or one of these
    values is NaN or infinite; in every such case no Distribution is
    produced.  Where both defects meet, the empty list is the one
    reported, its check (line 103) being the first. *)
Theorem validation_failure {Rounded Breakdown : Type}
  (allocate : float -> float -> float)
  (rounder : float -> Exc (Rounded * Breakdown)) (req : RequestBody) :
  missingOrEmpty req \/ invalidNumbers req ->
  ~ producesDistribution
      (calculateDistribution allocate rounder partnerHoursSchema req) /\
  (missingOrEmpty req ->
   EmptyInput (calculateDistribution allocate rounder partnerHoursSchema req)) /\
  (~ missingOrEmpty req ->
   InvalidInput (calculateDistribution allocate rounder partnerHoursSchema req)).
Proof.
  intros H.
  destruct (partnerHours req) as [[| p l] |] eqn:E.
  1, 3: rewrite (route_missing allocate rounder partnerHoursSchema req)
          by (unfold missingOrEmpty; rewrite E; auto);
        repeat split;
        [ discriminate
        | intros Hn; exfalso; apply Hn; unfold missingOrEmpty; rewrite E; auto ].
  assert (Hne : ~ missingOrEmpty req)
    by (unfold missingOrEmpty; rewrite E; intros [? | ?]; discriminate).
  destruct H as [H | H]; [contradiction |].
  rewrite (route_nonempty allocate rounder partnerHoursSchema req p l E).
  unfold InvalidInput, producesDistribution.
  destruct (notPositiveFinite (totalAmount req)) eqn:Ea;
    [repeat split; [discriminate | contradiction | auto] |].
  destruct (notPositiveFinite (totalHours req)) eqn:Eh;
    [repeat split; [discriminate | contradiction | auto] |].
  destruct (notPositiveFinite (hourlyRate req)) eqn:Er;
    [repeat split; [discriminate | contradiction | auto] |].
  destruct (partnerHoursSchema (p :: l)) eqn:Es;
    [| repeat split; [discriminate | contradiction | auto 6] ].
  exfalso.
  destruct H as [H | [H | (l' & q & El & Hin & Hq)]].
  - apply invalidNumber_guard in H. congruence.
  - apply invalidNumber_guard in H. congruence.
  - rewrite E in El. injection El as <-.
    rewrite (schema_rejects _ q Hin Hq) in Es. discriminate.
Qed.

(** A partner without hours, and an empty list. *)
Lemma validation_failure_witness :
  (~ producesDistribution (calculate scenarioNoHours) /\
   (missingOrEmpty scenarioNoHours -> EmptyInput (calculate scenarioNoHours)) /\
   (~ missingOrEmpty scenarioNoHours ->
    InvalidInput (calculate scenarioNoHours))) /\
  InvalidInput (calculate scenarioNoHours) /\
  EmptyInput (calculate scenarioEmptyZero).
Proof.
  assert (H : invalidNumbers scenarioNoHours).
  { right. right.
    exists [mkPartnerHours "A" 10%float; mkPartnerHours "B" 0%float],
           (mkPartnerHours "B" 0%float).
    repeat split; [cbn; auto | left; reflexivity]. }
  pose proof (validation_failure calculatePayout roundAndCalculateBills
                scenarioNoHours (or_intror H)) as W.
  split; [exact W |]. split.
  - apply W. intros [E | E]; discriminate E.
  - apply (validation_failure calculatePayout roundAndCalculateBills
             scenarioEmptyZero).
    + left. right. reflexivity.
    + right. reflexivity.
Defined.

(** The order of the guards: an empty partner list sent with
    [totalAmount = 0] is answered as an empty list. *)
Example empty_list_checked_first :
  invalidNumber (totalAmount scenarioEmptyZero) /\
  calculate scenarioEmptyZero =
    errorResponse 400 "Partner hours data is missing or empty".
Proof.
  split; [left; reflexivity | reflexivity].
Qed.

(** The guard of lines 130-132: when the payout of some partner is
    negative, NaN or infinite, the callback throws the Error "Invalid
    payout calculation for partner <name>" without calling the Bill
    Rounder, no Distribution is produced, and a request that passed the
    validation is answered with status 500. *)
Theorem invalid_payout_failure {Rounded Breakdown : Type}
  (allocate : float -> float -> float)
  (rounder : float -> Exc (Rounded * Breakdown))
  (schema : list PartnerHours -> bool)
  (req : RequestBody) (l : list PartnerHours) (p : PartnerHours) :
  partnerHours req = Some l ->
  In p l ->
  invalidPayout (allocate (ph_hours p) (hourlyRate req)) ->
  partnerPayoutOf allocate rounder (hourlyRate req) p =
    Throw (ErrorObj ("Invalid payout calculation for partner " ++ ph_name p)) /\
  ~ producesDistribution (calculateDistribution allocate rounder schema req) /\
  (notPositiveFinite (totalAmount req) = false ->
   notPositiveFinite (totalHours req) = false ->
   notPositiveFinite (hourlyRate req) = false ->
   schema l = true ->
   exists message,
     calculateDistribution allocate rounder schema req =
     errorResponse 500 message).
Proof.
  intros El Hin Hbad.
  pose proof (partnerPayoutOf_invalid allocate rounder (hourlyRate req) p Hbad)
    as Hcb.
  assert (Hthrow : exists e,
            mapExc (partnerPayoutOf allocate rounder (hourlyRate req)) l
            = Throw e).
  { apply mapExc_throws. apply Exists_exists. exists p. split; eauto. }
  destruct Hthrow as [e He].
  split; [exact Hcb |]. split.
  - intros H.
    destruct (route_distribution allocate rounder schema req H)
      as (l' & pps & El' & _ & _ & _ & _ & _ & Hm & _).
    rewrite El in El'. injection El' as <-. congruence.
  - intros Ha Hh Hr Hs.
    destruct l as [| q l]; [contradiction |].
    rewrite (route_nonempty allocate rounder schema req q l El).
    rewrite Ha, Hh, Hr, Hs. cbn [negb]. rewrite He. eauto.
Qed.

(** A payout that overflows: [2^1000 * 2^1000] is infinite. *)
Lemma invalid_payout_failure_witness :
  partnerPayoutOf calculatePayout roundAndCalculateBills 0x1p+1000%float
    (mkPartnerHours "A" 0x1p+1000%float) =
    Throw (ErrorObj "Invalid payout calculation for partner A") /\
  calculate scenarioOverflow =
    errorResponse 500 "Invalid payout calculation for partner A".
Proof.
  destruct (invalid_payout_failure calculatePayout roundAndCalculateBills
              partnerHoursSchema scenarioOverflow
              [mkPartnerHours "A" 0x1p+1000%float]
              (mkPartnerHours "A" 0x1p+1000%float))
    as (Hcb & _ & _).
  - reflexivity.
  - left. reflexivity.
  - right. vm_compute. reflexivity.
  - split; [exact Hcb | vm_compute; reflexivity].
Defined.

(** C5: in every computed Distribution each partner's payout is exactly
    the binary64 product [hours * hourlyRate] of the hours and the hourly
    rate of the request, and it is that very number the Bill Rounder is
    given: nothing truncates or rounds it on the way.  The entries follow
    the partner list, with the names and hours copied. *)
Theorem payout_is_hours_times_rate (req : RequestBody) :
  producesDistribution (calculate req) ->
  exists l partnerPayouts,
    partnerHours req = Some l /\
    calculate req = mkResponse 200 (distributionData req partnerPayouts) /\
    Forall2 (fun p pp =>
               pp_name pp = ph_name p /\
               pp_hours pp = ph_hours p /\
               pp_payout pp = (pp_hours pp * hourlyRate req)%float /\
               roundAndCalculateBills (pp_hours pp * hourlyRate req)%float
               = Return (pp_rounded pp, pp_billBreakdown pp))
            l partnerPayouts.
Proof.
  intros H.
  destruct (route_distribution _ _ _ req H)
    as (l & pps & El & _ & _ & _ & _ & _ & Hm & E).
  exists l, pps. repeat split; auto.
  apply mapExc_payouts in Hm.
  eapply Forall2_impl; [| exact Hm]. cbn.
  intros p pp (Hn & Hh & Hp & _ & _ & Hb).
  rewrite Hh. unfold calculatePayout in Hp. rewrite <- Hp. auto.
Qed.

(** The payouts of the first scenario. *)
Lemma payout_is_hours_times_rate_witness :
  exists l partnerPayouts,
    partnerHours scenarioA = Some l /\
    calculate scenarioA =
      mkResponse 200 (distributionData scenarioA partnerPayouts) /\
    Forall2 (fun p pp =>
               pp_name pp = ph_name p /\
               pp_hours pp = ph_hours p /\
               pp_payout pp = (pp_hours pp * hourlyRate scenarioA)%float /\
               roundAndCalculateBills (pp_hours pp * hourlyRate scenarioA)%float
               = Return (pp_rounded pp, pp_billBreakdown pp))
            l partnerPayouts.
Proof.
  apply (payout_is_hours_times_rate scenarioA). vm_compute. reflexivity.
Defined.

(* ================================================================== *)
(** * Binary64 rounding: the error of a product and of a sum *)
(* ================================================================== *)

(** The number of binary digits of a positive number. *)
Lemma digits2_pos_bounds (p : positive) :
  2 ^ (Zpos (digits2_pos p) - 1) <= Zpos p < 2 ^ Zpos (digits2_pos p).
Proof.
  induction p as [p IH | p IH |]; cbn [digits2_pos]; [| | cbn; lia].
  - rewrite Pos2Z.inj_succ, (Pos2Z.inj_xI p).
    replace (Z.succ (Zpos (digits2_pos p)) - 1)
      with (Z.succ (Zpos (digits2_pos p) - 1)) by lia.
    rewrite !Z.pow_succ_r by lia.
    destruct IH as [IH1 IH2]. split; lia.
  - rewrite Pos2Z.inj_succ, (Pos2Z.inj_xO p).
    replace (Z.succ (Zpos (digits2_pos p)) - 1)
      with (Z.succ (Zpos (digits2_pos p) - 1)) by lia.
    rewrite !Z.pow_succ_r by lia.
    destruct IH as [IH1 IH2]. split; lia.
Qed.

Lemma digits2_pos_unique (p : positive) (d : Z) :
  2 ^ (d - 1) <= Zpos p < 2 ^ d -> Zpos (digits2_pos p) = d.
Proof.
  intros [Hlo Hhi]. pose proof (digits2_pos_bounds p) as [Hlo' Hhi'].
  assert (Hd : 0 < d).
  { destruct (Z_lt_le_dec 0 d) as [H | H]; [exact H | exfalso].
    assert (2 ^ d <= 1).
    { destruct (Z.eq_dec d 0) as [-> | Hn]; [cbn; lia |].
      rewrite Z.pow_neg_r by lia. lia. }
    lia. }
  destruct (Z_lt_le_dec (Zpos (digits2_pos p)) d) as [H | H].
  - exfalso.
    assert (2 ^ Zpos (digits2_pos p) <= 2 ^ (d - 1))
      by (apply Z.pow_le_mono_r; lia).
    lia.
  - destruct (Z_lt_le_dec d (Zpos (digits2_pos p))) as [H' | H']; [| lia].
    exfalso.
    assert (2 ^ d <= 2 ^ (Zpos (digits2_pos p) - 1))
      by (apply Z.pow_le_mono_r; lia).
    lia.
Qed.

Lemma shr_1_shifted (M P : Z) (mrs : shr_record) :
  shifted M P mrs -> shifted M (2 * P) (shr_1 mrs).
Proof.
  intros (rem & HP & Hm & HM & Hrem & Hr & Hs).
  destruct mrs as [m r s]. cbn [shr_m shr_r shr_s] in *.
  assert (Hrs : orb r s = true <-> rem <> 0).
  { rewrite orb_true_iff, Hr, Hs. lia. }
  unfold shr_1.
  destruct m as [| [p | p |] | p]; try lia.
  - exists rem. cbn [shr_m shr_r shr_s]. rewrite Hrs.
    repeat split; try lia; try discriminate.
  - exists (rem + P). cbn [shr_m shr_r shr_s]. rewrite Hrs.
    rewrite (Pos2Z.inj_xI p) in HM. repeat split; try lia.
  - exists rem. cbn [shr_m shr_r shr_s]. rewrite Hrs.
    rewrite (Pos2Z.inj_xO p) in HM. repeat split; try lia; try discriminate.
  - exists (rem + P). cbn [shr_m shr_r shr_s]. rewrite Hrs.
    repeat split; try lia.
Qed.

Lemma iter_shr_1_shifted (n : positive) (M P : Z) (mrs : shr_record) :
  shifted M P mrs -> shifted M (P * 2 ^ Zpos n) (iter_pos shr_1 n mrs).
Proof.
  revert P mrs.
  induction n as [n IH | n IH |]; intros P mrs H; cbn [iter_pos].
  - apply shr_1_shifted in H. apply IH in H. apply IH in H.
    replace (P * 2 ^ Zpos n~1) with (2 * P * 2 ^ Zpos n * 2 ^ Zpos n);
      [exact H |].
    rewrite (Pos2Z.inj_xI n).
    replace (2 * Zpos n + 1) with (Z.succ (Zpos n + Zpos n)) by lia.
    rewrite Z.pow_succ_r, Z.pow_add_r by lia. ring.
  - apply IH in H. apply IH in H.
    replace (P * 2 ^ Zpos n~0) with (P * 2 ^ Zpos n * 2 ^ Zpos n);
      [exact H |].
    rewrite (Pos2Z.inj_xO n).
    replace (2 * Zpos n) with (Zpos n + Zpos n) by lia.
    rewrite Z.pow_add_r by lia. ring.
  - apply shr_1_shifted in H.
    replace (P * 2 ^ 1) with (2 * P) by (change (2 ^ 1) with 2; lia).
    exact H.
Qed.

(** Rounding to nearest even moves the shifted number by half a unit at
    most. *)
Lemma round_nearest_even_shifted (M P : Z) (mrs : shr_record) :
  shifted M P mrs ->
  shr_m mrs <= round_nearest_even (shr_m mrs) (loc_of_shr_record mrs)
            <= shr_m mrs + 1 /\
  2 * Z.abs (round_nearest_even (shr_m mrs) (loc_of_shr_record mrs) * P - M)
  <= P.
Proof.
  intros (rem & HP & Hm & HM & Hrem & Hr & Hs).
  destruct mrs as [m [|] [|]]; cbn [shr_m shr_r shr_s] in *;
    cbn [loc_of_shr_record round_nearest_even].
  - assert (P <= 2 * rem) by (apply Hr; reflexivity).
    assert (2 * rem <> P) by (apply Hs; reflexivity). nia.
  - assert (P <= 2 * rem) by (apply Hr; reflexivity).
    assert (2 * rem = P).
    { destruct (Z.eq_dec (2 * rem) P) as [E | E]; [exact E |].
      assert (false = true) by (apply Hs; lia). discriminate. }
    destruct (Z.even m); nia.
  - assert (~ P <= 2 * rem) by (intros H; apply Hr in H; discriminate).
    nia.
  - assert (rem = 0).
    { destruct (Z.eq_dec rem 0) as [E | E]; [exact E |].
      assert (~ P <= 2 * rem) by (intros H; apply Hr in H; discriminate).
      assert (false = true) by (apply Hs; lia). discriminate. }
    nia.
Qed.

Lemma fexp_spec (x : Z) : fexp prec emax x = Z.max (x - 53) (-1074).
Proof. reflexivity. Qed.

Lemma shifted_start (M : Z) :
  0 <= M -> shifted M 1 (Build_shr_record M false false).
Proof.
  intros H. exists 0. cbn [shr_m shr_r shr_s].
  repeat split; try lia; try discriminate.
Qed.

(** A mantissa of 53 or 54 digits at an exponent not below [emin] is left
    alone or, when it is [2^53], halved. *)
Lemma shr_fexp_rounded (q : positive) (e : Z) :
  -1074 <= e ->
  2 ^ 52 <= Zpos q <= 2 ^ 53 ->
  exists m k,
    0 <= k /\
    shr_fexp prec emax (Zpos q) e loc_Exact =
      (Build_shr_record (Zpos m) false false, e + k) /\
    Zpos m * 2 ^ k = Zpos q.
Proof.
  intros He [Hlo Hhi]. unfold shr_fexp. cbn [Zdigits2 shr_record_of_loc].
  destruct (Z.eq_dec (Zpos q) (2 ^ 53)) as [E | E].
  - assert (Eq : q = 9007199254740992%positive) by (apply Pos2Z.inj; exact E).
    subst q. change (Zpos (digits2_pos 9007199254740992)) with 54.
    rewrite fexp_spec.
    replace (Z.max (54 + e - 53) (-1074) - e) with 1 by lia.
    exists 4503599627370496%positive, 1. cbn [shr iter_pos shr_1].
    repeat split; try lia.
  - rewrite (digits2_pos_unique q 53) by (change (2 ^ (53 - 1)) with (2 ^ 52); lia).
    rewrite fexp_spec.
    replace (Z.max (53 + e - 53) (-1074) - e) with 0 by lia.
    exists q, 0. cbn [shr]. rewrite Z.add_0_r.
    repeat split; try lia.
Qed.

(** Rounding an integer mantissa at an exponent: unless the result falls
    into the subnormal range with digits lost, the result is an infinity
    or a number within [2^-53] of the exact one, relatively. *)
Lemma binary_round_aux_error (s : bool) (m0 : positive) (e : Z) :
  fexp prec emax (Zpos (digits2_pos m0) + e) - e <= 0 \/
  fexp prec emax (Zpos (digits2_pos m0) + e) = Zpos (digits2_pos m0) + e - 53 ->
  binary_round_aux prec emax s (Zpos m0) e loc_Exact = S754_infinity s \/
  exists m k,
    0 <= k /\
    binary_round_aux prec emax s (Zpos m0) e loc_Exact = S754_finite s m (e + k) /\
    2 ^ 53 * Z.abs (Zpos m * 2 ^ k - Zpos m0) <= Zpos m0.
Proof.
  intros H.
  pose proof (digits2_pos_bounds m0) as [Hlo Hhi].
  set (d := Zpos (digits2_pos m0)) in *.
  destruct (Z_le_gt_dec (fexp prec emax (d + e) - e) 0) as [Hn | Hn].
  - assert (E : binary_round_aux prec emax s (Zpos m0) e loc_Exact =
                if e <=? emax - prec then S754_finite s m0 e
                else S754_infinity s).
    { unfold binary_round_aux, shr_fexp.
      cbn [Zdigits2 shr_record_of_loc]. fold d.
      destruct (fexp prec emax (d + e) - e) as [| n | n] eqn:En; [| lia |];
        cbn [shr shr_m shr_r shr_s loc_of_shr_record round_nearest_even
             Zdigits2 shr_record_of_loc];
        fold d; rewrite En; reflexivity. }
    rewrite E.
    destruct (e <=? emax - prec); [right | left; reflexivity].
    exists m0, 0. rewrite Z.add_0_r. repeat split; try lia.
  - assert (Hfe : fexp prec emax (d + e) = d + e - 53) by (destruct H; lia).
    destruct (fexp prec emax (d + e) - e) as [| n | n] eqn:En; try lia.
    assert (Hd : d = Zpos n + 53) by lia.
    assert (Hemin : -1074 <= e + Zpos n) by (rewrite fexp_spec in Hfe; lia).
    pose proof (iter_shr_1_shifted n (Zpos m0) 1 _
                  (shifted_start (Zpos m0) ltac:(lia))) as Hsh.
    rewrite Z.mul_1_l in Hsh.
    set (mrs := iter_pos shr_1 n _) in *.
    pose proof (round_nearest_even_shifted _ _ _ Hsh) as [Hr Herr].
    destruct Hsh as (rem & HP & Hm & HM & Hrem & _ & _).
    assert (E : binary_round_aux prec emax s (Zpos m0) e loc_Exact =
                let '(mrs'', e'') :=
                  shr_fexp prec emax
                    (round_nearest_even (shr_m mrs) (loc_of_shr_record mrs))
                    (e + Zpos n) loc_Exact in
                match shr_m mrs'' with
                | Z0 => S754_zero s
                | Zpos m =>
                    if e'' <=? emax - prec then S754_finite s m e''
                    else S754_infinity s
                | _ => S754_nan
                end).
    { unfold binary_round_aux. unfold shr_fexp at 1.
      cbn [Zdigits2 shr_record_of_loc]. fold d. rewrite En.
      cbn [shr]. reflexivity. }
    rewrite E. clear E.
    set (mr := round_nearest_even (shr_m mrs) (loc_of_shr_record mrs)) in *.
    set (P := 2 ^ Zpos n) in *.
    assert (HdP : 2 ^ d = 2 ^ 53 * P).
    { rewrite Hd, Z.pow_add_r by lia. unfold P. ring. }
    assert (HdP' : 2 ^ (d - 1) = 2 ^ 52 * P).
    { replace (d - 1) with (Zpos n + 52) by lia.
      rewrite Z.pow_add_r by lia. unfold P. ring. }
    rewrite HdP in Hhi. rewrite HdP' in Hlo.
    assert (Hm52 : 2 ^ 52 <= shr_m mrs < 2 ^ 53) by nia.
    destruct mr as [| q | q] eqn:Emr; try lia.
    destruct (shr_fexp_rounded q (e + Zpos n) Hemin ltac:(lia))
      as (m & k & Hk & -> & Hmk).
    cbn [shr_m].
    destruct (e + Zpos n + k <=? emax - prec); [right | left; reflexivity].
    exists m, (Zpos n + k). rewrite Z.add_assoc.
    repeat split; try lia.
    rewrite Z.pow_add_r by lia. fold P.
    replace (Zpos m * (P * 2 ^ k)) with (Zpos q * P) by (rewrite <- Hmk; ring).
    nia.
Qed.

(** A binary64 number that is finite: zero or a signed mantissa and
    exponent. *)
Lemma isFinite_Prim2SF (x : float) :
  isFinite x = true ->
  (exists s, Prim2SF x = S754_zero s) \/
  (exists s m e, Prim2SF x = S754_finite s m e).
Proof.
  unfold isFinite, is_finite, Prim2SF. intros H.
  apply negb_true_iff, orb_false_iff in H. destruct H as [-> ->].
  destruct (is_zero x); [left; eauto |].
  destruct (Z.frexp x) as [r ex].
  destruct (shr_fexp prec emax _ _ loc_Exact) as [mrs e'].
  destruct (shr_m mrs); [left | right | left]; eauto.
Qed.

Lemma positive_Prim2SF (x : float) :
  (0 <? x)%float = true -> isFinite x = true ->
  exists m e, Prim2SF x = S754_finite false m e.
Proof.
  intros Hpos Hfin. rewrite ltb_spec in Hpos.
  change (Prim2SF 0) with (S754_zero false) in Hpos.
  destruct (isFinite_Prim2SF x Hfin) as [[s E] | (s & m & e & E)];
    rewrite E in Hpos; [discriminate |].
  destruct s; [discriminate |]. eauto.
Qed.

(** The exponent of a binary64 number is at least [emin]. *)
Lemma Prim2SF_exponent (x : float) (s : bool) (m : positive) (e : Z) :
  Prim2SF x = S754_finite s m e -> -1074 <= e.
Proof.
  intros E. pose proof (Prim2SF_valid x) as H. rewrite E in H.
  unfold valid_binary, bounded, canonical_mantissa in H.
  apply andb_true_iff in H. destruct H as [H _].
  apply Z.eqb_eq in H. rewrite fexp_spec in H. lia.
Qed.

Lemma Qpower_2_pos (e : Z) : (0 < 2 ^ e)%Q.
Proof. apply Qpower_0_lt. reflexivity. Qed.

Lemma Qpower_2_shift (e k : Z) :
  (0 <= k)%Z -> (2 ^ (e + k) == inject_Z (2 ^ k) * 2 ^ e)%Q.
Proof.
  intros Hk. rewrite Qpower_plus by discriminate.
  rewrite Zpower_Qpower by exact Hk. apply Qmult_comm.
Qed.

(** From the integer bound on the mantissas to the relative error of the
    values. *)
Lemma rounded_value_error (m m0 : positive) (e k : Z) :
  (0 <= k)%Z ->
  (2 ^ 53 * Z.abs (Zpos m * 2 ^ k - Zpos m0) <= Zpos m0)%Z ->
  (Qabs (inject_Z (Zpos m) * 2 ^ (e + k) - inject_Z (Zpos m0) * 2 ^ e)
   <= unitRoundoff * (inject_Z (Zpos m0) * 2 ^ e))%Q.
Proof.
  intros Hk H.
  rewrite (Qpower_2_shift e k Hk).
  pose proof (Qpower_2_pos e) as Ht.
  set (t := (2 ^ e)%Q) in *.
  assert (H1 : (inject_Z (2 ^ 53) *
                (inject_Z (Zpos m) * inject_Z (2 ^ k) - inject_Z (Zpos m0))
                <= inject_Z (Zpos m0))%Q).
  { unfold Qminus.
    rewrite <- inject_Z_mult, <- inject_Z_opp, <- inject_Z_plus,
      <- inject_Z_mult.
    rewrite <- Zle_Qle. lia. }
  assert (H2 : (- inject_Z (Zpos m0) <= inject_Z (2 ^ 53) *
                (inject_Z (Zpos m) * inject_Z (2 ^ k) - inject_Z (Zpos m0)))%Q).
  { unfold Qminus.
    rewrite <- inject_Z_mult, <- !inject_Z_opp, <- inject_Z_plus,
      <- inject_Z_mult.
    rewrite <- Zle_Qle. lia. }
  change (inject_Z (2 ^ 53)) with 9007199254740992%Q in H1, H2.
  set (a := inject_Z (Zpos m)) in *. set (w := inject_Z (2 ^ k)) in *.
  set (b := inject_Z (Zpos m0)) in *.
  unfold unitRoundoff.
  apply Qabs_Qle_condition. split; nra.
Qed.

Lemma exactValue_finite (x : float) (m : positive) (e : Z) :
  Prim2SF x = S754_finite false m e ->
  exactValue x = (inject_Z (Zpos m) * 2 ^ e)%Q.
Proof. intros E. unfold exactValue. rewrite E. reflexivity. Qed.

Lemma product_value (mx my : positive) (ex ey : Z) :
  ((inject_Z (Zpos mx) * 2 ^ ex) * (inject_Z (Zpos my) * 2 ^ ey) ==
   inject_Z (Zpos (mx * my)) * 2 ^ (ex + ey))%Q.
Proof.
  rewrite Pos2Z.inj_mul, inject_Z_mult, Qpower_plus by discriminate. ring.
Qed.

(** A value of at least [2^-1022] has its digits above the subnormal
    range. *)
Lemma normal_range (m : positive) (e : Z) :
  (minNormal <= inject_Z (Zpos m) * 2 ^ e)%Q ->
  fexp prec emax (Zpos (digits2_pos m) + e) = Zpos (digits2_pos m) + e - 53.
Proof.
  intros H. pose proof (digits2_pos_bounds m) as [_ Hhi].
  set (d := Zpos (digits2_pos m)) in *.
  assert (Hlt : (2 ^ (-1022) < 2 ^ (d + e))%Q).
  { eapply Qle_lt_trans; [exact H |].
    rewrite Qpower_plus by discriminate.
    apply Qmult_lt_compat_r; [apply Qpower_2_pos |].
    change (2 ^ d)%Q with (inject_Z 2 ^ d)%Q.
    rewrite <- Zpower_Qpower by (unfold d; lia).
    rewrite <- Zlt_Qlt. exact Hhi. }
  apply Qpower_lt_compat_l_inv in Hlt; [| reflexivity].
  rewrite fexp_spec. lia.
Qed.

(** The binary64 product of two positive numbers whose exact product is
    not below [2^-1022]: an infinity, or the exact product within a
    relative error of [2^-53]. *)
Lemma mul_error (x y : float) (mx my : positive) (ex ey : Z) :
  Prim2SF x = S754_finite false mx ex ->
  Prim2SF y = S754_finite false my ey ->
  (minNormal <= exactValue x * exactValue y)%Q ->
  Prim2SF (x * y) = S754_infinity false \/
  exists m e,
    Prim2SF (x * y) = S754_finite false m e /\
    (Qabs (exactValue (x * y) - exactValue x * exactValue y)
     <= unitRoundoff * (exactValue x * exactValue y))%Q.
Proof.
  intros Hx Hy Hmin.
  rewrite (exactValue_finite x mx ex Hx), (exactValue_finite y my ey Hy)
    in Hmin |- *.
  rewrite product_value in Hmin.
  pose proof (normal_range _ _ Hmin) as Hfe.
  rewrite mul_spec, Hx, Hy. unfold SF64mul. cbn [SFmul xorb].
  destruct (binary_round_aux_error false (mx * my) (ex + ey) (or_intror Hfe))
    as [E | (m & k & Hk & E & Herr)]; [left; exact E | right].
  exists m, (ex + ey + k). split; [exact E |].
  unfold exactValue. rewrite mul_spec, Hx, Hy. unfold SF64mul.
  cbn [SFmul xorb]. rewrite E.
  rewrite product_value.
  apply rounded_value_error; assumption.
Qed.

Lemma Pos_iter_xO (m d : positive) :
  Zpos (Pos.iter xO m d) = Zpos m * 2 ^ Zpos d.
Proof.
  change (Pos.iter xO m d) with (shift_pos d m).
  rewrite shift_pos_correct.
  change (Z.pow_pos 2 d) with (2 ^ Zpos d). ring.
Qed.

(** Aligning a mantissa to a smaller exponent keeps its value. *)
Lemma shl_align_value (m : positive) (e e' : Z) :
  snd (shl_align m e e') = Z.min e e' /\
  Zpos (fst (shl_align m e e')) = Zpos m * 2 ^ (e - Z.min e e').
Proof.
  unfold shl_align. destruct (e' - e) as [| d | d] eqn:E; cbn [fst snd].
  - replace (Z.min e e') with e by lia. rewrite Z.sub_diag. split; lia.
  - replace (Z.min e e') with e by lia. rewrite Z.sub_diag. split; lia.
  - replace (Z.min e e') with e' by lia. split; [reflexivity |].
    rewrite Pos_iter_xO. replace (e - e') with (Zpos d) by lia. reflexivity.
Qed.

Lemma aligned_value (m : positive) (e e' : Z) :
  (inject_Z (Zpos (fst (shl_align m e e'))) * 2 ^ (Z.min e e') ==
   inject_Z (Zpos m) * 2 ^ e)%Q.
Proof.
  destruct (shl_align_value m e e') as [_ ->].
  rewrite inject_Z_mult.
  change (inject_Z (2 ^ (e - Z.min e e')))
    with (inject_Z (2 ^ (e - Z.min e e'))).
  rewrite Zpower_Qpower by lia. change (inject_Z 2) with 2%Q.
  rewrite <- Qmult_assoc, <- Qpower_plus by discriminate.
  replace (e - Z.min e e' + Z.min e e') with e by lia. reflexivity.
Qed.

Lemma aligned_digits (m : positive) (e e' : Z) :
  Zpos (digits2_pos (fst (shl_align m e e'))) + Z.min e e' =
  Zpos (digits2_pos m) + e.
Proof.
  destruct (shl_align_value m e e') as [_ Hv].
  pose proof (digits2_pos_bounds m) as [Hlo Hhi].
  set (d := Zpos (digits2_pos m)) in *.
  rewrite (digits2_pos_unique _ (d + (e - Z.min e e'))); [lia |].
  rewrite Hv.
  replace (d + (e - Z.min e e') - 1) with (d - 1 + (e - Z.min e e')) by lia.
  rewrite !Z.pow_add_r by (unfold d; lia).
  assert (0 < 2 ^ (e - Z.min e e')) by (apply Z.pow_pos_nonneg; lia).
  nia.
Qed.

(** Rounding a positive integer at an exponent not below [emin]
    ([binary_round]): an infinity, or the number within a relative error
    of [2^-53]. *)
Lemma binary_round_error (M : positive) (e : Z) :
  -1074 <= e ->
  binary_round prec emax false M e = S754_infinity false \/
  exists m e',
    binary_round prec emax false M e = S754_finite false m e' /\
    (Qabs (inject_Z (Zpos m) * 2 ^ e' - inject_Z (Zpos M) * 2 ^ e)
     <= unitRoundoff * (inject_Z (Zpos M) * 2 ^ e))%Q.
Proof.
  intros He. unfold binary_round.
  set (fe := fexp prec emax (Zpos (digits2_pos M) + e)).
  pose proof (shl_align_value M e fe) as [He' _].
  pose proof (aligned_value M e fe) as Hv.
  pose proof (aligned_digits M e fe) as Hd.
  destruct (shl_align M e fe) as [mz ez]. cbn [fst snd] in *. subst ez.
  assert (Hc : fexp prec emax (Zpos (digits2_pos mz) + Z.min e fe)
               - Z.min e fe <= 0 \/
               fexp prec emax (Zpos (digits2_pos mz) + Z.min e fe) =
               Zpos (digits2_pos mz) + Z.min e fe - 53).
  { rewrite Hd. fold fe. unfold fe. rewrite fexp_spec. lia. }
  destruct (binary_round_aux_error false mz (Z.min e fe) Hc)
    as [E | (m & k & Hk & E & Herr)]; [left; exact E | right].
  exists m, (Z.min e fe + k). split; [exact E |].
  rewrite <- Hv. apply rounded_value_error; assumption.
Qed.

(** The binary64 sum of two positive numbers: an infinity, or the exact
    sum within a relative error of [2^-53]. *)
Lemma add_error (x y : float) (mx my : positive) (ex ey : Z) :
  Prim2SF x = S754_finite false mx ex ->
  Prim2SF y = S754_finite false my ey ->
  Prim2SF (x + y) = S754_infinity false \/
  exists m e,
    Prim2SF (x + y) = S754_finite false m e /\
    (Qabs (exactValue (x + y) - (exactValue x + exactValue y))
     <= unitRoundoff * (exactValue x + exactValue y))%Q.
Proof.
  intros Hx Hy.
  pose proof (Prim2SF_exponent x _ _ _ Hx) as Hex.
  pose proof (Prim2SF_exponent y _ _ _ Hy) as Hey.
  rewrite (exactValue_finite x mx ex Hx), (exactValue_finite y my ey Hy).
  assert (E : Prim2SF (x + y) =
              binary_round prec emax false
                (fst (shl_align mx ex (Z.min ex ey)) +
                 fst (shl_align my ey (Z.min ex ey)))%positive
                (Z.min ex ey)).
  { rewrite add_spec, Hx, Hy. reflexivity. }
  assert (Hv : (inject_Z (Zpos (fst (shl_align mx ex (Z.min ex ey)) +
                                fst (shl_align my ey (Z.min ex ey))))
                * 2 ^ Z.min ex ey ==
                inject_Z (Zpos mx) * 2 ^ ex + inject_Z (Zpos my) * 2 ^ ey)%Q).
  { rewrite Pos2Z.inj_add, inject_Z_plus, Qmult_plus_distr_l.
    pose proof (aligned_value mx ex (Z.min ex ey)) as H1.
    pose proof (aligned_value my ey (Z.min ex ey)) as H2.
    replace (Z.min ex (Z.min ex ey)) with (Z.min ex ey) in H1 by lia.
    replace (Z.min ey (Z.min ex ey)) with (Z.min ex ey) in H2 by lia.
    rewrite H1, H2. reflexivity. }
  destruct (binary_round_error
              (fst (shl_align mx ex (Z.min ex ey)) +
               fst (shl_align my ey (Z.min ex ey)))
              (Z.min ex ey) ltac:(lia))
    as [E' | (m & e & E' & Herr)].
  - left. rewrite E. exact E'.
  - right. exists m, e. split; [rewrite E; exact E' |].
    unfold exactValue at 1. rewrite E, E'. rewrite <- Hv. exact Herr.
Qed.

Lemma sumError_succ (k : nat) :
  (sumError (S k) == sumError k + 4 * unitRoundoff)%Q.
Proof.
  unfold sumError. rewrite Nat2Z.inj_succ. unfold Z.succ.
  rewrite inject_Z_plus. ring.
Qed.

Lemma sumError_nonneg (k : nat) : (0 <= sumError k)%Q.
Proof.
  unfold sumError, unitRoundoff.
  assert (0 <= inject_Z (Z.of_nat k))%Q
    by (change 0%Q with (inject_Z 0); rewrite <- Zle_Qle; lia).
  lra.
Qed.

Lemma sumError_le (j k : nat) : (j <= k)%nat -> (sumError j <= sumError k)%Q.
Proof.
  intros H. unfold sumError, unitRoundoff.
  assert (inject_Z (Z.of_nat j) <= inject_Z (Z.of_nat k))%Q
    by (rewrite <- Zle_Qle; lia).
  lra.
Qed.

Lemma minNormal_pos : (0 < minNormal)%Q.
Proof. apply Qpower_2_pos. Qed.

Lemma exactValue_pos (x : float) (m : positive) (e : Z) :
  Prim2SF x = S754_finite false m e -> (0 < exactValue x)%Q.
Proof.
  intros E. rewrite (exactValue_finite x m e E).
  apply Qmult_lt_0_compat; [reflexivity | apply Qpower_2_pos].
Qed.

Lemma exactValue_zero (x : float) (s : bool) :
  Prim2SF x = S754_zero s -> exactValue x = 0%Q.
Proof. intros E. unfold exactValue. rewrite E. reflexivity. Qed.

Lemma not_finite_infinity (x : float) :
  isFinite x = true -> Prim2SF x <> S754_infinity false.
Proof.
  intros H E.
  destruct (isFinite_Prim2SF x H) as [[s E'] | (s & m & e & E')];
    congruence.
Qed.

Lemma share_positiveOrInfinity (rate : float) (mr : positive) (er : Z)
  (p : PartnerHours) :
  Prim2SF rate = S754_finite false mr er ->
  normalShare rate p -> positiveOrInfinity (ph_hours p * rate).
Proof.
  intros Hr [(m & e & Hh) Hmin].
  destruct (mul_error _ _ _ _ _ _ Hh Hr Hmin) as [E | (m' & e' & E & _)];
    [right; exact E | left; eauto].
Qed.

(** Once the running sum is infinite it stays so. *)
Lemma fold_infinity (rate : float) (l : list PartnerHours) (acc : float) :
  Forall (fun p => positiveOrInfinity (ph_hours p * rate)) l ->
  Prim2SF acc = S754_infinity false ->
  Prim2SF (fold_left (fun acc p => (acc + ph_hours p * rate)%float) l acc)
  = S754_infinity false.
Proof.
  intros H. revert acc.
  induction H as [| p l Hp _ IH]; intros acc Hacc; [exact Hacc |].
  cbn [fold_left]. apply IH.
  rewrite add_spec, Hacc.
  destruct Hp as [(m & e & ->) | ->]; reflexivity.
Qed.

(** One step of the sum: the relative error grows by [4 * 2^-53] at
    most. *)
Lemma sum_step_error (eps a A t X a' : Q) :
  (0 <= eps)%Q -> (eps <= 1)%Q -> (0 <= A)%Q -> (0 <= X)%Q ->
  (Qabs (a - A) <= eps * A)%Q ->
  (Qabs (t - X) <= unitRoundoff * X)%Q ->
  (Qabs (a' - (a + t)) <= unitRoundoff * (a + t))%Q ->
  (Qabs (a' - (A + X)) <= (eps + 4 * unitRoundoff) * (A + X))%Q.
Proof.
  unfold unitRoundoff. intros He He1 HA HX Ha Ht Ha'.
  apply Qabs_Qle_condition in Ha. apply Qabs_Qle_condition in Ht.
  apply Qabs_Qle_condition in Ha'.
  assert (0 <= eps * A)%Q by (apply Qmult_le_0_compat; assumption).
  assert (0 <= eps * X)%Q by (apply Qmult_le_0_compat; assumption).
  assert (eps * A <= A)%Q.
  { rewrite <- (Qmult_1_l A) at 2. apply Qmult_le_compat_r; assumption. }
  apply Qabs_Qle_condition. split; lra.
Qed.

(** The binary64 sum of the shares, started from a running sum that
    is within [sumError k] of an exact amount. *)
Lemma sum_error (rate : float) (mr : positive) (er : Z)
  (l : list PartnerHours) :
  Prim2SF rate = S754_finite false mr er ->
  Forall (normalShare rate) l ->
  forall (acc : float) (A : Q) (k : nat),
    (exists s, Prim2SF acc = S754_zero s) \/
    (exists m e, Prim2SF acc = S754_finite false m e) ->
    (0 <= A)%Q ->
    (Qabs (exactValue acc - A) <= sumError k * A)%Q ->
    (sumError (k + List.length l) <= 1)%Q ->
    isFinite (fold_left (fun acc p => (acc + ph_hours p * rate)%float) l acc)
      = true ->
    (Qabs (exactValue
             (fold_left (fun acc p => (acc + ph_hours p * rate)%float) l acc)
           - (A + exactShares l rate))
     <= sumError (k + List.length l) * (A + exactShares l rate))%Q.
Proof.
  intros Hr Hl.
  induction Hl as [| p l Hp Hl IH]; intros acc A k Hacc HA Herr Hk Hfin.
  - cbn [fold_left exactShares fold_right List.length] in *.
    rewrite Nat.add_0_r in *.
    apply Qabs_Qle_condition in Herr. apply Qabs_Qle_condition.
    split; lra.
  - cbn [fold_left List.length] in *. rewrite Nat.add_succ_r in *.
    assert (Hrest : Forall (fun p => positiveOrInfinity (ph_hours p * rate)) l).
    { eapply Forall_impl; [| exact Hl].
      intros q Hq. eapply share_positiveOrInfinity; eassumption. }
    assert (Hnot : Prim2SF (acc + ph_hours p * rate) <> S754_infinity false).
    { intros E. apply (not_finite_infinity _ Hfin).
      apply fold_infinity; assumption. }
    destruct Hp as [(mh & eh & Hh) Hmin].
    pose proof (exactValue_pos _ _ _ Hh) as Hhpos.
    pose proof (exactValue_pos _ _ _ Hr) as Hrpos.
    assert (HX : (0 <= exactValue (ph_hours p) * exactValue rate)%Q)
      by (apply Qmult_le_0_compat; apply Qlt_le_weak; assumption).
    destruct (mul_error _ _ _ _ _ _ Hh Hr Hmin)
      as [Et | (mt & et & Et & Hterr)].
    { exfalso. apply Hnot. rewrite add_spec, Et.
      destruct Hacc as [[s ->] | (m & e & ->)]; reflexivity. }
    assert (Hstep :
      (exists m e, Prim2SF (acc + ph_hours p * rate) = S754_finite false m e) /\
      (Qabs (exactValue (acc + ph_hours p * rate)
             - (exactValue acc + exactValue (ph_hours p * rate)))
       <= unitRoundoff * (exactValue acc + exactValue (ph_hours p * rate)))%Q).
    { destruct Hacc as [[s Ea] | (ma & ea & Ea)].
      - assert (E : Prim2SF (acc + ph_hours p * rate) =
                    S754_finite false mt et)
          by (rewrite add_spec, Ea, Et; reflexivity).
        split; [eauto |].
        rewrite (exactValue_zero acc s Ea).
        rewrite (exactValue_finite _ _ _ E), (exactValue_finite _ _ _ Et).
        pose proof (exactValue_pos _ _ _ Et) as Hp0.
        rewrite (exactValue_finite _ _ _ Et) in Hp0.
        unfold unitRoundoff.
        apply Qabs_Qle_condition. split; lra.
      - destruct (add_error _ _ _ _ _ _ Ea Et) as [E | (m & e & E & He)];
          [contradiction |].
        split; [eauto | exact He]. }
    destruct Hstep as [Hacc' Hadd].
    assert (Hk' : (sumError k <= 1)%Q).
    { eapply Qle_trans; [| exact Hk]. apply sumError_le. lia. }
    pose proof (sum_step_error _ _ _ _ _ _ (sumError_nonneg k) Hk' HA HX
                  Herr Hterr Hadd) as Hnew.
    rewrite <- sumError_succ in Hnew.
    assert (HA' : (0 <= A + exactValue (ph_hours p) * exactValue rate)%Q)
      by lra.
    specialize (IH (acc + ph_hours p * rate)%float
                  (A + exactValue (ph_hours p) * exactValue rate)%Q (S k)
                  (or_intror Hacc') HA' Hnew Hk Hfin).
    cbn [exactShares fold_right].
    change (fold_right
              (fun p acc => (exactValue (ph_hours p) * exactValue rate + acc)%Q)
              0%Q l) with (exactShares l rate).
    cbn [Nat.add] in IH.
    apply Qabs_Qle_condition in IH. apply Qabs_Qle_condition.
    split; lra.
Qed.

Lemma exactShares_hours (l : list PartnerHours) (rate : float) :
  (exactShares l rate == exactValue rate * exactHours l)%Q.
Proof.
  induction l as [| p l IH]; cbn [exactShares exactHours fold_right].
  - ring.
  - change (fold_right
              (fun p acc => (exactValue (ph_hours p) * exactValue rate + acc)%Q)
              0%Q l) with (exactShares l rate).
    change (fold_right (fun p acc => (exactValue (ph_hours p) + acc)%Q) 0%Q l)
      with (exactHours l).
    rewrite IH. ring.
Qed.

(** A number that passes the guard [x <= 0 || !isFinite(x)] is positive
    and finite. *)
Lemma guard_Prim2SF (x : float) :
  notPositiveFinite x = false ->
  exists m e, Prim2SF x = S754_finite false m e.
Proof.
  unfold notPositiveFinite. intros H.
  apply orb_false_iff in H. destruct H as [Hle Hfin].
  apply negb_false_iff in Hfin.
  rewrite leb_spec, Prim2SF_zero in Hle.
  destruct (isFinite_Prim2SF x Hfin) as [[s E] | (s & m & e & E)];
    rewrite E in Hle; [destruct s; discriminate |].
  destruct s; [discriminate |]. rewrite E. eauto.
Qed.

(** The hours of an entry the schema accepts are positive and finite. *)
Lemma schema_Prim2SF (l : list PartnerHours) :
  partnerHoursSchema l = true ->
  Forall (fun p => exists m e, Prim2SF (ph_hours p) = S754_finite false m e) l.
Proof.
  unfold partnerHoursSchema. rewrite forallb_forall, Forall_forall.
  intros H p Hin. specialize (H p Hin). unfold validPartnerHours in H.
  apply andb_true_iff in H. destruct H as [H Hfin].
  apply andb_true_iff in H. destruct H as [_ Hpos].
  apply positive_Prim2SF; assumption.
Qed.

Lemma exactShares_nonneg (rate : float) (mr : positive) (er : Z)
  (l : list PartnerHours) :
  Prim2SF rate = S754_finite false mr er ->
  Forall (normalShare rate) l -> (0 <= exactShares l rate)%Q.
Proof.
  intros Hr H. induction H as [| p l [(m & e & Hh) _] _ IH];
    cbn [exactShares fold_right]; [apply Qle_refl |].
  pose proof (exactValue_pos _ _ _ Hh). pose proof (exactValue_pos _ _ _ Hr).
  assert (0 <= exactValue (ph_hours p) * exactValue rate)%Q
    by (apply Qmult_le_0_compat; apply Qlt_le_weak; assumption).
  unfold exactShares in IH. lra.
Qed.

(** C2 (amended): for every accepted input whose hourly rate is supplied
    consistently with the total amount and the partner hours
    ([consistentRate]), the sum of [hours * hourlyRate] over the partners,
    computed in binary64 as JavaScript does, equals [totalAmount] within
    the relative tolerance [1e-9], provided binary64 itself does not get
    in the way: at most 1,000,000 partners, no share below [2^-1022]
    (underflow) and a finite sum (overflow). *)
Theorem consistent_shares_add_up {Rounded Breakdown : Type}
  (allocate : float -> float -> float)
  (rounder : float -> Exc (Rounded * Breakdown)) (req : RequestBody) :
  producesDistribution
    (calculateDistribution allocate rounder partnerHoursSchema req) ->
  consistentRate req ->
  Z.of_nat (List.length (partnersOf req)) <= 1000000 ->
  normalShares req ->
  isFinite (sumOfShares req) = true ->
  withinTolerance (sumOfShares req) (totalAmount req).
Proof.
  intros Hacc Hcons Hlen Hnormal Hfin.
  destruct (route_distribution _ _ _ req Hacc)
    as (l & pps & El & _ & Ha & _ & Hr & Hs & _ & _).
  unfold consistentRate, normalShares, partnersOf, sumOfShares in *.
  rewrite El in *.
  destruct (guard_Prim2SF _ Hr) as (mr & er & Er).
  destruct (guard_Prim2SF _ Ha) as (ma & ea & Ea).
  pose proof (exactValue_pos _ _ _ Ea) as HT.
  assert (Hl : Forall (normalShare (hourlyRate req)) l).
  { pose proof (schema_Prim2SF l Hs) as Hh.
    rewrite Forall_forall in *. intros p Hin. split; auto. }
  assert (Heps : (sumError (0 + List.length l) <= 1 # 2000000000)%Q).
  { unfold sumError, unitRoundoff. cbn [Nat.add].
    assert (inject_Z (Z.of_nat (List.length l)) <= inject_Z 1000000)%Q
      by (rewrite <- Zle_Qle; exact Hlen).
    change (inject_Z 1000000) with 1000000%Q in *. lra. }
  assert (Hk1 : (sumError (0 + List.length l) <= 1)%Q) by lra.
  assert (H0 : (Qabs (exactValue 0 - 0) <= sumError 0 * 0)%Q)
    by (vm_compute; discriminate).
  pose proof (sum_error (hourlyRate req) mr er l Er Hl 0%float 0%Q 0%nat
                (or_introl (ex_intro _ false eq_refl)) (Qle_refl 0) H0 Hk1 Hfin)
    as Hsum.
  unfold sumHoursTimesRate, withinTolerance.
  set (S := exactValue
              (fold_left (fun acc p => (acc + ph_hours p * hourlyRate req)%float)
                 l 0%float)) in *.
  pose proof (exactShares_nonneg _ _ _ l Er Hl) as Hpos.
  rewrite <- exactShares_hours in Hcons.
  set (E := exactShares l (hourlyRate req)) in *.
  set (T := exactValue (totalAmount req)) in *.
  set (eps := sumError (0 + List.length l)) in *.
  assert (Heps0 : (0 <= eps)%Q) by apply sumError_nonneg.
  assert (HeE : (eps * E <= (1 # 2000000000) * E)%Q)
    by (apply Qmult_le_compat_r; assumption).
  assert (HeE0 : (0 <= eps * E)%Q) by (apply Qmult_le_0_compat; assumption).
  rewrite (Qabs_pos T) by (apply Qlt_le_weak; exact HT).
  apply Qabs_Qle_condition in Hsum. apply Qabs_Qle_condition in Hcons.
  apply Qabs_Qle_condition. split; lra.
Qed.

(** The two scenarios of section 8: 100 over 10 and 30 hours at the rate
    2.5, and 100 over 1 and 2 hours at the rate [100 / 3]. *)
Lemma consistent_shares_add_up_witness :
  withinTolerance (sumOfShares scenarioA) (totalAmount scenarioA) /\
  withinTolerance (sumOfShares scenarioThirds) (totalAmount scenarioThirds).
Proof.
  split.
  - apply (consistent_shares_add_up calculatePayout roundAndCalculateBills
             scenarioA).
    + vm_compute. reflexivity.
    + vm_compute. discriminate.
    + vm_compute. discriminate.
    + repeat constructor; vm_compute; discriminate.
    + vm_compute. reflexivity.
  - apply (consistent_shares_add_up calculatePayout roundAndCalculateBills
             scenarioThirds).
    + vm_compute. reflexivity.
    + vm_compute. discriminate.
    + vm_compute. discriminate.
    + repeat constructor; vm_compute; discriminate.
    + vm_compute. reflexivity.
Defined.

(** Why the shares must not underflow: [scenarioSubnormal] is accepted
    and its rate is consistent, yet each share of one and a half times
    the smallest binary64 number is rounded to twice that number, and the
    sum is 4/3 of the total amount. *)
Example subnormal_shares_differ :
  producesDistribution (calculate scenarioSubnormal) /\
  consistentRate scenarioSubnormal /\
  isFinite (sumOfShares scenarioSubnormal) = true /\
  ~ normalShares scenarioSubnormal /\
  ~ withinTolerance (sumOfShares scenarioSubnormal)
      (totalAmount scenarioSubnormal).
Proof.
  split; [vm_compute; reflexivity |].
  split; [vm_compute; discriminate |].
  split; [vm_compute; reflexivity |].
  split.
  - intros H. inversion H as [| p l Hp _]. subst.
    vm_compute in Hp. apply Hp. reflexivity.
  - unfold withinTolerance. vm_compute. intros H. apply H. reflexivity.
Qed.

(** Why the sum must be finite: [scenarioLargest] is accepted, its rate
    is consistent and no share underflows, yet the binary64 sum of the two
    shares is infinite. *)
Example overflowing_sum_differs :
  producesDistribution (calculate scenarioLargest) /\
  consistentRate scenarioLargest /\
  normalShares scenarioLargest /\
  isFinite (sumOfShares scenarioLargest) = false /\
  ~ withinTolerance (sumOfShares scenarioLargest)
      (totalAmount scenarioLargest).
Proof.
  split; [vm_compute; reflexivity |].
  split; [vm_compute; discriminate |].
  split; [repeat constructor; vm_compute; discriminate |].
  split; [vm_compute; reflexivity |].
  unfold withinTolerance. vm_compute. intros H. apply H. reflexivity.
Qed.

(* ================================================================== *)
(** * The Bill Rounder *)
(* ================================================================== *)

(** The greedy walk keeps the amount: what the breakdown holds plus what
    remains is the amount walked; nothing negative appears, and what
    remains is less than every denomination walked. *)
Lemma decompose_spec (ds : list Z) :
  Forall (fun d => 0 < d) ds ->
  forall remaining, 0 <= remaining ->
    reconstruct (snd (decompose remaining ds)) + fst (decompose remaining ds)
      = remaining /\
    0 <= fst (decompose remaining ds) <= remaining /\
    Forall (fun d => fst (decompose remaining ds) < d) ds /\
    Forall (fun dc => 0 < snd dc) (snd (decompose remaining ds)).
Proof.
  induction 1 as [| d ds Hd Hds IH]; intros remaining Hr; cbn [decompose].
  - cbn. repeat split; auto; lia.
  - destruct (remaining =? 0) eqn:E0.
    + apply Z.eqb_eq in E0. subst remaining. cbn.
      repeat split; auto; try lia.
      all: constructor; [lia |].
      all: eapply Forall_impl; [| exact Hds]; cbn; intros; lia.
    + pose proof (Z.div_pos remaining d Hr Hd) as Hq.
      pose proof (Z.mul_div_le remaining d Hd) as Hle.
      pose proof (Z.mod_pos_bound remaining d Hd) as Hmod.
      pose proof (Z.div_mod remaining d ltac:(lia)) as Hdm.
      assert (Hrem : remaining - remaining / d * d = remaining mod d) by lia.
      destruct (IH (remaining - remaining / d * d) ltac:(lia))
        as (Hsum & Hfin & Hlt & Hcnt).
      destruct (decompose (remaining - remaining / d * d) ds)
        as [final rest] eqn:Ed.
      cbn [fst snd] in *.
      repeat split; try lia.
      * destruct (remaining / d =? 0) eqn:Eq.
        -- apply Z.eqb_eq in Eq. lia.
        -- cbn [reconstruct]. lia.
      * constructor; [lia | exact Hlt].
      * destruct (remaining / d =? 0) eqn:Eq; [exact Hcnt |].
        apply Z.eqb_neq in Eq. constructor; [cbn; lia | exact Hcnt].
Qed.

Lemma denominations_positive : Forall (fun d => 0 < d) denominations.
Proof. repeat constructor. Qed.

(** With the cent among the denominations nothing remains. *)
Lemma decompose_denominations (cents : Z) :
  0 <= cents ->
  decompose cents denominations =
    (0, snd (decompose cents denominations)) /\
  reconstruct (snd (decompose cents denominations)) = cents /\
  Forall (fun dc => 0 < snd dc) (snd (decompose cents denominations)).
Proof.
  intros H.
  destruct (decompose_spec denominations denominations_positive cents H)
    as (Hsum & Hfin & Hlt & Hcnt).
  assert (Hone : fst (decompose cents denominations) < 1).
  { rewrite Forall_forall in Hlt. apply Hlt. cbn. tauto. }
  assert (Hz : fst (decompose cents denominations) = 0) by lia.
  repeat split; auto; [| lia].
  destruct (decompose cents denominations) as [final rest].
  cbn in *. subst final. reflexivity.
Qed.

(** A payout that is not below zero stands for a non-negative amount. *)
Lemma exactValue_nonneg (x : float) :
  (x <? 0)%float = false -> (0 <= exactValue x)%Q.
Proof.
  rewrite ltb_spec, Prim2SF_zero. unfold exactValue.
  destruct (Prim2SF x) as [s | s | | [|] m e]; cbn [SFltb SFcompare];
    try (intros _; apply Qle_refl); [discriminate |].
  intros _. apply Qmult_le_0_compat; [discriminate |].
  apply Qpower_0_le. discriminate.
Qed.

Lemma roundToCents_nonneg (v : Q) : (0 <= v)%Q -> 0 <= roundToCents v.
Proof.
  intros H. unfold roundToCents.
  change 0 with (Qfloor 0). apply Qfloor_resp_le. lra.
Qed.

(** Rounding to the cent moves an amount by at most half a cent. *)
Lemma roundToCents_error (v : Q) :
  (Qabs (100 * v - inject_Z (roundToCents v)) <= 1 # 2)%Q.
Proof.
  unfold roundToCents.
  pose proof (Qfloor_le (100 * v + (1 # 2))) as Hlo.
  pose proof (Qlt_floor (100 * v + (1 # 2))) as Hhi.
  rewrite inject_Z_plus in Hhi. change (inject_Z 1) with 1%Q in Hhi.
  apply Qabs_Qle_condition. split; lra.
Qed.

(** What the Bill Rounder returns. *)
Lemma roundAndCalculateBills_returns (payout : float) (rounded : Z)
  (billBreakdown : BillBreakdown) :
  roundAndCalculateBills payout = Return (rounded, billBreakdown) ->
  (payout <? 0)%float = false /\
  isFinite payout = true /\
  rounded = roundToCents (exactValue payout) /\
  billBreakdown = snd (decompose rounded denominations).
Proof.
  unfold roundAndCalculateBills.
  destruct (payout <? 0)%float; [discriminate |].
  destruct (isFinite payout); cbn [negb]; [| discriminate].
  intros [= <- <-]. auto.
Qed.

(** NaN compares false with everything and is not finite. *)
Lemma nan_not_negative (x : float) :
  isNaN x = true -> (x <? 0)%float = false /\ isFinite x = false.
Proof.
  unfold isNaN, isFinite, is_finite. intros H. split.
  - rewrite ltb_spec. unfold Prim2SF. rewrite H. reflexivity.
  - rewrite H. reflexivity.
Qed.

(** C4: the Bill Rounder fails with NegativePayout for every negative
    payout and with NonFiniteInput for every NaN or infinite payout; it
    returns no result in either case.  The test for a negative payout
    comes first (section 4.2, step 4), so that negative infinity, which
    is both, fails with NegativePayout; NaN and positive infinity are
    not negative and fail with NonFiniteInput. *)
Theorem rounder_failure (payout : float) :
  invalidPayout payout ->
  (forall r, roundAndCalculateBills payout <> Return r) /\
  ((payout <? 0)%float = true ->
   roundAndCalculateBills payout = Throw (ErrorObj "NegativePayout")) /\
  ((payout <? 0)%float = false ->
   roundAndCalculateBills payout = Throw (ErrorObj "NonFiniteInput")) /\
  (isNaN payout = true \/ payout = infinity ->
   roundAndCalculateBills payout = Throw (ErrorObj "NonFiniteInput")).
Proof.
  intros H. unfold roundAndCalculateBills.
  assert (Hnan : isNaN payout = true \/ payout = infinity ->
                 (payout <? 0)%float = false /\ isFinite payout = false).
  { intros [Hn | ->]; [apply nan_not_negative, Hn | split; reflexivity]. }
  destruct (payout <? 0)%float eqn:Eneg.
  - split; [intros r; discriminate |].
    split; [reflexivity |]. split; [discriminate |].
    intros Hn. destruct (Hnan Hn) as [Hc _]. discriminate Hc.
  - destruct H as [H | H]; [congruence |].
    rewrite H. cbn [negb].
    split; [intros r; discriminate |].
    split; [discriminate |]. split; reflexivity.
Qed.

(** The four kinds of refused payout: -1, negative infinity, NaN and
    positive infinity. *)
Lemma rounder_failure_witness :
  roundAndCalculateBills (-1)%float = Throw (ErrorObj "NegativePayout") /\
  roundAndCalculateBills neg_infinity = Throw (ErrorObj "NegativePayout") /\
  roundAndCalculateBills nan = Throw (ErrorObj "NonFiniteInput") /\
  roundAndCalculateBills infinity = Throw (ErrorObj "NonFiniteInput").
Proof.
  split; [| split; [| split]].
  - exact (proj1 (proj2 (rounder_failure (-1)%float (or_introl eq_refl)))
             eq_refl).
  - exact (proj1 (proj2 (rounder_failure neg_infinity (or_introl eq_refl)))
             eq_refl).
  - exact (proj2 (proj2 (proj2 (rounder_failure nan (or_intror eq_refl))))
             (or_introl eq_refl)).
  - exact (proj2 (proj2 (proj2 (rounder_failure infinity (or_intror eq_refl))))
             (or_intror eq_refl)).
Defined.

(** C6: for every result of the Bill Rounder, the sum of
    [denomination * count] over [billBreakdown] is exactly [rounded]. *)
Theorem breakdown_reconstructs_rounded (payout : float) (rounded : Z)
  (billBreakdown : BillBreakdown) :
  roundAndCalculateBills payout = Return (rounded, billBreakdown) ->
  reconstruct billBreakdown = rounded.
Proof.
  intros H.
  apply roundAndCalculateBills_returns in H.
  destruct H as (Hneg & _ & Hr & ->).
  apply decompose_denominations.
  subst rounded. apply roundToCents_nonneg, exactValue_nonneg, Hneg.
Qed.

(** The breakdown of 75.00. *)
Lemma breakdown_reconstructs_rounded_witness :
  reconstruct [(2000, 3); (1000, 1); (500, 1)] = 7500.
Proof.
  apply (breakdown_reconstructs_rounded 75%float).
  vm_compute. reflexivity.
Defined.

(** C7: for every (finite) payout [p >= 0] the Bill Rounder returns; its
    greedy walk over the denominations, largest first, ends with
    [remaining] equal to zero, and every count of the breakdown is a
    non-negative integer. *)
Theorem rounder_terminates (payout : float) :
  (0 <=? payout)%float = true ->
  isFinite payout = true ->
  exists rounded billBreakdown,
    roundAndCalculateBills payout = Return (rounded, billBreakdown) /\
    decompose rounded denominations = (0, billBreakdown) /\
    Forall (fun dc => 0 <= snd dc) billBreakdown.
Proof.
  intros Hp Hf.
  pose proof (nonneg_not_neg payout Hp) as Hneg.
  exists (roundToCents (exactValue payout)),
         (snd (decompose (roundToCents (exactValue payout)) denominations)).
  unfold roundAndCalculateBills. rewrite Hneg, Hf. cbn [negb].
  destruct (decompose_denominations (roundToCents (exactValue payout)))
    as (Hd & _ & Hc).
  { apply roundToCents_nonneg, exactValue_nonneg, Hneg. }
  repeat split; auto.
  eapply Forall_impl; [| exact Hc]. cbn. intros; lia.
Qed.

(** The payout 33.33 (the binary64 number nearest to it). *)
Lemma rounder_terminates_witness :
  exists rounded billBreakdown,
    roundAndCalculateBills 0x1.0aa3d70a3d70ap+5%float
      = Return (rounded, billBreakdown) /\
    decompose rounded denominations = (0, billBreakdown) /\
    Forall (fun dc => 0 <= snd dc) billBreakdown.
Proof.
  apply (rounder_terminates 0x1.0aa3d70a3d70ap+5%float);
    vm_compute; reflexivity.
Defined.

(** The sum of the rounded amounts stays within half a cent per partner of
    the exact sum of the payouts. *)
Lemma rounding_error_sum (l : list (PartnerPayout Z BillBreakdown)) :
  Forall (fun pp => pp_rounded pp = roundToCents (exactValue (pp_payout pp))) l ->
  (Qabs (exactSumCents l - inject_Z (sumRounded l))
   <= inject_Z (Z.of_nat (List.length l)) * (1 # 2))%Q.
Proof.
  induction 1 as [| pp l Hpp _ IH].
  - cbn. discriminate.
  - cbn [exactSumCents sumRounded fold_right List.length].
    fold (exactSumCents l). fold (sumRounded l).
    rewrite Nat2Z.inj_succ. unfold Z.succ.
    rewrite !inject_Z_plus. change (inject_Z 1) with 1%Q.
    pose proof (roundToCents_error (exactValue (pp_payout pp))) as Hone.
    rewrite <- Hpp in Hone.
    apply Qabs_Qle_condition in Hone. apply Qabs_Qle_condition in IH.
    apply Qabs_Qle_condition. split; lra.
Qed.

(** C8 (amended): in every computed Distribution the sum of the rounded
    amounts differs from the exact sum of the unrounded payouts, not from
    [totalAmount], by at most [numPartners * smallestDenomination / 2];
    the route does not compare that sum with [totalAmount] and surfaces no
    residual. *)
Theorem rounding_drift_bounded (req : RequestBody) :
  producesDistribution (calculate req) ->
  exists partnerPayouts,
    calculate req = mkResponse 200 (distributionData req partnerPayouts) /\
    (Qabs (exactSumCents partnerPayouts - inject_Z (sumRounded partnerPayouts))
     <= inject_Z (Z.of_nat (List.length partnerPayouts))
        * inject_Z smallestDenomination / 2)%Q.
Proof.
  intros H.
  destruct (route_distribution _ _ _ req H)
    as (l & pps & _ & _ & _ & _ & _ & _ & Hm & E).
  exists pps. split; [exact E |].
  assert (Hr : Forall (fun pp =>
                 pp_rounded pp = roundToCents (exactValue (pp_payout pp))) pps).
  { apply mapExc_payouts in Hm. clear E.
    induction Hm as [| p pp l pps (_ & _ & _ & _ & _ & Hb) _ IH];
      constructor; auto.
    apply roundAndCalculateBills_returns in Hb. apply Hb. }
  apply rounding_error_sum in Hr.
  unfold smallestDenomination. change (inject_Z 1) with 1%Q.
  unfold Qdiv. change (/ 2)%Q with (1 # 2)%Q.
  eapply Qle_trans; [exact Hr |].
  rewrite Qmult_1_r. apply Qle_refl.
Qed.

(** The first scenario: no drift at all. *)
Lemma rounding_drift_bounded_witness :
  exists partnerPayouts,
    calculate scenarioA =
      mkResponse 200 (distributionData scenarioA partnerPayouts) /\
    (Qabs (exactSumCents partnerPayouts - inject_Z (sumRounded partnerPayouts))
     <= inject_Z (Z.of_nat (List.length partnerPayouts))
        * inject_Z smallestDenomination / 2)%Q.
Proof.
  apply (rounding_drift_bounded scenarioA). vm_compute. reflexivity.
Defined.

(** C8 (as stated) fails on [scenarioPartial]: the route answers a
    Distribution for one partner whose rounded amounts add up to 2500
    cents, 7500 cents away from the total amount of 100, far beyond half a
    cent; the answer does not hold that residual. *)
Lemma residual_beyond_bound :
  calculate scenarioPartial =
    mkResponse 200 (distributionData scenarioPartial payoutsPartial) /\
  (discrepancyCents scenarioPartial payoutsPartial == 7500)%Q /\
  ~ (Qabs (discrepancyCents scenarioPartial payoutsPartial)
     <= inject_Z (Z.of_nat (List.length payoutsPartial))
        * inject_Z smallestDenomination / 2)%Q /\
  ~ exposesDiscrepancy scenarioPartial (calculate scenarioPartial).
Proof.
  split; [vm_compute; reflexivity |].
  split; [vm_compute; reflexivity |].
  split; [vm_compute; intros H; apply H; reflexivity |].
  intros (pps & key & x & Hp & Hk & Hx).
  assert (E : body (calculate scenarioPartial) =
              distributionData scenarioPartial payoutsPartial)
    by (vm_compute; reflexivity).
  rewrite E in Hp, Hk. clear E.
  cbn in Hp. injection Hp as <-.
  unfold distributionData in Hk. cbn [getField] in Hk.
  repeat match type of Hk with
         | (if ?b then _ else _) = _ => destruct b
         end;
    try discriminate; injection Hk as <-; vm_compute in Hx; discriminate.
Qed.

(* ================================================================== *)
(** * [analyzeImage] never throws *)
(* ================================================================== *)

Section GeminiFacts.

Variable env : ProcessEnv.
Variable fetch : string -> string -> Exc FetchResponse.
Variable parsedErrorMessage : string -> option string.

Lemma notOkBranch_failure (response : FetchResponse) (r : AnalysisResult) :
  notOkBranch parsedErrorMessage response = Return r ->
  text r = None /\ wellFormedResult r.
Proof.
  unfold notOkBranch.
  destruct (responseText response) as [errorText | e]; cbn [bindExc];
    [| discriminate].
  destruct (responseHeaders response) as [[] | e]; cbn [bindExc];
    [| discriminate].
  destruct (responseStatus response =? 400);
    [intros [= <-]; split; [reflexivity | cbn; discriminate] |].
  destruct (responseStatus response =? 403);
    [intros [= <-]; split; [reflexivity | cbn; discriminate] |].
  destruct (responseStatus response =? 429);
    [intros [= <-]; split; [reflexivity | cbn; discriminate] |].
  intros [= <-]. split; [reflexivity | cbn; discriminate].
Qed.

Lemma okBranch_wellFormed (response : FetchResponse) (r : AnalysisResult) :
  okBranch response = Return r -> wellFormedResult r.
Proof.
  unfold okBranch.
  destruct (responseJson response) as [[| [parts |]] | e];
    cbn [bindExc]; try discriminate.
  - intros [= <-]. cbn. discriminate.
  - destruct (String.eqb (String.concat lineFeed (truthyTexts parts)) EmptyString)
      eqn:E; intros [= <-]; cbn; [discriminate |].
    apply String.eqb_neq. exact E.
Qed.

(** Whatever the body of the [try] returns is well formed. *)
Lemma analyzeImageBody_wellFormed (imageBase64 : string)
  (r : AnalysisResult) :
  analyzeImageBody env fetch parsedErrorMessage imageBase64 = Return r ->
  wellFormedResult r.
Proof.
  unfold analyzeImageBody.
  destruct (String.eqb (apiKeyOf env) EmptyString);
    [intros [= <-]; cbn; discriminate |].
  destruct (fetch (apiKeyOf env) imageBase64) as [response | e]; cbn [bindExc];
    [| discriminate].
  destruct (ok response); cbn [negb].
  - apply okBranch_wellFormed.
  - apply notOkBranch_failure.
Qed.

(** In a failure mode the body of the [try] returns an error record or
    throws: it never returns a text. *)
Lemma analyzeImageBody_failure (imageBase64 : string) (r : AnalysisResult) :
  FailureMode env fetch imageBase64 ->
  analyzeImageBody env fetch parsedErrorMessage imageBase64 = Return r ->
  text r = None.
Proof.
  intros Hmode. unfold analyzeImageBody.
  destruct (String.eqb (apiKeyOf env) EmptyString) eqn:Ek; [intros [= <-]; reflexivity |].
  destruct (fetch (apiKeyOf env) imageBase64) as [response | e0] eqn:Ef; cbn [bindExc];
    [| discriminate].
  destruct (ok response) eqn:Hok; cbn [negb];
    [| apply notOkBranch_failure].
  unfold okBranch.
  destruct Hmode as [Hk | e He | resp Hf Hnok | resp e Hf Hj | resp Hf Hj
                    | resp Hf Hj | resp parts Hf Hj Ht].
  - rewrite Hk in Ek. discriminate.
  - congruence.
  - rewrite Ef in Hf. injection Hf as <-. congruence.
  - rewrite Ef in Hf. injection Hf as <-. rewrite Hj. discriminate.
  - rewrite Ef in Hf. injection Hf as <-. rewrite Hj.
    intros [= <-]. reflexivity.
  - rewrite Ef in Hf. injection Hf as <-. rewrite Hj. discriminate.
  - rewrite Ef in Hf. injection Hf as <-. rewrite Hj. cbn [bindExc].
    rewrite Ht. intros [= <-]. reflexivity.
Qed.

(** Outside the failure modes the body returns the extracted text. *)
Lemma analyzeImageBody_success (imageBase64 : string) :
  ~ FailureMode env fetch imageBase64 ->
  exists t, analyzeImageBody env fetch parsedErrorMessage imageBase64 =
            Return (mkAnalysisResult (Some t) None).
Proof.
  intros Hn. unfold analyzeImageBody.
  destruct (String.eqb (apiKeyOf env) EmptyString) eqn:Ek.
  { exfalso. apply Hn. apply MissingKey. apply String.eqb_eq. exact Ek. }
  destruct (fetch (apiKeyOf env) imageBase64) as [response | e] eqn:Ef; cbn [bindExc].
  2: { exfalso. apply Hn. eapply FetchRejects. exact Ef. }
  destruct (ok response) eqn:Hok; cbn [negb].
  2: { exfalso. apply Hn. eapply StatusNotOk; eauto. }
  unfold okBranch.
  destruct (responseJson response) as [[| [parts |]] | e] eqn:Ej;
    cbn [bindExc].
  - exfalso. apply Hn. eapply EmptyCandidates; eauto.
  - destruct (String.eqb (String.concat lineFeed (truthyTexts parts)) EmptyString)
      eqn:Et.
    + exfalso. apply Hn. eapply EmptyText; eauto.
      apply String.eqb_eq. exact Et.
    + eauto.
  - exfalso. apply Hn. eapply MissingParts; eauto.
  - exfalso. apply Hn. eapply JsonThrows; eauto.
Qed.

End GeminiFacts.

(** C10: [analyzeImage] never lets an exception out: it is a total function
    into result records, and for every environment, every behaviour of
    [fetch] and every image its result is well formed, that is a text that
    is not empty and no error, or a null text and an error string that is
    not empty.  In every failure mode (missing API key, [fetch] rejecting,
    status not OK, body that cannot be read, no candidate, candidate
    without parts, no extracted text) the text is null; otherwise it is
    the extracted text. *)
Theorem analyzeImage_never_throws (env : ProcessEnv)
  (fetch : string -> string -> Exc FetchResponse)
  (parsedErrorMessage : string -> option string) (imageBase64 : string) :
  wellFormedResult (analyzeImage env fetch parsedErrorMessage imageBase64) /\
  (FailureMode env fetch imageBase64 ->
   text (analyzeImage env fetch parsedErrorMessage imageBase64) = None) /\
  (~ FailureMode env fetch imageBase64 ->
   exists t,
     analyzeImage env fetch parsedErrorMessage imageBase64 =
     mkAnalysisResult (Some t) None).
Proof.
  unfold analyzeImage. repeat split.
  - destruct (analyzeImageBody env fetch parsedErrorMessage imageBase64)
      as [r | e] eqn:E.
    + eapply analyzeImageBody_wellFormed. exact E.
    + cbn. discriminate.
  - intros Hmode.
    destruct (analyzeImageBody env fetch parsedErrorMessage imageBase64)
      as [r | e] eqn:E.
    + eapply analyzeImageBody_failure; eauto.
    + reflexivity.
  - intros Hn.
    destruct (analyzeImageBody_success env fetch parsedErrorMessage
                imageBase64 Hn) as [t Ht].
    rewrite Ht. eauto.
Qed.

(** No key; a rejected [fetch]; a 503 answer. *)
Lemma analyzeImage_never_throws_witness :
  text (analyzeImage envWithoutKey (fun _ _ => Return answerWithText)
          (fun _ => None) "image") = None /\
  text (analyzeImage envWithKey (fun _ _ => Throw OtherThrown)
          (fun _ => None) "image") = None /\
  analyzeImage envWithKey (fun _ _ => Return answerServerError)
    (fun _ => None) "image" =
    failure "API Error (503): Failed to call Gemini API".
Proof.
  split; [| split].
  - apply (analyzeImage_never_throws envWithoutKey
             (fun _ _ => Return answerWithText) (fun _ => None) "image").
    apply MissingKey. reflexivity.
  - apply (analyzeImage_never_throws envWithKey
             (fun _ _ => Throw OtherThrown) (fun _ => None) "image").
    eapply FetchRejects. reflexivity.
  - reflexivity.
Defined.

(* ================================================================== *)
(** * The OCR text parser *)
(* ================================================================== *)

Section ListScans.

Context {A : Type}.
Variable f : A -> bool.

Lemma takeWhile_dropWhile (l : list A) : takeWhile f l ++ dropWhile f l = l.
Proof.
  induction l as [| a l IH]; cbn; [reflexivity |].
  destruct (f a); cbn; [rewrite IH |]; reflexivity.
Qed.

Lemma takeWhile_forallb (l : list A) : forallb f (takeWhile f l) = true.
Proof.
  induction l as [| a l IH]; cbn; [reflexivity |].
  destruct (f a) eqn:E; cbn; [rewrite E, IH |]; reflexivity.
Qed.

Lemma takeWhile_app (l r : list A) :
  forallb f l = true -> takeWhile f (l ++ r) = l ++ takeWhile f r.
Proof.
  induction l as [| a l IH]; cbn; [reflexivity |].
  intros H. apply andb_true_iff in H. destruct H as [Ha Hl].
  rewrite Ha, (IH Hl). reflexivity.
Qed.

Lemma dropWhile_app (l r : list A) :
  forallb f l = true -> dropWhile f (l ++ r) = dropWhile f r.
Proof.
  induction l as [| a l IH]; cbn; [reflexivity |].
  intros H. apply andb_true_iff in H. destruct H as [Ha Hl].
  rewrite Ha. apply IH, Hl.
Qed.

(** What [dropWhile] leaves does not start with a dropped character. *)
Lemma dropWhile_head (l : list A) (a : A) (r : list A) :
  dropWhile f l = a :: r -> f a = false.
Proof.
  induction l as [| b l IH]; cbn; [discriminate |].
  destruct (f b) eqn:E; [exact IH |].
  intros [= <- <-]. exact E.
Qed.

(** A scan that stops at once: the list is empty or its head fails. *)
Lemma takeWhile_nil (l : list A) :
  takeWhile f l = [] -> dropWhile f l = l.
Proof.
  destruct l as [| a l]; cbn; [reflexivity |].
  destruct (f a); [discriminate | reflexivity].
Qed.

End ListScans.

Lemma digit_not_space (c : CodeUnit) : isDigit c = true -> isSpace c = false.
Proof.
  unfold isDigit, isSpace, isLineTerminator. intros H.
  apply andb_true_iff in H. destruct H as [H1 H2].
  apply N.leb_le in H1. apply N.leb_le in H2.
  repeat (apply orb_false_iff; split); try (apply N.eqb_neq; lia).
  apply andb_false_iff. left. apply N.leb_gt. lia.
Qed.

Lemma digit_not_fullStop (c : CodeUnit) :
  isDigit c = true -> isFullStop c = false.
Proof.
  unfold isDigit, isFullStop. intros H.
  apply andb_true_iff in H. destruct H as [H1 H2].
  apply N.leb_le in H1. apply N.eqb_neq. lia.
Qed.

Lemma fullStop_code (c : CodeUnit) : isFullStop c = true -> c = 46%N.
Proof. unfold isFullStop. apply N.eqb_eq. Qed.

Lemma nonempty_length {A : Type} (l : list A) : l <> [] -> (0 < List.length l)%nat.
Proof. destruct l; cbn; [congruence | lia]. Qed.

(** The tail of the pattern finds a number after white space. *)
Lemma matchNumber_sound (s number : JSString) :
  matchNumber s = Some number ->
  exists ws rest,
    s = ws ++ number ++ rest /\
    forallb isSpace ws = true /\
    isNumberText number.
Proof.
  unfold matchNumber.
  pose proof (takeWhile_dropWhile isSpace s) as Hs.
  pose proof (takeWhile_forallb isSpace s) as Hws.
  generalize dependent (dropWhile isSpace s). intros s1 Hs.
  pose proof (takeWhile_dropWhile isDigit s1) as Hs1.
  pose proof (takeWhile_forallb isDigit s1) as Hint.
  destruct (takeWhile isDigit s1) as [| d int]; [discriminate |].
  assert (Hnum : isNumberText (d :: int)).
  { exists (d :: int). repeat split; auto. discriminate. }
  destruct (dropWhile isDigit s1) as [| c s2].
  - intros [= <-]. exists (takeWhile isSpace s), [].
    rewrite app_nil_r in *. subst s1. auto.
  - destruct (isFullStop c) eqn:Ec.
    + pose proof (takeWhile_dropWhile isDigit s2) as Hs2.
      pose proof (takeWhile_forallb isDigit s2) as Hfrac.
      apply fullStop_code in Ec. subst c.
      destruct (takeWhile isDigit s2) as [| d' frac].
      * intros [= <-]. exists (takeWhile isSpace s), (46%N :: s2).
        subst s1. auto.
      * intros [= <-].
        exists (takeWhile isSpace s), (dropWhile isDigit s2).
        repeat split; auto.
        -- rewrite <- Hs at 1. rewrite <- Hs1.
           f_equal. cbn. f_equal. rewrite <- app_assoc. f_equal.
           cbn. f_equal. symmetry. exact Hs2.
        -- exists (d :: int). repeat split; auto; [discriminate |].
           right. exists (d' :: frac). repeat split; auto. discriminate.
    + intros [= <-]. exists (takeWhile isSpace s), (c :: s2).
      subst s1. auto.
Qed.

(** The tail of the pattern finds the longest number there is. *)
Lemma matchNumber_complete (ws number rest : JSString) :
  forallb isSpace ws = true ->
  isNumberText number ->
  exists number',
    matchNumber (ws ++ number ++ rest) = Some number' /\
    (List.length number <= List.length number')%nat.
Proof.
  intros Hws (int & Hne & Hint & Hnum).
  unfold matchNumber.
  rewrite (dropWhile_app isSpace ws _ Hws).
  assert (Hstart : dropWhile isSpace (number ++ rest) = number ++ rest).
  { apply takeWhile_nil.
    destruct Hnum as [-> | (frac & _ & _ & ->)];
      destruct int as [| d int]; try congruence;
      cbn in Hint; apply andb_true_iff in Hint; destruct Hint as [Hd _];
      cbn; rewrite (digit_not_space d Hd); reflexivity. }
  rewrite Hstart.
  destruct Hnum as [-> | (frac & Hfne & Hfrac & ->)].
  - rewrite (takeWhile_app isDigit int rest Hint).
    rewrite (dropWhile_app isDigit int rest Hint).
    destruct (int ++ takeWhile isDigit rest) as [| d int'] eqn:Ei.
    { destruct int; [congruence | discriminate]. }
    assert (Hlen : (List.length int <= List.length (d :: int'))%nat).
    { rewrite <- Ei, length_app. lia. }
    destruct (dropWhile isDigit rest) as [| c s2]; [eauto |].
    destruct (isFullStop c); [| eauto].
    destruct (takeWhile isDigit s2); [eauto |].
    eexists. split; [reflexivity |]. rewrite length_app. lia.
  - rewrite <- app_assoc. cbn [app].
    rewrite (takeWhile_app isDigit int _ Hint).
    rewrite (dropWhile_app isDigit int _ Hint).
    cbn [takeWhile dropWhile].
    change (isDigit 46%N) with false. cbn iota. rewrite app_nil_r.
    destruct int as [| d int]; [congruence |].
    change (isFullStop 46%N) with true. cbn iota.
    rewrite (takeWhile_app isDigit frac rest Hfrac).
    destruct (frac ++ takeWhile isDigit rest) as [| d' frac'] eqn:Ef.
    { destruct frac; [congruence | discriminate]. }
    eexists. split; [reflexivity |].
    rewrite !length_app. cbn [List.length].
    assert (List.length frac <= List.length (d' :: frac'))%nat
      by (rewrite <- Ef, length_app; lia).
    cbn [List.length] in *. lia.
Qed.

(** The lazy group only grows. *)
Lemma matchName_prefix (rest : JSString) :
  forall name group1 group2,
    matchName name rest = Some (group1, group2) ->
    exists more, group1 = name ++ more.
Proof.
  induction rest as [| c rest IH]; intros name g1 g2; cbn; [discriminate |].
  destruct (if isSeparator c then matchNumber rest else None).
  - intros [= <- <-]. exists []. rewrite app_nil_r. reflexivity.
  - destruct (isDot c); [| discriminate].
    intros H. destruct (IH _ _ _ H) as [more ->].
    exists (c :: more). rewrite <- app_assoc. reflexivity.
Qed.

(** What the pattern matches has the form of the contract. *)
Lemma matchName_sound (rest : JSString) :
  forall name group1 group2,
    name <> [] ->
    forallb isDot name = true ->
    matchName name rest = Some (group1, group2) ->
    LineForm (name ++ rest) group1 group2.
Proof.
  induction rest as [| c rest IH]; intros name g1 g2 Hne Hdot; cbn;
    [discriminate |].
  destruct (isSeparator c) eqn:Ec.
  - destruct (matchNumber rest) as [number |] eqn:En.
    + intros [= <- <-].
      destruct (matchNumber_sound rest number En) as (ws & r & -> & Hws & Hn).
      exists c, ws, r. repeat split; auto.
    + destruct (isDot c) eqn:Ed; [| discriminate].
      intros H. replace (name ++ c :: rest) with ((name ++ [c]) ++ rest)
        by (rewrite <- app_assoc; reflexivity).
      apply IH; auto.
      * destruct name; discriminate.
      * rewrite forallb_app, Hdot. cbn. rewrite Ed. reflexivity.
  - destruct (isDot c) eqn:Ed; [| discriminate].
    intros H. replace (name ++ c :: rest) with ((name ++ [c]) ++ rest)
      by (rewrite <- app_assoc; reflexivity).
    apply IH; auto.
    + destruct name; discriminate.
    + rewrite forallb_app, Hdot. cbn. rewrite Ed. reflexivity.
Qed.

(** Whenever the line has the form, the pattern matches, with a name that
    is no longer, and for a name as long a number that is no shorter. *)
Lemma matchName_complete (extra : JSString) :
  forall name sep ws number rest,
    forallb isDot extra = true ->
    isSeparator sep = true ->
    forallb isSpace ws = true ->
    isNumberText number ->
    exists group1 group2,
      matchName name (extra ++ sep :: ws ++ number ++ rest)
        = Some (group1, group2) /\
      (List.length group1 <= List.length (name ++ extra))%nat /\
      (List.length (name ++ extra) = List.length group1 ->
       (List.length number <= List.length group2)%nat).
Proof.
  induction extra as [| c extra IH]; intros name sep ws number rest
    Hdot Hsep Hws Hnum; cbn [app matchName].
  - rewrite Hsep.
    destruct (matchNumber_complete ws number rest Hws Hnum)
      as (number' & -> & Hlen).
    exists name, number'. rewrite app_nil_r. auto.
  - cbn in Hdot. apply andb_true_iff in Hdot. destruct Hdot as [Hc Hdot].
    destruct (if isSeparator c
              then matchNumber (extra ++ sep :: ws ++ number ++ rest)
              else None) as [number0 |].
    + exists name, number0. rewrite length_app. cbn [List.length].
      repeat split; lia.
    + rewrite Hc.
      destruct (IH (name ++ [c]) sep ws number rest Hdot Hsep Hws Hnum)
        as (g1 & g2 & -> & Hle & Hmax).
      exists g1, g2.
      replace (name ++ c :: extra) with ((name ++ [c]) ++ extra)
        by (rewrite <- app_assoc; reflexivity).
      auto.
Qed.

(** Every reading of a line by the contract starts with the first
    character of the line. *)
Lemma LineForm_head (line name' number' : JSString) :
  LineForm line name' number' ->
  exists c extra sep ws rest,
    name' = c :: extra /\
    line = c :: extra ++ sep :: ws ++ number' ++ rest /\
    isDot c = true /\ forallb isDot extra = true /\
    isSeparator sep = true /\ forallb isSpace ws = true /\
    isNumberText number'.
Proof.
  intros (sep & ws & rest & -> & Hne & Hdot & Hsep & Hws & Hnum).
  destruct name' as [| c extra]; [congruence |].
  cbn in Hdot. apply andb_true_iff in Hdot. destruct Hdot as [Hc Hdot].
  exists c, extra, sep, ws, rest. repeat split; auto.
Qed.

(** The pattern matches exactly the lines that have the form. *)
Lemma regexMatch_complete (line name' number' : JSString) :
  LineForm line name' number' ->
  exists group1 group2,
    regexMatch line = Some (group1, group2) /\
    (List.length group1 <= List.length name')%nat /\
    (List.length name' = List.length group1 ->
     (List.length number' <= List.length group2)%nat).
Proof.
  intros H.
  destruct (LineForm_head _ _ _ H)
    as (c & extra & sep & ws & rest & -> & -> & Hc & Hdot & Hsep & Hws & Hnum).
  unfold regexMatch. rewrite Hc.
  apply (matchName_complete extra [c] sep ws number' rest); auto.
Qed.

Lemma regexMatch_sound (line group1 group2 : JSString) :
  regexMatch line = Some (group1, group2) ->
  LineForm line group1 group2.
Proof.
  unfold regexMatch. destruct line as [| c rest]; [discriminate |].
  destruct (isDot c) eqn:Ec; [| discriminate].
  intros H. apply (matchName_sound rest [c] group1 group2); auto.
  - discriminate.
  - cbn. rewrite Ec. reflexivity.
Qed.

(** The match is the reading with the shortest name and the longest
    number. *)
Lemma regexMatch_first (line group1 group2 : JSString) :
  regexMatch line = Some (group1, group2) ->
  FirstForm line group1 group2.
Proof.
  intros H. split; [apply regexMatch_sound, H |].
  intros name' number' Hform.
  destruct (regexMatch_complete _ _ _ Hform) as (g1 & g2 & E & Hle & Hmax).
  rewrite H in E. injection E as <- <-.
  split; [exact Hle |]. intros El. apply Hmax. exact El.
Qed.

Lemma app_same_length {A : Type} (a b x y : list A) :
  a ++ x = b ++ y -> List.length a = List.length b -> a = b /\ x = y.
Proof.
  revert b. induction a as [| h a IH]; intros [| k b]; cbn;
    try discriminate; auto.
  intros [= <- E] [= L]. destruct (IH b E L) as [-> ->]. auto.
Qed.

(** White space before a number is all the white space there is. *)
Lemma space_run_unique (ws ws' number number' rest rest' : JSString) :
  forallb isSpace ws = true -> forallb isSpace ws' = true ->
  isNumberText number -> isNumberText number' ->
  ws ++ number ++ rest = ws' ++ number' ++ rest' ->
  ws = ws' /\ number ++ rest = number' ++ rest'.
Proof.
  intros Hws Hws' Hn Hn' E.
  assert (Hstop : forall n r, isNumberText n ->
            takeWhile isSpace (n ++ r) = []).
  { intros n r (int & Hne & Hint & Hnum).
    destruct int as [| d int]; [congruence |].
    cbn in Hint. apply andb_true_iff in Hint. destruct Hint as [Hd _].
    destruct Hnum as [-> | (frac & _ & _ & ->)]; cbn;
      rewrite (digit_not_space d Hd); reflexivity. }
  assert (Ews : takeWhile isSpace (ws ++ number ++ rest) = ws)
    by (rewrite takeWhile_app, Hstop, app_nil_r; auto).
  assert (Ews' : takeWhile isSpace (ws' ++ number' ++ rest') = ws')
    by (rewrite takeWhile_app, Hstop, app_nil_r; auto).
  rewrite E in Ews. rewrite Ews' in Ews. subst ws'.
  split; [reflexivity |]. eapply app_inv_head. exact E.
Qed.

(** The reading with the shortest name and the longest number is the one
    the pattern returns. *)
Lemma FirstForm_regexMatch (line name' number' : JSString) :
  FirstForm line name' number' ->
  regexMatch line = Some (name', number').
Proof.
  intros [Hform Hmin].
  destruct (regexMatch_complete _ _ _ Hform) as (g1 & g2 & E & Hle & Hmax).
  rewrite E. pose proof (regexMatch_sound _ _ _ E) as Hg.
  destruct (Hmin g1 g2 Hg) as [Hle' Hmax'].
  assert (El : List.length name' = List.length g1) by lia.
  specialize (Hmax El). specialize (Hmax' (eq_sym El)).
  destruct Hform as (sep & ws & rest & Eline & _ & _ & _ & Hws & Hnum).
  destruct Hg as (sep' & ws' & rest' & Eline' & _ & _ & _ & Hws' & Hnum').
  rewrite Eline in Eline'.
  destruct (app_same_length _ _ _ _ Eline' El) as [<- Etail].
  injection Etail as <- Etail.
  destruct (space_run_unique _ _ _ _ _ _ Hws Hws' Hnum Hnum' Etail)
    as [<- Enum].
  destruct (app_same_length _ _ _ _ Enum ltac:(lia)) as [<- _].
  reflexivity.
Qed.

Lemma dropWhile_keeps_last {A : Type} (f : A -> bool) (l : list A) (a : A) :
  f a = false -> dropWhile f (l ++ [a]) = dropWhile f l ++ [a].
Proof.
  intros Ha. induction l as [| b l IH]; cbn; [rewrite Ha; reflexivity |].
  destruct (f b); [exact IH | reflexivity].
Qed.

(** A string that starts with something else than white space keeps its
    first character when trimmed. *)
Lemma trim_keeps_head (c : CodeUnit) (s : JSString) :
  isSpace c = false -> exists t, trim (c :: s) = c :: t.
Proof.
  intros Hc. unfold trim. cbn [dropWhile]. rewrite Hc. cbn [rev].
  rewrite (dropWhile_keeps_last isSpace (rev s) c Hc).
  rewrite rev_app_distr. cbn. eauto.
Qed.

(** A trimmed string is empty or starts with something else than white
    space. *)
Lemma trim_head (s : JSString) :
  trim s = [] \/ exists c t, trim s = c :: t /\ isSpace c = false.
Proof.
  unfold trim.
  destruct (dropWhile isSpace s) as [| c s1] eqn:E; [left; reflexivity |].
  right. pose proof (dropWhile_head isSpace s c s1 E) as Hc.
  cbn [rev]. rewrite (dropWhile_keeps_last isSpace (rev s1) c Hc).
  rewrite rev_app_distr. cbn. eauto.
Qed.

(** The array after one iteration: what it was, then what the line
    adds. *)
Lemma extractStep_app (partnerHours : list ParsedPartner) (line : JSString) :
  extractStep partnerHours line = partnerHours ++ extractStep [] line.
Proof.
  unfold extractStep.
  destruct (trim line) as [| c t]; [rewrite app_nil_r; reflexivity |].
  destruct (regexMatch (c :: t)) as [[g1 g2] |];
    [| rewrite app_nil_r; reflexivity].
  destruct (trim g1); [rewrite app_nil_r; reflexivity |].
  destruct (negb (isNaN (parseFloat g2)) && (0 <? parseFloat g2)%float);
    [reflexivity | rewrite app_nil_r; reflexivity].
Qed.

(** The loop adds the entries of the lines one after the other. *)
Lemma extractPartnerHours_flat_map (text : JSString) :
  extractPartnerHours text = flat_map (extractStep []) (splitLines text).
Proof.
  unfold extractPartnerHours.
  assert (H : forall lines acc,
            fold_left extractStep lines acc
            = acc ++ flat_map (extractStep []) lines).
  { induction lines as [| line lines IH]; intros acc; cbn.
    - rewrite app_nil_r. reflexivity.
    - rewrite IH, extractStep_app, app_assoc. reflexivity. }
  apply (H (splitLines text) []).
Qed.

(** What one line adds: the entry it yields, or nothing when it is
    skipped. *)
Lemma extractStep_line (line : JSString) :
  (exists e, lineYields line e /\ extractStep [] line = [e]) \/
  (lineSkipped line /\ extractStep [] line = []).
Proof.
  unfold extractStep.
  destruct (trim_head line) as [E | (c & t & E & Hc)].
  { right. rewrite E. split; [| reflexivity].
    left. intros name' number' H. rewrite E in H.
    destruct (LineForm_head _ _ _ H) as (? & ? & ? & ? & ? & _ & ? & _).
    discriminate. }
  rewrite E.
  destruct (regexMatch (c :: t)) as [[g1 g2] |] eqn:Em.
  - pose proof (regexMatch_first _ _ _ Em) as Hfirst.
    assert (Hname : exists t', trim g1 = c :: t').
    { unfold regexMatch in Em. destruct (isDot c); [| discriminate].
      destruct (matchName_prefix _ _ _ _ Em) as [more ->].
      apply trim_keeps_head, Hc. }
    destruct Hname as [t' Et]. rewrite Et.
    fold (positiveHours (parseFloat g2)).
    destruct (positiveHours (parseFloat g2)) eqn:Ep.
    + left. eexists. split; [| reflexivity].
      exists g1, g2. rewrite E, Et. auto.
    + right. split; [| reflexivity].
      right. exists g1, g2. rewrite E. auto.
  - right. split; [| reflexivity].
    left. intros name' number' H. rewrite E in H.
    destruct (regexMatch_complete _ _ _ H) as (g1 & g2 & Em' & _).
    congruence.
Qed.

(** A line cannot both yield an entry and be skipped, and it yields one
    entry at most. *)
Lemma lineYields_unique (line : JSString) (e : ParsedPartner) :
  lineYields line e -> extractStep [] line = [e].
Proof.
  intros (g1 & g2 & Hfirst & -> & Hpos).
  destruct (extractStep_line line) as [(e' & He' & ->) | [Hskip _]].
  - destruct He' as (g1' & g2' & Hfirst' & -> & _).
    apply FirstForm_regexMatch in Hfirst, Hfirst'.
    rewrite Hfirst in Hfirst'. injection Hfirst' as <- <-. reflexivity.
  - exfalso. destruct Hskip as [Hno | (g1' & g2' & Hfirst' & Hneg)].
    + apply (Hno g1 g2). apply Hfirst.
    + apply FirstForm_regexMatch in Hfirst, Hfirst'.
      rewrite Hfirst in Hfirst'. injection Hfirst' as <- <-. congruence.
Qed.

Lemma lineSkipped_nothing (line : JSString) :
  lineSkipped line -> extractStep [] line = [].
Proof.
  intros Hskip.
  destruct (extractStep_line line) as [(e & He & _) | [_ E]]; [| exact E].
  exfalso. destruct He as (g1 & g2 & Hfirst & _ & Hpos).
  destruct Hskip as [Hno | (g1' & g2' & Hfirst' & Hneg)].
  - apply (Hno g1 g2). apply Hfirst.
  - apply FirstForm_regexMatch in Hfirst, Hfirst'.
    rewrite Hfirst in Hfirst'. injection Hfirst' as <- <-. congruence.
Qed.

(** The contract determines the entries of a sequence of lines. *)
Lemma Entries_flat_map (lines : list JSString) (es : list ParsedPartner) :
  Entries lines es <-> es = flat_map (extractStep []) lines.
Proof.
  split.
  - induction 1 as [| line lines e es Hy _ IH | line lines es Hs _ IH]; cbn.
    + reflexivity.
    + rewrite (lineYields_unique line e Hy), IH. reflexivity.
    + rewrite (lineSkipped_nothing line Hs), IH. reflexivity.
  - intros ->. induction lines as [| line lines IH]; cbn; [constructor |].
    destruct (extractStep_line line) as [(e & He & ->) | [Hs ->]]; cbn.
    + apply Entries_yield; assumption.
    + apply Entries_skip; assumption.
Qed.

(** C9 (amended): for every input text the parser returns exactly the
    entries of its lines, in the order of the lines: one entry (trimmed
    name, number) for each line whose trimmed text has the form name,
    colon or dash, number, read with the shortest name, provided the
    number is greater than zero; every line that has not that form, and
    every line whose number is not greater than zero, is silently
    skipped. *)
Theorem extractPartnerHours_entries (text : JSString)
  (es : list ParsedPartner) :
  Entries (splitLines text) es <-> es = extractPartnerHours text.
Proof.
  rewrite extractPartnerHours_flat_map. apply Entries_flat_map.
Qed.

(** A text of one line. *)
Lemma extractPartnerHours_entries_witness :
  extractPartnerHours (ofAscii "Ann: 32") =
    [mkParsedPartner (ofAscii "Ann") 32%float] /\
  Entries (splitLines (ofAscii "Ann: 32"))
    [mkParsedPartner (ofAscii "Ann") 32%float].
Proof.
  split; [vm_compute; reflexivity |].
  apply (extractPartnerHours_entries (ofAscii "Ann: 32")).
  vm_compute. reflexivity.
Defined.

(** C9 (as stated) fails: the line "Bob: 0" has the form name, colon,
    number, and the parser returns no entry for it, so what it returns is
    not the sequence of entries of the lines that have the form. *)
Lemma zero_hours_line_dropped :
  LineForm (trim (ofAscii "Bob: 0")) (ofAscii "Bob") (ofAscii "0") /\
  extractPartnerHours (ofAscii "Bob: 0") = [] /\
  ~ EntriesAsWorded (splitLines (ofAscii "Bob: 0"))
      (extractPartnerHours (ofAscii "Bob: 0")).
Proof.
  assert (Hform : LineForm (trim (ofAscii "Bob: 0")) (ofAscii "Bob")
                    (ofAscii "0")).
  { exists 58%N, [32%N], []. repeat split; try reflexivity; [discriminate |].
    exists [48%N]. repeat split; auto. discriminate. }
  assert (Hnone : extractPartnerHours (ofAscii "Bob: 0") = [])
    by (vm_compute; reflexivity).
  repeat split; auto.
  rewrite Hnone. change (splitLines (ofAscii "Bob: 0")) with [ofAscii "Bob: 0"].
  intros H. inversion H as [| | line lines es Hno _]; subst.
  apply (Hno _ _ Hform).
Qed.

(* ================================================================== *)
(** * Trimming, splitting and formatting *)
(* ================================================================== *)

Lemma forallb_rev {A : Type} (f : A -> bool) (l : list A) :
  forallb f (rev l) = forallb f l.
Proof.
  induction l as [| a l IH]; cbn; [reflexivity |].
  rewrite forallb_app, IH. cbn. rewrite andb_true_r. apply andb_comm.
Qed.

(** A scan that does not consume the whole list ignores what follows. *)
Lemma dropWhile_app_stop {A : Type} (f : A -> bool) (l r : list A) :
  dropWhile f l <> [] -> dropWhile f (l ++ r) = dropWhile f l ++ r.
Proof.
  induction l as [| a l IH]; cbn; [intros H; contradiction H; reflexivity |].
  destruct (f a); [exact IH | reflexivity].
Qed.

Lemma dropWhile_all {A : Type} (f : A -> bool) (l : list A) :
  forallb f l = true -> dropWhile f l = [].
Proof.
  intros H. rewrite <- (app_nil_r l), (dropWhile_app f l [] H). reflexivity.
Qed.

Lemma trim_isTrimmed (s : JSString) : isTrimmed (trim s).
Proof.
  destruct (trim_head s) as [E | (c & t & E & Hc)]; [left; exact E |].
  right. split; [eauto |].
  unfold trim in *.
  destruct (dropWhile isSpace (rev (dropWhile isSpace s))) as [| d b] eqn:Eb;
    [discriminate |].
  apply dropWhile_head in Eb. cbn [rev]. eauto.
Qed.

Lemma isTrimmed_fixed (s : JSString) : isTrimmed s -> trim s = s.
Proof.
  intros [-> | [(c & t & E & Hc) (t' & c' & E' & Hc')]]; [reflexivity |].
  unfold trim.
  assert (E1 : dropWhile isSpace s = s) by (rewrite E; cbn; rewrite Hc; reflexivity).
  rewrite E1.
  assert (E2 : dropWhile isSpace (rev s) = rev s).
  { rewrite E', rev_app_distr. cbn. rewrite Hc'. reflexivity. }
  rewrite E2. apply rev_involutive.
Qed.

(** Trimming twice is trimming once. *)
Lemma trim_idempotent (s : JSString) : trim (trim s) = trim s.
Proof. apply isTrimmed_fixed, trim_isTrimmed. Qed.

(** White space around a string does not survive trimming. *)
Lemma trim_padding (before s after : JSString) :
  forallb isSpace before = true ->
  forallb isSpace after = true ->
  trim (before ++ s ++ after) = trim s.
Proof.
  intros Hb Ha. unfold trim.
  rewrite (dropWhile_app isSpace before _ Hb).
  destruct (dropWhile isSpace s) as [| c t] eqn:Es.
  - assert (Hall : forallb isSpace s = true).
    { pose proof (takeWhile_dropWhile isSpace s) as H. rewrite Es, app_nil_r in H.
      rewrite <- H. apply takeWhile_forallb. }
    rewrite (dropWhile_app isSpace s _ Hall), (dropWhile_all isSpace after Ha).
    reflexivity.
  - rewrite (dropWhile_app_stop isSpace s after) by (rewrite Es; discriminate).
    rewrite Es, rev_app_distr.
    rewrite dropWhile_app by (rewrite forallb_rev; exact Ha).
    reflexivity.
Qed.

Lemma splitLines_nonempty (text : JSString) : splitLines text <> [].
Proof.
  destruct text as [| c text]; cbn; [discriminate |].
  destruct (c =? 10)%N; [discriminate |].
  destruct (splitLines text); discriminate.
Qed.

(** Splitting at a line feed splits the lines. *)
Lemma splitLines_app (a b : JSString) :
  splitLines (a ++ 10%N :: b) = splitLines a ++ splitLines b.
Proof.
  induction a as [| c a IH]; cbn; [reflexivity |].
  destruct (c =? 10)%N; [rewrite IH; reflexivity |].
  rewrite IH. pose proof (splitLines_nonempty a) as Hne.
  destruct (splitLines a); [congruence | reflexivity].
Qed.

(** A string without line feed is one line. *)
Lemma splitLines_one (line : JSString) :
  forallb (fun c => negb (c =? 10)%N) line = true ->
  splitLines line = [line].
Proof.
  induction line as [| c line IH]; cbn; [reflexivity |].
  intros H. apply andb_true_iff in H. destruct H as [Hc Hl].
  apply negb_true_iff in Hc. rewrite Hc, (IH Hl). reflexivity.
Qed.

(** Joining lines and splitting again gives the lines back. *)
Lemma splitLines_joinLines (lines : list JSString) :
  lines <> [] ->
  Forall (fun line => forallb (fun c => negb (c =? 10)%N) line = true) lines ->
  splitLines (joinLines lines) = lines.
Proof.
  intros Hne H.
  induction H as [| line lines Hl Hls IH]; [exfalso; apply Hne; reflexivity |].
  destruct lines as [| line' lines].
  - cbn. apply splitLines_one, Hl.
  - change (joinLines (line :: line' :: lines))
      with (line ++ 10%N :: joinLines (line' :: lines)).
    rewrite splitLines_app, (splitLines_one line Hl), IH by discriminate.
    reflexivity.
Qed.

(** The lines of a text hold no line feed. *)
Lemma splitLines_no_feed (text : JSString) :
  Forall (fun line => forallb (fun c => negb (c =? 10)%N) line = true)
    (splitLines text).
Proof.
  induction text as [| c text IH]; cbn; [repeat constructor |].
  destruct (c =? 10)%N eqn:Ec; [constructor; [reflexivity | exact IH] |].
  destruct (splitLines text) as [| line lines]; [repeat constructor; cbn |].
  - rewrite Ec. reflexivity.
  - inversion IH as [| ? ? Hl Hls]; subst. constructor; [| exact Hls].
    cbn. rewrite Ec, Hl. reflexivity.
Qed.

(** Trimming only removes characters. *)
Lemma trim_keeps_property (f : CodeUnit -> bool) (s : JSString) :
  forallb f s = true -> forallb f (trim s) = true.
Proof.
  assert (Hdrop : forall l, forallb f l = true ->
                            forallb f (dropWhile isSpace l) = true).
  { intros l H. pose proof (takeWhile_dropWhile isSpace l) as E.
    rewrite <- E, forallb_app in H. apply andb_true_iff in H. apply H. }
  intros H. unfold trim. rewrite forallb_rev. apply Hdrop.
  rewrite forallb_rev. apply Hdrop, H.
Qed.

(** The lines [formatOCRResult] joins. *)
Lemma formatted_lines (text : JSString) :
  Forall (fun line => forallb (fun c => negb (c =? 10)%N) line = true)
    (filter hasLength (map trim (splitLines text))).
Proof.
  apply Forall_forall. intros line Hin.
  apply filter_In in Hin. destruct Hin as [Hin _].
  apply in_map_iff in Hin. destruct Hin as (l & <- & Hl).
  apply trim_keeps_property.
  pose proof (splitLines_no_feed text) as H.
  rewrite Forall_forall in H. apply H, Hl.
Qed.

(** A line that is empty once trimmed adds nothing; trimming a line
    beforehand changes nothing. *)
Lemma extractStep_blank (line : JSString) :
  hasLength (trim line) = false -> extractStep [] line = [].
Proof.
  unfold extractStep. destruct (trim line); [reflexivity | discriminate].
Qed.

Lemma extractStep_trim (line : JSString) :
  extractStep [] (trim line) = extractStep [] line.
Proof. unfold extractStep. rewrite trim_idempotent. reflexivity. Qed.

Lemma flat_map_formatted (lines : list JSString) :
  flat_map (extractStep []) (filter hasLength (map trim lines)) =
  flat_map (extractStep []) lines.
Proof.
  induction lines as [| line lines IH]; [reflexivity |].
  cbn [map filter flat_map].
  destruct (hasLength (trim line)) eqn:E; cbn [flat_map].
  - rewrite extractStep_trim, IH. reflexivity.
  - rewrite (extractStep_blank line E), IH. reflexivity.
Qed.

Lemma formatted_lines_clean (text : JSString) :
  Forall (fun line => hasLength line = true /\ isTrimmed line)
    (filter hasLength (map trim (splitLines text))).
Proof.
  apply Forall_forall. intros line Hin.
  apply filter_In in Hin. destruct Hin as [Hin Hlen].
  apply in_map_iff in Hin. destruct Hin as (l & <- & _).
  split; [exact Hlen | apply trim_isTrimmed].
Qed.

Lemma clean_lines_fixed (lines : list JSString) :
  Forall (fun line => hasLength line = true /\ isTrimmed line) lines ->
  filter hasLength (map trim lines) = lines.
Proof.
  induction 1 as [| line lines [Hlen Htrim] _ IH]; [reflexivity |].
  cbn [map filter]. rewrite (isTrimmed_fixed line Htrim), Hlen, IH.
  reflexivity.
Qed.

(** Formatting keeps what the parser reads. *)
Lemma extractPartnerHours_formatted (text : JSString) :
  extractPartnerHours (formatOCRResult text) = extractPartnerHours text.
Proof.
  rewrite !extractPartnerHours_flat_map. unfold formatOCRResult.
  rewrite <- (flat_map_formatted (splitLines text)).
  destruct (filter hasLength (map trim (splitLines text))) as [| l ls] eqn:E.
  - reflexivity.
  - rewrite splitLines_joinLines; [reflexivity | discriminate |].
    rewrite <- E. apply formatted_lines.
Qed.

(** X1: parsing the formatted text gives the entries of the text itself:
    [extractPartnerHours (formatOCRResult text) = extractPartnerHours text]
    for every text. *)
Theorem extract_after_format (text : JSString) :
  extractPartnerHours (formatOCRResult text) = extractPartnerHours text.
Proof. apply extractPartnerHours_formatted. Qed.

(** X2: [formatOCRResult] is idempotent, and the text it returns has no
    empty line and no line that starts or ends with white space (unless it
    is the empty text). *)
Theorem formatOCRResult_idempotent (text : JSString) :
  formatOCRResult (formatOCRResult text) = formatOCRResult text /\
  (formatOCRResult text = [] \/
   Forall (fun line => hasLength line = true /\ isTrimmed line)
     (splitLines (formatOCRResult text))).
Proof.
  unfold formatOCRResult.
  pose proof (formatted_lines text) as Hfeed.
  pose proof (formatted_lines_clean text) as Hclean.
  destruct (filter hasLength (map trim (splitLines text))) as [| l ls] eqn:E.
  - split; [reflexivity | left; reflexivity].
  - rewrite splitLines_joinLines by (discriminate || exact Hfeed).
    rewrite (clean_lines_fixed _ Hclean). split; [reflexivity |].
    right. exact Hclean.
Qed.

(** X3: the parser works line by line: the entries of two texts joined by
    a line feed are the entries of the first followed by those of the
    second. *)
Theorem extract_line_by_line (a b : JSString) :
  extractPartnerHours (a ++ 10%N :: b) =
  extractPartnerHours a ++ extractPartnerHours b.
Proof.
  rewrite !extractPartnerHours_flat_map, splitLines_app.
  apply flat_map_app.
Qed.

(** The entry of a line, if any, is clean. *)
Lemma extractStep_clean (line : JSString) :
  Forall cleanEntry (extractStep [] line) /\
  (List.length (extractStep [] line) <= 1)%nat.
Proof.
  unfold extractStep.
  destruct (trim line) as [| c t] eqn:Et; [split; [constructor | cbn; lia] |].
  destruct (regexMatch (c :: t)) as [[g1 g2] |] eqn:Em;
    [| split; [constructor | cbn; lia]].
  destruct (trim g1) as [| c1 t1] eqn:Eg; [split; [constructor | cbn; lia] |].
  destruct (negb (isNaN (parseFloat g2))) eqn:En; cbn [andb];
    [| split; [constructor | cbn; lia]].
  destruct (0 <? parseFloat g2)%float eqn:Ep;
    [| split; [constructor | cbn; lia]].
  split; [| cbn; lia].
  constructor; [| constructor].
  unfold cleanEntry. cbn [name hours].
  repeat split; auto.
  - discriminate.
  - rewrite <- Eg. apply trim_isTrimmed.
  - rewrite <- Eg. apply trim_keeps_property.
    apply regexMatch_sound in Em.
    destruct Em as (_ & _ & _ & _ & _ & Hdot & _). exact Hdot.
  - apply negb_true_iff. exact En.
Qed.

(** X4: every entry the parser returns has a name that is not empty, has
    no white space at its ends and no line terminator inside, and hours
    that are a number greater than zero; and there are at most as many
    entries as lines. *)
Theorem extract_entries_clean (text : JSString) :
  Forall cleanEntry (extractPartnerHours text) /\
  (List.length (extractPartnerHours text)
   <= List.length (splitLines text))%nat.
Proof.
  rewrite extractPartnerHours_flat_map.
  induction (splitLines text) as [| line lines [IHc IHl]];
    [split; [constructor | cbn; lia] |].
  cbn [flat_map List.length].
  destruct (extractStep_clean line) as [Hc Hl].
  split.
  - apply Forall_app. split; assumption.
  - rewrite length_app. lia.
Qed.

(** Lines that agree once trimmed give the same entries. *)
Lemma flat_map_same_trim (lines' lines : list JSString) :
  Forall2 (fun l' l => trim l' = trim l) lines' lines ->
  flat_map (extractStep []) lines' = flat_map (extractStep []) lines.
Proof.
  induction 1 as [| l' l lines' lines E _ IH]; [reflexivity |].
  cbn [flat_map]. rewrite IH. f_equal.
  rewrite <- (extractStep_trim l'), <- (extractStep_trim l), E. reflexivity.
Qed.

Lemma crlf_lines (text : JSString) :
  Forall2 (fun l' l => l' = l \/ l' = l ++ [13%N])
    (splitLines (crlf text)) (splitLines text).
Proof.
  induction text as [| c text IH]; cbn [crlf splitLines].
  - repeat constructor.
  - destruct (c =? 10)%N eqn:Ec.
    + cbn [splitLines]. change (13 =? 10)%N with false. cbn iota.
      change (10 =? 10)%N with true. cbn iota.
      constructor; [right; reflexivity | exact IH].
    + cbn [splitLines]. rewrite Ec.
      pose proof (splitLines_nonempty (crlf text)) as H1.
      pose proof (splitLines_nonempty text) as H2.
      destruct (splitLines (crlf text)) as [| l' ls']; [congruence |].
      destruct (splitLines text) as [| l ls]; [congruence |].
      inversion IH as [| ? ? ? ? E Hrest]; subst.
      constructor; [| exact Hrest].
      destruct E as [-> | ->]; [left | right]; reflexivity.
Qed.

(** X5: Windows line ends change nothing: a text with a carriage return
    before every line feed gives the same entries. *)
Theorem extract_crlf (text : JSString) :
  extractPartnerHours (crlf text) = extractPartnerHours text.
Proof.
  rewrite !extractPartnerHours_flat_map.
  apply flat_map_same_trim.
  eapply Forall2_impl; [| apply crlf_lines].
  intros l' l [-> | ->]; [reflexivity |].
  apply (trim_padding [] l [13%N]); reflexivity.
Qed.

(* ================================================================== *)
(** * The two copies of [analyzeImage] and the OCR handlers *)
(* ================================================================== *)

Lemma orElse_empty (a : option string) (b : string) :
  orElse a b = b \/ (exists s, a = Some s /\ s <> EmptyString /\ orElse a b = s).
Proof.
  destruct a as [s |]; cbn; [| left; reflexivity].
  destruct (String.eqb s EmptyString) eqn:E; [left; reflexivity |].
  right. exists s. apply String.eqb_neq in E. auto.
Qed.

Lemma orElse_unset (a : option string) (b : string) :
  unsetOrEmpty a -> orElse a b = b.
Proof. intros [-> | ->]; reflexivity. Qed.

Lemma orElse_set (s b : string) :
  s <> EmptyString -> orElse (Some s) b = s.
Proof.
  intros H. cbn. apply String.eqb_neq in H. rewrite H. reflexivity.
Qed.

Section CopiesOfAnalyzeImage.

Variable env : ProcessEnv.
Variable fetch : string -> string -> Exc FetchResponse.
Variable parsedErrorMessage : string -> option string.

(** The result of [analyzeImage] is always well formed. *)
Lemma analyzeImage_wellFormed (imageBase64 : string) :
  wellFormedResult (analyzeImage env fetch parsedErrorMessage imageBase64).
Proof.
  unfold analyzeImage.
  destruct (analyzeImageBody env fetch parsedErrorMessage imageBase64)
    as [r | e] eqn:E.
  - eapply analyzeImageBody_wellFormed. exact E.
  - cbn. discriminate.
Qed.

Lemma notOkBranchVercel_failure (response : FetchResponse)
  (r : AnalysisResult) :
  notOkBranchVercel parsedErrorMessage response = Return r ->
  text r = None /\ wellFormedResult r.
Proof.
  unfold notOkBranchVercel.
  destruct (responseText response) as [errorText | e]; cbn [bindExc];
    [| discriminate].
  destruct (responseStatus response =? 400);
    [intros [= <-]; split; [reflexivity | cbn; discriminate] |].
  destruct (responseStatus response =? 403);
    [intros [= <-]; split; [reflexivity | cbn; discriminate] |].
  destruct (responseStatus response =? 429);
    [intros [= <-]; split; [reflexivity | cbn; discriminate] |].
  intros [= <-]. split; [reflexivity | cbn; discriminate].
Qed.

(** Without the logging of the headers the two error branches are the
    same. *)
Lemma notOkBranch_without_headers (response : FetchResponse) :
  responseHeaders response = Return tt ->
  notOkBranch parsedErrorMessage response =
  notOkBranchVercel parsedErrorMessage response.
Proof.
  intros H. unfold notOkBranch, notOkBranchVercel. rewrite H.
  destruct (responseText response) as [errorText | e]; reflexivity.
Qed.

End CopiesOfAnalyzeImage.

(** Whatever the [try] block of the Vercel copy returns is well formed. *)
Lemma analyzeImageBodyVercel_wellFormed (env : ProcessEnv)
  (fetch : string -> string -> Exc FetchResponse)
  (parsedErrorMessage : string -> option string) (imageBase64 : string)
  (r : AnalysisResult) :
  analyzeImageBodyVercel env fetch parsedErrorMessage imageBase64 = Return r ->
  wellFormedResult r.
Proof.
  unfold analyzeImageBodyVercel.
  destruct (String.eqb (orElse (GEMINI_API_KEY env) EmptyString) EmptyString);
    [intros [= <-]; cbn; discriminate |].
  destruct (fetch _ imageBase64) as [response | e]; cbn [bindExc];
    [| discriminate].
  destruct (ok response); cbn [negb]; intros E.
  - eapply okBranch_wellFormed. exact E.
  - eapply notOkBranchVercel_failure. exact E.
Qed.

(** X6: the Vercel copy of [analyzeImage] never lets an exception out
    either: for every environment, every behaviour of [fetch] and every
    image its result is a text that is not empty and no error, or a null
    text and an error string that is not empty. *)
Theorem analyzeImageVercel_wellFormed (env : ProcessEnv)
  (fetch : string -> string -> Exc FetchResponse)
  (parsedErrorMessage : string -> option string) (imageBase64 : string) :
  wellFormedResult
    (analyzeImageVercel env fetch parsedErrorMessage imageBase64).
Proof.
  unfold analyzeImageVercel.
  destruct (analyzeImageBodyVercel env fetch parsedErrorMessage imageBase64)
    as [r | e] eqn:E.
  - eapply analyzeImageBodyVercel_wellFormed. exact E.
  - cbn. discriminate.
Qed.

(** X7: the two copies of [analyzeImage] agree whenever the Netlify
    variable is unset or empty and the logging of the headers of an answer
    that is not OK does not throw: the Vercel copy differs from the server
    one in nothing else. *)
Theorem analyzeImage_copies_agree (env : ProcessEnv)
  (fetch : string -> string -> Exc FetchResponse)
  (parsedErrorMessage : string -> option string) (imageBase64 : string) :
  unsetOrEmpty (NETLIFY_GEMINI_API_KEY env) ->
  (forall response,
     fetch (apiKeyOf env) imageBase64 = Return response ->
     ok response = false ->
     responseHeaders response = Return tt) ->
  analyzeImageVercel env fetch parsedErrorMessage imageBase64 =
  analyzeImage env fetch parsedErrorMessage imageBase64.
Proof.
  intros Hn Hh.
  assert (Ek : apiKeyOf env = orElse (GEMINI_API_KEY env) EmptyString).
  { unfold apiKeyOf. rewrite (orElse_unset _ EmptyString Hn). reflexivity. }
  unfold analyzeImageVercel, analyzeImage, analyzeImageBodyVercel,
    analyzeImageBody.
  rewrite <- Ek.
  destruct (String.eqb (apiKeyOf env) EmptyString); [reflexivity |].
  destruct (fetch (apiKeyOf env) imageBase64) as [response | e] eqn:Ef;
    cbn [bindExc]; [| reflexivity].
  destruct (ok response) eqn:Hok; cbn [negb]; [reflexivity |].
  rewrite (notOkBranch_without_headers parsedErrorMessage response);
    [reflexivity |].
  apply (Hh response eq_refl Hok).
Qed.

(** An answer that is not OK, with headers that can be logged, under a
    key in [GEMINI_API_KEY] alone. *)
Lemma analyzeImage_copies_agree_witness :
  analyzeImageVercel envWithKey (fun _ _ => Return answerServerError)
    (fun _ => None) "image" =
  analyzeImage envWithKey (fun _ _ => Return answerServerError)
    (fun _ => None) "image".
Proof.
  apply (analyzeImage_copies_agree envWithKey
           (fun _ _ => Return answerServerError) (fun _ => None) "image").
  - left. reflexivity.
  - intros response [= <-] _. reflexivity.
Defined.

Lemma unsetOrEmpty_orElse (a : option string) (b : string) :
  orElse a b = EmptyString -> unsetOrEmpty a.
Proof.
  destruct a as [s |]; cbn; [| left; reflexivity].
  destruct (String.eqb s EmptyString) eqn:E.
  - apply String.eqb_eq in E. subst s. right. reflexivity.
  - intros ->. discriminate E.
Qed.

(** With a key, whatever the body of the [try] returns is not the
    missing-key error. *)
Lemma keyed_result_not_missing_key (fetch : string -> string -> Exc FetchResponse)
  (parsedErrorMessage : string -> option string) (key imageBase64 : string) :
  match (response <- fetch key imageBase64 ;;
         if negb (ok response)
         then notOkBranch parsedErrorMessage response
         else okBranch response)
  with
  | Return r =>
      r <> failure "API key missing. Please configure the Gemini API key."
  | Throw _ => True
  end.
Proof.
  destruct (fetch key imageBase64) as [response | e]; cbn [bindExc];
    [| exact I].
  destruct (ok response); cbn [negb].
  - unfold okBranch.
    destruct (responseJson response) as [[| [parts |]] | e]; cbn [bindExc];
      try exact I; [discriminate |].
    destruct (String.eqb _ EmptyString); discriminate.
  - unfold notOkBranch.
    destruct (responseText response) as [errorText | e]; cbn [bindExc];
      [| exact I].
    destruct (responseHeaders response) as [[] | e]; cbn [bindExc];
      [| exact I].
    destruct (responseStatus response =? 400); [discriminate |].
    destruct (responseStatus response =? 403); [discriminate |].
    destruct (responseStatus response =? 429); [discriminate |].
    cbn. discriminate.
Qed.

(** X8: which key [analyzeImage] uses.  The missing-key error is answered
    exactly when both [GEMINI_API_KEY] and [NETLIFY_GEMINI_API_KEY] are
    unset or empty, and then whatever [fetch] would do; and with a
    [GEMINI_API_KEY] that is not empty the Netlify variable makes no
    difference. *)
Theorem analyzeImage_key (env : ProcessEnv)
  (fetch : string -> string -> Exc FetchResponse)
  (parsedErrorMessage : string -> option string) (imageBase64 : string) :
  (analyzeImage env fetch parsedErrorMessage imageBase64 =
   failure "API key missing. Please configure the Gemini API key."
   <->
   unsetOrEmpty (GEMINI_API_KEY env) /\
   unsetOrEmpty (NETLIFY_GEMINI_API_KEY env)) /\
  (forall key other,
     GEMINI_API_KEY env = Some key -> key <> EmptyString ->
     analyzeImage env fetch parsedErrorMessage imageBase64 =
     analyzeImage (mkProcessEnv (Some key) other) fetch parsedErrorMessage
       imageBase64).
Proof.
  split; [split |].
  - unfold analyzeImage, analyzeImageBody.
    destruct (String.eqb (apiKeyOf env) EmptyString) eqn:Ek.
    + intros _. apply String.eqb_eq in Ek. unfold apiKeyOf in Ek.
      pose proof (unsetOrEmpty_orElse _ _ Ek) as Hg.
      rewrite (orElse_unset _ _ Hg) in Ek.
      split; [exact Hg | apply (unsetOrEmpty_orElse _ _ Ek)].
    + pose proof (keyed_result_not_missing_key fetch parsedErrorMessage
                    (apiKeyOf env) imageBase64) as H.
      destruct (response <- fetch (apiKeyOf env) imageBase64 ;;
                if negb (ok response)
                then notOkBranch parsedErrorMessage response
                else okBranch response) as [r | e].
      * intros E. contradiction.
      * discriminate.
  - intros [Hg Hn]. unfold analyzeImage, analyzeImageBody, apiKeyOf.
    rewrite (orElse_unset _ _ Hg), (orElse_unset _ _ Hn). reflexivity.
  - intros key other Eg Hne. unfold analyzeImage, analyzeImageBody, apiKeyOf.
    cbn [GEMINI_API_KEY]. rewrite Eg, !(orElse_set key _ Hne). reflexivity.
Qed.

(** No key at all; a key in [GEMINI_API_KEY] with and without a Netlify
    key beside it. *)
Lemma analyzeImage_key_witness :
  analyzeImage envWithoutKey (fun _ _ => Return answerWithText)
    (fun _ => None) "image" =
  failure "API key missing. Please configure the Gemini API key." /\
  analyzeImage envWithKey (fun _ _ => Return answerWithText)
    (fun _ => None) "image" =
  analyzeImage (mkProcessEnv (Some "k"%string) (Some "n"%string))
    (fun _ _ => Return answerWithText) (fun _ => None) "image".
Proof.
  pose proof (analyzeImage_key envWithoutKey
                (fun _ _ => Return answerWithText) (fun _ => None) "image")
    as (H1 & _).
  pose proof (analyzeImage_key envWithKey
                (fun _ _ => Return answerWithText) (fun _ => None) "image")
    as (_ & H2).
  split.
  - apply H1. split; [left | right]; reflexivity.
  - apply (H2 "k"%string (Some "n"%string)); [reflexivity | discriminate].
Defined.

(** A well-formed result with no usable text is answered with its own
    error message, not with the fallback one. *)
Lemma analysisError_own_message {Text Entries : Type} (result : AnalysisResult) :
  wellFormedResult result ->
  text result = None ->
  exists e,
    error result = Some e /\ e <> EmptyString /\
    @analysisError Text Entries result =
    mkOcrResponse 500 (OcrError e (Some true) None).
Proof.
  unfold wellFormedResult, analysisError. intros H Ht. rewrite Ht in H.
  destruct (error result) as [e |]; [| contradiction].
  exists e. repeat split; auto. rewrite (orElse_set e _ H). reflexivity.
Qed.

(** The text of a well-formed result is not empty. *)
Lemma wellFormed_text (result : AnalysisResult) (t : string) :
  wellFormedResult result -> text result = Some t ->
  String.eqb t EmptyString = false.
Proof.
  unfold wellFormedResult. intros H Ht. rewrite Ht in H.
  destruct (error result); [contradiction |].
  apply String.eqb_neq. exact H.
Qed.

(** X9: [POST /api/ocr], for any [extractPartnerHours] and
    [formatOCRResult] of formatUtils.  Without a file the route answers
    400 "No image file provided".  With one, when [analyzeImage] has no
    text it answers 500 with [suggestManualEntry] and the very error
    message of the analyser, never the fallback message, and neither
    helper is called.  Otherwise the text is not empty, and the route
    answers 200 with what the two helpers return for that text, or, as
    soon as one of them throws, 500 with the fixed message and the
    details of the error. *)
Theorem ocrRoute_answers (Buffer : Type) (toBase64 : Buffer -> string)
  (Text Entries : Type)
  (formatUtils_extractPartnerHours : string -> Exc Entries)
  (formatUtils_formatOCRResult : string -> Exc Text)
  (env : ProcessEnv)
  (fetch : string -> string -> Exc FetchResponse)
  (parsedErrorMessage : string -> option string) (file : option Buffer) :
  match file with
  | None =>
      ocrRoute Buffer toBase64 Text Entries formatUtils_extractPartnerHours
        formatUtils_formatOCRResult env fetch parsedErrorMessage None =
      plainError 400 "No image file provided"
  | Some buffer =>
      match text (analyzeImage env fetch parsedErrorMessage (toBase64 buffer))
      with
      | None =>
          exists e,
            error (analyzeImage env fetch parsedErrorMessage (toBase64 buffer))
              = Some e /\
            e <> EmptyString /\
            ocrRoute Buffer toBase64 Text Entries
              formatUtils_extractPartnerHours formatUtils_formatOCRResult
              env fetch parsedErrorMessage (Some buffer) =
            mkOcrResponse 500 (OcrError e (Some true) None)
      | Some t =>
          t <> EmptyString /\
          ocrRoute Buffer toBase64 Text Entries
            formatUtils_extractPartnerHours formatUtils_formatOCRResult
            env fetch parsedErrorMessage (Some buffer) =
          match formatUtils_extractPartnerHours t with
          | Throw e => processingError e
          | Return parsed =>
              match formatUtils_formatOCRResult t with
              | Throw e => processingError e
              | Return formattedText =>
                  mkOcrResponse 200 (OcrResult formattedText parsed)
              end
          end
      end
  end.
Proof.
  destruct file as [buffer |]; [| reflexivity].
  pose proof (analyzeImage_wellFormed env fetch parsedErrorMessage
                (toBase64 buffer)) as Hw.
  unfold ocrRoute, ocrRouteBody.
  destruct (text (analyzeImage env fetch parsedErrorMessage (toBase64 buffer)))
    as [t |] eqn:Et.
  - pose proof (wellFormed_text _ t Hw Et) as Hne. rewrite Hne.
    split; [apply String.eqb_neq, Hne |].
    destruct (formatUtils_extractPartnerHours t) as [parsed | e];
      cbn [bindExc]; [| reflexivity].
    destruct (formatUtils_formatOCRResult t) as [formattedText | e];
      reflexivity.
  - apply analysisError_own_message; assumption.
Qed.

(** X10: the Vercel function.  Any method but POST is answered 405
    whatever was uploaded; an upload the middleware rejects is answered
    500 with the details of the error; an upload without a file 400.  For
    an uploaded file, when the function's [analyzeImage] has no text the
    answer is 500 with [suggestManualEntry] and the very error message of
    the analyser; otherwise the text is not empty and the answer is 200
    with the text formatted by the function's [formatOCRResult] and the
    partner hours its [extractPartnerHours] finds, which are exactly
    those that parsing the formatted text gives. *)
Theorem ocrHandler_answers (Buffer : Type) (toBase64 : Buffer -> string)
  (codeUnits : string -> JSString) (env : ProcessEnv)
  (fetch : string -> string -> Exc FetchResponse)
  (parsedErrorMessage : string -> option string)
  (req : OcrRequest Buffer) :
  (ocrMethod Buffer req <> "POST"%string ->
   ocrHandler Buffer toBase64 codeUnits env fetch parsedErrorMessage req =
   plainError 405 "Method not allowed") /\
  (forall e,
     ocrMethod Buffer req = "POST"%string ->
     upload Buffer req = Throw e ->
     ocrHandler Buffer toBase64 codeUnits env fetch parsedErrorMessage req =
     mkOcrResponse 500
       (OcrError "Failed to process the image. Please try manual entry instead."
          (Some true) (Some (errorDetails e)))) /\
  (ocrMethod Buffer req = "POST"%string ->
   upload Buffer req = Return None ->
   ocrHandler Buffer toBase64 codeUnits env fetch parsedErrorMessage req =
   plainError 400 "No image file provided") /\
  (forall buffer,
     ocrMethod Buffer req = "POST"%string ->
     upload Buffer req = Return (Some buffer) ->
     match text (analyzeImageVercel env fetch parsedErrorMessage
                   (toBase64 buffer)) with
     | None =>
         exists e,
           error (analyzeImageVercel env fetch parsedErrorMessage
                    (toBase64 buffer)) = Some e /\
           e <> EmptyString /\
           ocrHandler Buffer toBase64 codeUnits env fetch parsedErrorMessage
             req =
           mkOcrResponse 500 (OcrError e (Some true) None)
     | Some t =>
         t <> EmptyString /\
         ocrHandler Buffer toBase64 codeUnits env fetch parsedErrorMessage
           req =
         mkOcrResponse 200
           (OcrResult (formatOCRResult (codeUnits t))
              (extractPartnerHours (codeUnits t))) /\
         extractPartnerHours (codeUnits t) =
         extractPartnerHours (formatOCRResult (codeUnits t))
     end).
Proof.
  unfold ocrHandler. split; [| split; [| split]].
  - intros H. apply String.eqb_neq in H. rewrite H. reflexivity.
  - intros e Hm Hu. rewrite Hm, Hu. reflexivity.
  - intros Hm Hu. rewrite Hm, Hu. reflexivity.
  - intros buffer Hm Hu. rewrite Hm, Hu.
    change (String.eqb "POST" "POST") with true. cbn [negb].
    unfold ocrPipeline.
    assert (Hw : wellFormedResult
                   (analyzeImageVercel env fetch parsedErrorMessage
                      (toBase64 buffer))).
    { unfold analyzeImageVercel.
      destruct (analyzeImageBodyVercel env fetch parsedErrorMessage
                  (toBase64 buffer)) as [r | e] eqn:E.
      - eapply analyzeImageBodyVercel_wellFormed. exact E.
      - cbn. discriminate. }
    destruct (text (analyzeImageVercel env fetch parsedErrorMessage
                      (toBase64 buffer))) as [t |] eqn:Et.
    + pose proof (wellFormed_text _ t Hw Et) as Hne. rewrite Hne.
      split; [apply String.eqb_neq, Hne |].
      split; [reflexivity |].
      symmetry. apply extractPartnerHours_formatted.
    + apply analysisError_own_message; assumption.
Qed.

(** A GET, a rejected upload, an upload without a file, and an image whose
    text Gemini returns. *)
Lemma ocrHandler_answers_witness :
  ocrHandler unit (fun _ => "image"%string) ofAscii envWithKey
    (fun _ _ => Return answerWithText) (fun _ => None)
    (mkOcrRequest unit "GET" (Return (Some tt))) =
  plainError 405 "Method not allowed" /\
  ocrHandler unit (fun _ => "image"%string) ofAscii envWithKey
    (fun _ _ => Return answerWithText) (fun _ => None)
    (mkOcrRequest unit "POST" (Throw (ErrorObj "File too large"))) =
  mkOcrResponse 500
    (OcrError "Failed to process the image. Please try manual entry instead."
       (Some true) (Some "File too large"%string)) /\
  ocrHandler unit (fun _ => "image"%string) ofAscii envWithKey
    (fun _ _ => Return answerWithText) (fun _ => None)
    (mkOcrRequest unit "POST" (Return None)) =
  plainError 400 "No image file provided" /\
  (exists t,
     text (analyzeImageVercel envWithKey (fun _ _ => Return answerWithText)
             (fun _ => None) "image") = Some t /\
     ocrHandler unit (fun _ => "image"%string) ofAscii envWithKey
       (fun _ _ => Return answerWithText) (fun _ => None)
       (mkOcrRequest unit "POST" (Return (Some tt))) =
     mkOcrResponse 200
       (OcrResult (formatOCRResult (ofAscii t))
          (extractPartnerHours (formatOCRResult (ofAscii t))))).
Proof.
  split; [| split; [| split]].
  - apply (ocrHandler_answers unit (fun _ => "image"%string) ofAscii
             envWithKey (fun _ _ => Return answerWithText) (fun _ => None)
             (mkOcrRequest unit "GET" (Return (Some tt)))).
    discriminate.
  - apply (proj1 (proj2 (ocrHandler_answers unit (fun _ => "image"%string)
             ofAscii envWithKey (fun _ _ => Return answerWithText)
             (fun _ => None)
             (mkOcrRequest unit "POST" (Throw (ErrorObj "File too large")))))
             (ErrorObj "File too large")); reflexivity.
  - apply (proj1 (proj2 (proj2 (ocrHandler_answers unit
             (fun _ => "image"%string)
             ofAscii envWithKey (fun _ _ => Return answerWithText)
             (fun _ => None)
             (mkOcrRequest unit "POST" (Return None)))))); reflexivity.
  - pose proof (proj2 (proj2 (proj2 (ocrHandler_answers unit
             (fun _ => "image"%string)
             ofAscii envWithKey (fun _ _ => Return answerWithText)
             (fun _ => None)
             (mkOcrRequest unit "POST" (Return (Some tt))))))
             tt eq_refl eq_refl) as H.
    cbv beta in H.
    destruct (text (analyzeImageVercel envWithKey
                      (fun _ _ => Return answerWithText) (fun _ => None)
                      "image")) as [t |] eqn:Et.
    + exists t. destruct H as (_ & H & E).
      split; [reflexivity |]. rewrite <- E. exact H.
    + vm_compute in Et. discriminate Et.
Defined.

(* ================================================================== *)
(** * The partners function *)
(* ================================================================== *)

(** The test of line 30, read on the request. *)
Lemma acceptedName_string (v : JSONValue) (s : JSString) :
  acceptedName v = Some s <-> v = JString s /\ hasLength (trim s) = true.
Proof.
  unfold acceptedName. split.
  - destruct (truthy v); cbn [negb]; [| discriminate].
    destruct v; try discriminate.
    destruct (hasLength (trim s0)) eqn:E; [| discriminate].
    intros [= <-]. auto.
  - intros [-> H]. cbn [truthy].
    assert (Hs : hasLength s = true).
    { destruct s as [| c s]; [discriminate H | reflexivity]. }
    rewrite Hs, H. reflexivity.
Qed.

(** What the handler does with a request, case by case. *)
Lemma partnersHandler_cases (st : PartnerStore) (req : PartnersRequest) :
  match acceptedPost req with
  | Some name =>
      partnersHandler st req =
      (mkPartnersResponse 201 (OnePartner (mkPartner name (partnerId st))),
       mkPartnerStore (partners st ++ [mkPartner name (partnerId st)])
         (nextId (partnerId st)))
  | None =>
      snd (partnersHandler st req) = st /\
      partnersStatus (fst (partnersHandler st req)) <> 201
  end.
Proof.
  unfold acceptedPost, partnersHandler, partnersHandlerBody.
  destruct (String.eqb (method req) "GET") eqn:Eg.
  { apply String.eqb_eq in Eg. rewrite Eg. cbn. split; [reflexivity | discriminate]. }
  destruct (String.eqb (method req) "POST") eqn:Ep;
    [| cbn; split; [reflexivity | discriminate]].
  destruct (bodyName req) as [v |]; [| cbn; split; [reflexivity | discriminate]].
  destruct (acceptedName v) as [s |] eqn:Ea.
  - apply acceptedName_string in Ea. destruct Ea as [-> H].
    rewrite H. reflexivity.
  - assert (Hno : match v with
                  | JString s => if hasLength (trim s) then Some (trim s) else None
                  | _ => None
                  end = None).
    { destruct v; try reflexivity.
      destruct (hasLength (trim s)) eqn:E; [| reflexivity].
      assert (acceptedName (JString s) = Some s)
        by (apply acceptedName_string; auto).
      congruence. }
    rewrite Hno. cbn. split; [reflexivity | discriminate].
Qed.

(** The stored partners only grow, at the end. *)
Lemma serve_prefix (reqs : list PartnersRequest) :
  forall st, exists added,
    partners (snd (serve st reqs)) = partners st ++ added /\
    (List.length added <= List.length reqs)%nat.
Proof.
  induction reqs as [| req reqs IH]; intros st; cbn [serve].
  - exists []. rewrite app_nil_r. split; [reflexivity | cbn; lia].
  - pose proof (partnersHandler_cases st req) as Hc.
    destruct (partnersHandler st req) as [answer st'] eqn:Eh.
    destruct (IH st') as (added & Ea & Hl).
    destruct (serve st' reqs) as [answers st''] eqn:Es.
    cbn [snd] in *.
    destruct (acceptedPost req) as [name |].
    + injection Hc as _ ->. cbn [partners] in Ea.
      exists (mkPartner name (partnerId st) :: added).
      rewrite Ea, <- app_assoc. split; [reflexivity | cbn; lia].
    + destruct Hc as [<- _]. exists added. split; [exact Ea | cbn; lia].
Qed.

Lemma acceptedPost_clean (req : PartnersRequest) (name : JSString) :
  acceptedPost req = Some name -> name <> [] /\ isTrimmed name.
Proof.
  unfold acceptedPost.
  destruct (String.eqb (method req) "POST"); [| discriminate].
  destruct (bodyName req) as [[| | | | s |] |]; try discriminate.
  destruct (hasLength (trim s)) eqn:E; [| discriminate].
  intros [= <-]. split; [| apply trim_isTrimmed].
  destruct (trim s); [discriminate E | discriminate].
Qed.

Lemma firstIds_succ (n : nat) :
  firstIds (S n) = firstIds n ++ [Z.of_nat n + 1].
Proof.
  unfold firstIds. rewrite seq_S, map_app. cbn [map]. f_equal. f_equal. lia.
Qed.

Lemma firstIds_NoDup (n : nat) : NoDup (firstIds n).
Proof.
  unfold firstIds. apply Injective_map_NoDup; [| apply seq_NoDup].
  intros a b H. lia.
Qed.

(** One request keeps the store in order while the counter is exact. *)
Lemma partnersHandler_inOrder (st : PartnerStore) (req : PartnersRequest) :
  storeInOrder st ->
  partnerId st < 2 ^ 53 ->
  storeInOrder (snd (partnersHandler st req)).
Proof.
  intros (Hc & Hi & Hn) Hlt.
  pose proof (partnersHandler_cases st req) as H.
  destruct (acceptedPost req) as [name |] eqn:Ea; [| destruct H as [-> _]; repeat split; auto].
  rewrite H. cbn [snd]. unfold storeInOrder. cbn [partners partnerId].
  rewrite length_app, map_app. cbn [List.length map id].
  replace (List.length (partners st) + 1)%nat
    with (S (List.length (partners st))) by lia.
  unfold nextId. apply Z.ltb_lt in Hlt. rewrite Hlt.
  rewrite firstIds_succ, Hi, Hc. repeat split; try lia.
  apply Forall_app. split; [exact Hn |].
  constructor; [| constructor]. cbn [partnerName].
  apply (acceptedPost_clean req name Ea).
Qed.

(** One request adds at most one partner. *)
Lemma partnersHandler_length (st : PartnerStore) (req : PartnersRequest) :
  (List.length (partners (snd (partnersHandler st req)))
   <= S (List.length (partners st)))%nat.
Proof.
  pose proof (partnersHandler_cases st req) as H.
  destruct (acceptedPost req) as [name |]; [| destruct H as [-> _]; lia].
  rewrite H. cbn [snd partners]. rewrite length_app. cbn. lia.
Qed.

Lemma serve_inOrder (reqs : list PartnersRequest) :
  forall st,
    storeInOrder st ->
    Z.of_nat (List.length (partners st)) + Z.of_nat (List.length reqs)
      < 2 ^ 53 ->
    storeInOrder (snd (serve st reqs)).
Proof.
  induction reqs as [| req reqs IH]; intros st Hst Hlt; cbn [serve].
  - exact Hst.
  - pose proof (partnersHandler_inOrder st req Hst) as Hstep.
    pose proof (partnersHandler_length st req) as Hlen.
    destruct (partnersHandler st req) as [answer st'].
    cbn [snd] in *.
    specialize (IH st').
    destruct (serve st' reqs) as [answers st'']. cbn [snd] in *.
    cbn [List.length] in Hlt.
    destruct Hst as (Hc & _).
    apply IH; [apply Hstep; lia | lia].
Qed.

(** X13: a request changes the store only when it is answered 201, and
    then it appends exactly one partner: the answer is 201 exactly for a
    POST whose [name] is a string that is not empty once trimmed; the
    partner made has the trimmed name and the current value of the counter
    as identifier, it is the body of the answer and the new last element
    of the store.  Every other request (GET, another method, a missing
    body, a missing or blank name) leaves the store as it was. *)
Theorem partnersHandler_effect (st : PartnerStore) (req : PartnersRequest) :
  (forall s,
     method req = "POST"%string ->
     bodyName req = Some (JString s) ->
     hasLength (trim s) = true ->
     partnersHandler st req =
     (mkPartnersResponse 201 (OnePartner (mkPartner (trim s) (partnerId st))),
      mkPartnerStore (partners st ++ [mkPartner (trim s) (partnerId st)])
        (nextId (partnerId st)))) /\
  ((forall s,
      ~ (method req = "POST"%string /\
         bodyName req = Some (JString s) /\
         hasLength (trim s) = true)) ->
   partnersStatus (fst (partnersHandler st req)) <> 201 /\
   snd (partnersHandler st req) = st).
Proof.
  pose proof (partnersHandler_cases st req) as H. split.
  - intros s Hm Hb Hl. unfold acceptedPost in H.
    rewrite Hm, Hb, Hl in H. exact H.
  - intros Hno.
    destruct (acceptedPost req) as [name |] eqn:Ea; [| tauto].
    exfalso. unfold acceptedPost in Ea.
    destruct (String.eqb (method req) "POST") eqn:Em; [| discriminate].
    destruct (bodyName req) as [[| | | | s |] |]; try discriminate.
    destruct (hasLength (trim s)) eqn:E; [| discriminate].
    apply String.eqb_eq in Em. apply (Hno s). auto.
Qed.

(** A padded name is stored trimmed; a blank name changes nothing. *)
Lemma partnersHandler_effect_witness :
  partnersHandler initialStore (postName (ofAscii " Ann ")) =
  (mkPartnersResponse 201 (OnePartner (mkPartner (ofAscii "Ann") 1)),
   mkPartnerStore [mkPartner (ofAscii "Ann") 1] 2) /\
  (partnersStatus
     (fst (partnersHandler initialStore (postName (ofAscii "  ")))) <> 201 /\
   snd (partnersHandler initialStore (postName (ofAscii "  ")))
   = initialStore).
Proof.
  split.
  - apply (proj1 (partnersHandler_effect initialStore
                    (postName (ofAscii " Ann "))) (ofAscii " Ann "));
      reflexivity.
  - apply (proj2 (partnersHandler_effect initialStore
                    (postName (ofAscii "  ")))).
    intros s (_ & Hb & Hl). injection Hb as <-. discriminate Hl.
Defined.

(** X14: after any sequence of requests to a freshly loaded function
    (fewer than [2^53] of them, so that the counter is exact) the stored
    partners have the identifiers 1, 2, ..., n in the order of their
    creation, hence no two share an identifier, the counter is [n + 1],
    and every stored name is trimmed and not empty. *)
Theorem store_identifiers (reqs : list PartnersRequest) :
  Z.of_nat (List.length reqs) < 2 ^ 53 ->
  storeInOrder (snd (serve initialStore reqs)) /\
  NoDup (map id (partners (snd (serve initialStore reqs)))).
Proof.
  intros Hlt.
  assert (H : storeInOrder (snd (serve initialStore reqs))).
  { apply serve_inOrder; [| cbn [initialStore partners List.length]; lia].
    unfold storeInOrder, initialStore. cbn. repeat split; auto. }
  split; [exact H |].
  destruct H as (_ & -> & _). apply firstIds_NoDup.
Qed.

(** Two partners made, with a refused request in between. *)
Lemma store_identifiers_witness :
  storeInOrder
    (snd (serve initialStore
            [postName (ofAscii " Ann "); postName (ofAscii "  ");
             postName (ofAscii "Bob")])) /\
  NoDup (map id
           (partners
              (snd (serve initialStore
                      [postName (ofAscii " Ann "); postName (ofAscii "  ");
                       postName (ofAscii "Bob")])))).
Proof.
  apply (store_identifiers
           [postName (ofAscii " Ann "); postName (ofAscii "  ");
            postName (ofAscii "Bob")]).
  cbn [List.length]. change (2 ^ 53) with 9007199254740992. lia.
Defined.

(** X15: a partner that was created stays listed: right after the 201
    answer a GET lists the former partners followed by the new one, and
    after any further requests a GET still lists it, the partners stored
    before it still coming first and unchanged. *)
Theorem created_partner_listed (st st' : PartnerStore)
  (req : PartnersRequest) (p : Partner) (reqs : list PartnersRequest) :
  partnersHandler st req = (mkPartnersResponse 201 (OnePartner p), st') ->
  exists later,
    fst (partnersHandler (snd (serve st' reqs)) getRequest) =
    mkPartnersResponse 200 (PartnerList (partners st ++ p :: later)) /\
    (List.length later <= List.length reqs)%nat.
Proof.
  intros H.
  pose proof (partnersHandler_cases st req) as Hc.
  destruct (acceptedPost req) as [name |].
  - rewrite H in Hc. injection Hc as -> ->.
    destruct (serve_prefix reqs
                (mkPartnerStore
                   (partners st ++ [mkPartner name (partnerId st)])
                   (nextId (partnerId st)))) as (added & Ea & Hl).
    exists added. split; [| exact Hl].
    unfold partnersHandler, partnersHandlerBody, getRequest, getPartners.
    cbn [method String.eqb fst]. change (String.eqb "GET" "GET") with true.
    cbn iota. cbn [fst]. rewrite Ea. cbn [partners].
    rewrite <- app_assoc. reflexivity.
  - rewrite H in Hc. destruct Hc as [_ Hc]. contradiction Hc. reflexivity.
Qed.

(** Ann is created, then a blank name is refused and Bob is created: Ann
    is still listed first. *)
Lemma created_partner_listed_witness :
  exists later,
    fst (partnersHandler
           (snd (serve (snd (partnersHandler initialStore
                               (postName (ofAscii " Ann "))))
                   [postName (ofAscii "  "); postName (ofAscii "Bob")]))
           getRequest) =
    mkPartnersResponse 200
      (PartnerList (partners initialStore ++ mkPartner (ofAscii "Ann") 1 :: later)) /\
    (List.length later <= 2)%nat.
Proof.
  apply (created_partner_listed initialStore
           (snd (partnersHandler initialStore (postName (ofAscii " Ann "))))
           (postName (ofAscii " Ann ")) (mkPartner (ofAscii "Ann") 1)
           [postName (ofAscii "  "); postName (ofAscii "Bob")]).
  vm_compute. reflexivity.
Defined.

(* ================================================================== *)
(** * The calculate-distribution route: its answers, case by case *)
(* ================================================================== *)

Section RouteTable.

Context {Rounded Breakdown : Type}.
Variable allocate : float -> float -> float.
Variable rounder : float -> Exc (Rounded * Breakdown).
Variable schema : list PartnerHours -> bool.

(** The callback returns exactly for the partners whose payout can be
    computed. *)
Lemma partnerPayoutOf_computable (rate : float) (p : PartnerHours) :
  payoutComputable allocate rounder rate p = true <->
  exists pp, partnerPayoutOf allocate rounder rate p = Return pp.
Proof.
  unfold payoutComputable, partnerPayoutOf.
  destruct (isFinite (allocate (ph_hours p) rate)); cbn [negb andb orb].
  2: { split; [discriminate | intros [pp H]; discriminate]. }
  destruct (allocate (ph_hours p) rate <? 0)%float; cbn [negb andb orb].
  1: { split; [discriminate | intros [pp H]; discriminate]. }
  destruct (rounder (allocate (ph_hours p) rate)) as [rb | e]; cbn [bindExc].
  - split; eauto.
  - split; [discriminate | intros [pp H]; discriminate].
Qed.

(** The [map] returns exactly when the callback returns for every
    partner. *)
Lemma mapExc_returns (rate : float) (l : list PartnerHours) :
  forallb (payoutComputable allocate rounder rate) l = true <->
  exists pps, mapExc (partnerPayoutOf allocate rounder rate) l = Return pps.
Proof.
  induction l as [| p l IH]; cbn [forallb mapExc].
  - split; eauto.
  - rewrite andb_true_iff, partnerPayoutOf_computable, IH. split.
    + intros [[pp Hp] [pps Hm]]. rewrite Hp, Hm. cbn. eauto.
    + intros [pps H].
      destruct (partnerPayoutOf allocate rounder rate p) as [pp | e];
        cbn [bindExc] in H; [| discriminate].
      destruct (mapExc (partnerPayoutOf allocate rounder rate) l)
        as [pps' | e]; cbn [bindExc] in H; [| discriminate].
      eauto.
Qed.

(** Up to the first partner whose callback throws, the [map] goes on;
    there it throws what the callback throws. *)
Lemma mapExc_first_throw {A B : Type} (f : A -> Exc B)
  (before : list A) (a : A) (after : list A) (e : Thrown) :
  Forall (fun x => exists b, f x = Return b) before ->
  f a = Throw e ->
  mapExc f (before ++ a :: after) = Throw e.
Proof.
  intros Hb Ha. induction Hb as [| x before [b Hx] _ IH]; cbn.
  - rewrite Ha. reflexivity.
  - rewrite Hx. cbn [bindExc]. rewrite IH. reflexivity.
Qed.

Lemma passesValidation_guards (req : RequestBody) :
  passesValidation schema req = true <->
  exists p l,
    partnerHours req = Some (p :: l) /\
    notPositiveFinite (totalAmount req) = false /\
    notPositiveFinite (totalHours req) = false /\
    notPositiveFinite (hourlyRate req) = false /\
    schema (p :: l) = true.
Proof.
  unfold passesValidation.
  destruct (partnerHours req) as [[| p l] |].
  1, 3: split; [discriminate | intros (? & ? & H & _); discriminate].
  rewrite !andb_true_iff, !negb_true_iff. split.
  - intros [[[Ha Hh] Hr] Hs]. exists p, l. auto.
  - intros (p' & l' & [= <- <-] & Ha & Hh & Hr & Hs). auto.
Qed.

End RouteTable.

(** X11: the status of the calculate-distribution route is decided as
    follows, and is never anything else: 400 when a guard of the
    validation fails (list missing or empty, a total or the rate not
    positive and finite, schema refused); otherwise 200 when every
    partner's payout is finite, not negative and accepted by the Bill
    Rounder; otherwise 500. *)
Theorem calculateDistribution_status {Rounded Breakdown : Type}
  (allocate : float -> float -> float)
  (rounder : float -> Exc (Rounded * Breakdown))
  (schema : list PartnerHours -> bool) (req : RequestBody) :
  status (calculateDistribution allocate rounder schema req) =
  if negb (passesValidation schema req) then 400
  else if forallb (payoutComputable allocate rounder (hourlyRate req))
            (partnersOf req)
  then 200 else 500.
Proof.
  destruct (passesValidation schema req) eqn:Ev; cbn [negb].
  - apply passesValidation_guards in Ev.
    destruct Ev as (p & l & El & Ha & Hh & Hr & Hs).
    rewrite (route_nonempty allocate rounder schema req p l El).
    rewrite Ha, Hh, Hr, Hs. cbn [negb].
    unfold partnersOf. rewrite El.
    destruct (forallb (payoutComputable allocate rounder (hourlyRate req))
                (p :: l)) eqn:Ef.
    + apply mapExc_returns in Ef. destruct Ef as [pps ->]. reflexivity.
    + destruct (mapExc (partnerPayoutOf allocate rounder (hourlyRate req))
                  (p :: l)) as [pps | e] eqn:Em; [| reflexivity].
      assert (forallb (payoutComputable allocate rounder (hourlyRate req))
                (p :: l) = true) by (apply mapExc_returns; eauto).
      congruence.
  - destruct (partnerHours req) as [[| p l] |] eqn:El.
    1, 3: rewrite (route_missing allocate rounder schema req) by auto;
          reflexivity.
    rewrite (route_nonempty allocate rounder schema req p l El).
    unfold passesValidation in Ev. rewrite El in Ev.
    destruct (notPositiveFinite (totalAmount req)); [reflexivity |].
    destruct (notPositiveFinite (totalHours req)); [reflexivity |].
    destruct (notPositiveFinite (hourlyRate req)); [reflexivity |].
    cbn [negb andb] in Ev. rewrite Ev. reflexivity.
Qed.

(** X12: when the validation passes, the 500 answer names the first
    partner, in the order of the list, whose payout is negative or not
    finite, provided the payouts of the partners before could be
    computed; the partners after that one are not looked at. *)
Theorem first_invalid_payout_named {Rounded Breakdown : Type}
  (allocate : float -> float -> float)
  (rounder : float -> Exc (Rounded * Breakdown))
  (schema : list PartnerHours -> bool) (req : RequestBody)
  (before : list PartnerHours) (p : PartnerHours)
  (after : list PartnerHours) :
  passesValidation schema req = true ->
  partnerHours req = Some (before ++ p :: after) ->
  forallb (payoutComputable allocate rounder (hourlyRate req)) before = true ->
  invalidPayout (allocate (ph_hours p) (hourlyRate req)) ->
  calculateDistribution allocate rounder schema req =
  errorResponse 500 ("Invalid payout calculation for partner " ++ ph_name p).
Proof.
  intros Hv El Hb Hp.
  apply passesValidation_guards in Hv.
  destruct Hv as (q & l & El' & Ha & Hh & Hr & Hs).
  rewrite (route_nonempty allocate rounder schema req q l El').
  rewrite Ha, Hh, Hr, Hs. cbn [negb].
  rewrite El in El'. injection El' as El'. rewrite <- El'.
  rewrite (mapExc_first_throw _ before p after
             (ErrorObj ("Invalid payout calculation for partner " ++ ph_name p))).
  - reflexivity.
  - apply Forall_forall. intros x Hx.
    rewrite forallb_forall in Hb.
    apply partnerPayoutOf_computable, Hb, Hx.
  - apply partnerPayoutOf_invalid, Hp.
Qed.

(** The second of three partners overflows: the answer names B, not C. *)
Lemma first_invalid_payout_named_witness :
  calculate scenarioSecondOverflow =
  errorResponse 500 "Invalid payout calculation for partner B".
Proof.
  apply (first_invalid_payout_named calculatePayout roundAndCalculateBills
           partnerHoursSchema scenarioSecondOverflow
           [mkPartnerHours "A" 10%float]
           (mkPartnerHours "B" 0x1p+1000%float)
           [mkPartnerHours "C" 0x1p+1000%float]).
  - vm_compute. reflexivity.
  - reflexivity.
  - vm_compute. reflexivity.
  - right. vm_compute. reflexivity.
Defined.

(* ================================================================== *)
(** * Scenarios of the specification *)
(* ================================================================== *)

(** Section 8, first scenario: 100 for A (10 hours) and B (30 hours). *)
Example scenarioA_run :
  calculate scenarioA =
  mkResponse 200
    [ ("totalAmount"%string, VNum 100%float);
      ("totalHours"%string, VNum 40%float);
      ("hourlyRate"%string, VNum 2.5%float);
      ("partnerPayouts"%string, VPayouts
         [ mkPartnerPayout "A" 10%float 25%float 2500 [(2000, 1); (500, 1)];
           mkPartnerPayout "B" 30%float 75%float 7500
             [(2000, 3); (1000, 1); (500, 1)] ]) ].
Proof. vm_compute. reflexivity. Qed.

(** Section 8, second scenario: 100 for A (1 hour) and B (2 hours), at the
    rate [100 / 3]: 33.33 and 66.67, pennies included. *)
Example scenarioThirds_run :
  mapExc (partnerPayoutOf calculatePayout roundAndCalculateBills
            (100 / 3)%float)
    [mkPartnerHours "A" 1%float; mkPartnerHours "B" 2%float] =
  Return
    [ mkPartnerPayout "A" 1%float (100 / 3)%float 3333
        [(2000, 1); (1000, 1); (100, 3); (25, 1); (5, 1); (1, 3)];
      mkPartnerPayout "B" 2%float (2 * (100 / 3))%float 6667
        [(2000, 3); (500, 1); (100, 1); (25, 2); (10, 1); (5, 1); (1, 2)] ].
Proof. vm_compute. reflexivity. Qed.

(** The boundaries of section 8. *)
Example boundaries_run :
  calculate scenarioNoHours = errorResponse 400 "Invalid partner hours data" /\
  calculate scenarioZero =
    errorResponse 400 "Total amount must be a positive number" /\
  calculate scenarioEmptyZero =
    errorResponse 400 "Partner hours data is missing or empty".
Proof. repeat split; vm_compute; reflexivity. Qed.

(** The parser on an answer of the OCR provider: the second line has no
    separator, the fourth is read with the shortest name, the fifth has no
    hours. *)
Example extractPartnerHours_run :
  extractPartnerHours
    (ofAscii "John Smith: 32" ++ [10%N] ++
     ofAscii "no hours here" ++ [10%N] ++
     ofAscii "  Maria Garcia - 24.5 hours " ++ [10%N] ++
     ofAscii "a-1: 5" ++ [10%N] ++
     ofAscii "Bob: 0") =
  [ mkParsedPartner (ofAscii "John Smith") 32%float;
    mkParsedPartner (ofAscii "Maria Garcia") 24.5%float;
    mkParsedPartner (ofAscii "a") 1%float ].
Proof. vm_compute. reflexivity. Qed.

(** The minus sign U+2212 separates as well. *)
Example extractPartnerHours_minus_sign :
  extractPartnerHours (ofAscii "Ann " ++ [8722%N] ++ ofAscii " 18.75") =
  [mkParsedPartner (ofAscii "Ann") 18.75%float].
Proof. vm_compute. reflexivity. Qed.

(** [analyzeImage] on an answer with two texts among its parts. *)
Example analyzeImage_run :
  analyzeImage envWithKey (fun _ _ => Return answerWithText) (fun _ => None)
    "image" =
  mkAnalysisResult
    (Some ("John Smith: 32" ++ lineFeed ++ "Maria Garcia: 24.5")%string) None.
Proof. vm_compute. reflexivity. Qed.

(** With values that agree with each other the sum of the rounded amounts
    can still miss [totalAmount] by more than half a cent per partner, by
    an artefact of binary64: the product [10 * (0.115 / 10)] falls just
    below 0.115 and is rounded down to 11 cents, while the binary64 number
    0.115 lies just above 11.5 cents. *)
Example half_cent_artefact :
  calculate scenarioHalfCent =
    mkResponse 200 (distributionData scenarioHalfCent payoutsHalfCent) /\
  (1 # 2 < discrepancyCents scenarioHalfCent payoutsHalfCent)%Q.
Proof. split; vm_compute; reflexivity. Qed.

(** The counter of the partners function is a JavaScript number: adding 1
    is exact up to [2^53] and has no effect there, which is what [nextId]
    writes out. *)
Example counter_at_2_53 :
  (9007199254740991 + 1)%float = 9007199254740992%float /\
  (9007199254740992 + 1)%float = 9007199254740992%float /\
  nextId 9007199254740991 = 9007199254740992 /\
  nextId 9007199254740992 = 9007199254740992.
Proof. repeat split; vm_compute; reflexivity. Qed.

(** The text of an image with blank lines and padded lines, formatted. *)
Example formatOCRResult_run :
  formatOCRResult
    (ofAscii "  John Smith: 32 " ++ [13%N; 10%N; 10%N] ++
     ofAscii "Maria Garcia - 24.5" ++ [10%N] ++ ofAscii "   ") =
  ofAscii "John Smith: 32" ++ [10%N] ++ ofAscii "Maria Garcia - 24.5".
Proof. vm_compute. reflexivity. Qed.

(** The partners function: a GET on a fresh store, a POST without body,
    a PUT. *)
Example partnersHandler_run :
  fst (partnersHandler initialStore getRequest) =
    mkPartnersResponse 200 (PartnerList []) /\
  fst (partnersHandler initialStore (mkPartnersRequest "POST" None)) =
    mkPartnersResponse 500 (PartnersError "Failed to create partner") /\
  fst (partnersHandler initialStore (mkPartnersRequest "PUT" None)) =
    mkPartnersResponse 405 (PartnersError "Method not allowed") /\
  fst (partnersHandler initialStore
         (mkPartnersRequest "POST" (Some (JNumber 7%float)))) =
    mkPartnersResponse 400 (PartnersError "Partner name is required").
Proof. repeat split; vm_compute; reflexivity. Qed.
